(** * Pinecone index migration: a shallow embedding and its properties

    The development embeds the two Python modules of the repository,
    [pinecone_manager.py] (class [PineconeManager]) and
    [pinecone_index_migration/pinecone_migration.py] ([migrate], [main]),
    as state-passing functions over an explicit world, and proves the
    properties the specification states about them, then further
    properties of each function of the two modules.

    Modelling choices, in one place:
    - The vendor SDK (Pinecone, OpenAI) is an external collaborator.  It is a
      record of oracles [SDK]; every oracle sees the whole history of
      events so far, so its answers may change over time (an index becomes
      ready, a deleted index disappears from the listing, ...).
    - Python exceptions are values of [exn].  [sys.exit(c)] raises
      [SystemExit c], which is not an instance of [Exception]; every other
      exception of the model is an instance of [Exception] and carries its
      class, which may derive from another class: [except AttributeError]
      catches the instances of the classes derived from it too.
    - A string is the sequence of the bytes of its UTF-8 encoding;
      [str.strip] removes the white space characters of Unicode, whatever
      the length of their encoding.
    - [len(vectors) / batch_size] is the division of Python: the double
      nearest to the quotient, of which [math.ceil] takes the ceiling.
    - [PineconeManager] objects are mutable; they live in a heap and are
      designated by references, so that a mutation survives an exception.
    - [print], [time.sleep] and [input] are recorded as events.  A message
      is recorded as the text of the source with the values of its fields
      next to it.
    - Vector components are floats that the program only copies; they are
      represented by the integer of their bit pattern.
    - The methods the migration does not use ([create_embeddings],
      [query_index], [upsert_supplier]) call three more services; their
      calls are kept in a journal next to the world. *)

From Stdlib Require Import ZArith List String Ascii Lia Bool FunInd.
From stdpp Require Import base option gmap strings list.

Open Scope string_scope.
Open Scope Z_scope.

(* ================================================================== *)
(** * Python values                                                     *)
(* ================================================================== *)

(** Classes of exceptions deriving from [Exception]: the built-in ones the
    program can meet, the classes of the vendor libraries, and classes
    derived from any of them. *)
Inductive exc_class :=
| AttributeError
| KeyError
| TypeError
| ZeroDivisionError
| EOFError
| LibraryError (name : string)
| Derived (name : string) (base : exc_class).

(** [isinstance(e, AttributeError)] for an exception [e] of class [cls]:
    what [except AttributeError] tests. *)
Fixpoint is_attribute_error (cls : exc_class) : bool :=
  match cls with
  | AttributeError => true
  | Derived _ base => is_attribute_error base
  | _ => false
  end.

(** Exceptions.  [SystemExit] derives from [BaseException] only. *)
Inductive exn :=
| SystemExit (code : Z)
| Exc (cls : exc_class) (msg : string).

(** Outcome of a computation.  [OutOfFuel] stands for a loop that was cut
    by the model before it stopped by itself. *)
Inductive result (A : Type) :=
| Ok (a : A)
| Raise (e : exn)
| OutOfFuel.
Arguments Ok {A} a.
Arguments Raise {A} e.
Arguments OutOfFuel {A}.

(** Answer of the SDK to a call: a value, or an instance of [Exception]. *)
Inductive sdk_result (A : Type) :=
| Returns (a : A)
| Throws (cls : exc_class) (msg : string).
Arguments Returns {A} a.
Arguments Throws {A} cls msg.

(** Values interpolated in printed messages. *)
Inductive pyval :=
| VStr (s : string)
| VInt (n : Z)
| VNone
| VList (l : list string)
| VExc (cls : exc_class) (msg : string).

Definition VOptStr (o : option string) : pyval :=
  match o with Some s => VStr s | None => VNone end.

(** Truth value of a string: [not s] holds for the empty string only. *)
Definition str_truthy (s : string) : bool :=
  match s with EmptyString => false | String _ _ => true end.

(** Truth value of a list or dict. *)
Definition list_truthy {A} (l : list A) : bool :=
  match l with [] => false | _ :: _ => true end.

(** [x in names] for a list of strings; [None] is never a member. *)
Definition py_in (x : option string) (names : list string) : bool :=
  match x with
  | Some s => bool_decide (s ∈ names)
  | None => false
  end.

(** ** Slices and division *)

(** Bound of a slice, as Python normalises it for a sequence of length
    [len]: a negative bound counts from the end, and the result is clamped
    to [0, len]. *)
Definition slice_bound (len i : Z) : Z :=
  if i <? 0 then Z.max 0 (i + len) else Z.min i len.

(** [l[start:stop]] *)
Definition py_slice {A} (l : list A) (start stop : Z) : list A :=
  let len := Z.of_nat (length l) in
  let lo := slice_bound len start in
  let hi := slice_bound len stop in
  take (Z.to_nat (hi - lo)) (drop (Z.to_nat lo) l).

(** [k / b] on two integers is the double nearest to the exact quotient
    (ties to the even mantissa), and [math.ceil] is applied to that double.

    [quotient_reaches k b l] is [2^l <= k / b], for positive [k] and [b]. *)
Definition quotient_reaches (k b l : Z) : bool :=
  if 0 <=? l then b * 2 ^ l <=? k else b <=? k * 2 ^ (- l).

(** The integer part of the binary logarithm of [k / b]. *)
Definition log2_quotient (k b : Z) : Z :=
  let s := Z.log2 k - Z.log2 b in
  if quotient_reaches k b s then s else s - 1.

(** The double nearest to [k / b], for positive [k] and [b]: the pair
    [(m, e)] stands for [m * 2^e], with a mantissa [m] of 53 bits, or
    fewer at the least exponent -1074 (subnormal doubles and zero). *)
Definition nearest_double (k b : Z) : Z * Z :=
  let e := Z.max (log2_quotient k b - 52) (-1074) in
  let num := if 0 <? e then k else k * 2 ^ (- e) in
  let den := if 0 <? e then b * 2 ^ e else b in
  let m := num / den in
  let r := num mod den in
  let up := (den <? 2 * r) || ((den =? 2 * r) && Z.odd m) in
  (if up then m + 1 else m, e).

(** [math.ceil] and [math.floor] of the double [m * 2^e]. *)
Definition ceil_double (x : Z * Z) : Z :=
  let '(m, e) := x in
  if 0 <=? e then m * 2 ^ e else - ((- m) / 2 ^ (- e)).

Definition floor_double (x : Z * Z) : Z :=
  let '(m, e) := x in
  if 0 <=? e then m * 2 ^ e else m / 2 ^ (- e).

(** [math.ceil(k / b)] for [b <> 0].  The division raises [OverflowError]
    for a quotient of 2^1024 or more; the program divides the length of a
    list, which is below 2^63, by a non-zero integer, so that this case is
    not part of the model. *)
Definition ceil_true_div (k b : Z) : Z :=
  if k =? 0 then 0
  else if Bool.eqb (0 <? k) (0 <? b)
       then ceil_double (nearest_double (Z.abs k) (Z.abs b))
       else - floor_double (nearest_double (Z.abs k) (Z.abs b)).

(** [range(n)] *)
Definition py_range (n : Z) : list Z :=
  map Z.of_nat (seq 0 (Z.to_nat n)).

(** ** Strings *)

(** A Python [str] is represented by its UTF-8 encoding, a [string] of
    bytes.  [str.strip()] removes the characters of [str.isspace]; they are
    recognised by their encodings, of one, two or three bytes:
    U+0009..U+000D, U+001C..U+0020; U+0085, U+00A0; U+1680,
    U+2000..U+200A, U+2028, U+2029, U+202F, U+205F and U+3000. *)
Definition is_space1 (c : ascii) : bool :=
  let n := nat_of_ascii c in
  ((9 <=? n) && (n <=? 13) || (28 <=? n) && (n <=? 32))%nat.

Definition is_space2 (c1 c2 : ascii) : bool :=
  let a := nat_of_ascii c1 in
  let b := nat_of_ascii c2 in
  ((a =? 194) && ((b =? 133) || (b =? 160)))%nat.

Definition is_space3 (c1 c2 c3 : ascii) : bool :=
  let a := nat_of_ascii c1 in
  let b := nat_of_ascii c2 in
  let c := nat_of_ascii c3 in
  ((a =? 225) && (b =? 154) && (c =? 128)
   || (a =? 226) && (b =? 128)
      && ((128 <=? c) && (c <=? 138) || (c =? 168) || (c =? 169)
          || (c =? 175))
   || (a =? 226) && (b =? 129) && (c =? 159)
   || (a =? 227) && (b =? 128) && (c =? 128))%nat.

(** The bytes of a character are met in their order from the front of a
    string, and in the reverse order from its end. *)
Definition space2 (backwards : bool) (c1 c2 : ascii) : bool :=
  if backwards then is_space2 c2 c1 else is_space2 c1 c2.

Definition space3 (backwards : bool) (c1 c2 c3 : ascii) : bool :=
  if backwards then is_space3 c3 c2 c1 else is_space3 c1 c2 c3.

(** Removes the white space at the front of [s]; with [backwards], [s] is
    a string read from its end. *)
Fixpoint lstrip (backwards : bool) (s : list ascii) : list ascii :=
  match s with
  | c1 :: s1 =>
      if is_space1 c1 then lstrip backwards s1
      else
        match s1 with
        | c2 :: s2 =>
            if space2 backwards c1 c2 then lstrip backwards s2
            else
              match s2 with
              | c3 :: s3 =>
                  if space3 backwards c1 c2 c3 then lstrip backwards s3
                  else s
              | [] => s
              end
        | [] => s
        end
  | [] => []
  end.

Functional Scheme lstrip_ind := Induction for lstrip Sort Prop.

(** [s.strip()] *)
Definition py_strip (s : string) : string :=
  string_of_list_ascii
    (rev (lstrip true (rev (lstrip false (list_ascii_of_string s))))).

(** [s.replace(c, '')] for a one-character [c]. *)
Definition py_remove (c : ascii) (s : string) : string :=
  string_of_list_ascii
    (filter (fun x => x ≠ c) (list_ascii_of_string s)).

Definition double_quote : ascii := "034"%char.
Definition single_quote : ascii := "039"%char.
Definition LF : string := String "010"%char EmptyString.

(* ================================================================== *)
(** * Data model                                                        *)
(* ================================================================== *)

(** A record as [upsert_data] receives it:
    [{"id": ..., "values": ..., "metadata": ...}]. *)
Record VectorRecord := {
  vr_id : string;
  vr_values : list Z;
  vr_metadata : list (string * string)
}.

(** One entry of the ["vectors"] mapping of a fetch response.  A key that
    is missing from the entry is [None]. *)
Record VecData := {
  vd_values : option (list Z);
  vd_metadata : option (list (string * string))
}.

(** The response of [fetch]; [fr_vectors] is [None] when the response has
    no ["vectors"] key. *)
Record FetchResponse := {
  fr_vectors : option (list (string * VecData))
}.

(** The description of an index, as [describe_index] and the entries of
    [list_indexes] give it. *)
Record IndexModel := {
  im_name : string;
  im_dimension : Z;
  im_metric : string;
  im_ready : bool
}.

(** The statistics of an index.  The per-namespace mapping is a dict, kept
    in insertion order; it is [None] when the attribute holds [None]. *)
Record IndexStats := {
  st_namespaces : option (list (string * Z));
  st_total_vector_count : Z
}.

(** The client object [Pinecone(api_key=...)]. *)
Record Pinecone := { pc_api_key : option string }.

(** The index object [pc.Index(name)]. *)
Record Index := {
  ix_client : Pinecone;
  ix_name : option string
}.

(** The client object [OpenAI(api_key=...)]. *)
Record OpenAI := { oa_api_key : string }.

(** What iterating [index.list(namespace=ns)] produces: the pages of ids it
    yields, then the exception that ends the iteration, if any. *)
Record IdPages := {
  ip_pages : list (list string);
  ip_error : option (exc_class * string)
}.

(** The attributes of a [PineconeManager] object. *)
Record PineconeManager := {
  api_key : option string;
  index_name : option string;
  openai_api_key : option string;
  pc : Pinecone;
  openai_client : option OpenAI;
  index : option Index
}.

Definition with_index (v : option Index) (m : PineconeManager)
  : PineconeManager :=
  {| api_key := api_key m; index_name := index_name m;
     openai_api_key := openai_api_key m; pc := pc m;
     openai_client := openai_client m; index := v |}.

#[global] Instance PineconeManager_inhabited : Inhabited PineconeManager :=
  populate {| api_key := None; index_name := None; openai_api_key := None;
              pc := {| pc_api_key := None |}; openai_client := None;
              index := None |}.

(** ** Events *)

(** Calls to the SDK. *)
Inductive call :=
| CPinecone (key : option string)
| COpenAI (key : string)
| CListIndexes (c : Pinecone)
| CDescribeIndex (c : Pinecone) (name : string)
| CCreateIndex (c : Pinecone) (name : option string) (dimension : Z)
               (metric cloud region : string)
| CDeleteIndex (c : Pinecone) (name : option string)
| CIndex (c : Pinecone) (name : option string)
| CList (ix : Index) (ns : string)
| CFetch (ix : Index) (ids : list string) (ns : string)
| CUpsert (ix : Index) (vectors : list VectorRecord) (ns : string)
| CDescribeIndexStats (ix : Index).

Inductive event :=
| EPrint (template : string) (args : list pyval)
| ETraceback (cls : exc_class) (msg : string)
| ESleep (secs : Z)
| EInput (prompt : string) (args : list pyval)
| ECall (c : call).

(** ** The SDK

    Each oracle receives the events that happened before the call. *)
Record SDK := {
  sdk_Pinecone : list event → option string → sdk_result unit;
  sdk_OpenAI : list event → string → sdk_result unit;
  sdk_list_indexes : list event → Pinecone → sdk_result (list IndexModel);
  sdk_describe_index :
    list event → Pinecone → string → sdk_result IndexModel;
  sdk_create_index :
    list event → Pinecone → option string → Z → string → sdk_result unit;
  sdk_delete_index : list event → Pinecone → option string → sdk_result unit;
  sdk_Index : list event → Pinecone → option string → sdk_result unit;
  (** [None]: index objects have no [list] attribute. *)
  sdk_index_list : option (list event → Index → string → IdPages);
  sdk_index_fetch :
    list event → Index → list string → string → sdk_result FetchResponse;
  sdk_index_upsert :
    list event → Index → list VectorRecord → string → sdk_result unit;
  sdk_index_describe_index_stats : list event → Index → sdk_result IndexStats
}.

(** ** The world *)

Record World := {
  environ : gmap string string;       (* os.environ *)
  stdin : list string;                (* the lines input() will read *)
  heap : list PineconeManager;        (* the manager objects *)
  total_migrated : Z;                 (* the local variable of migrate *)
  events : list event                 (* what happened so far *)
}.

Definition emit (e : event) (w : World) : World :=
  {| environ := environ w; stdin := stdin w; heap := heap w;
     total_migrated := total_migrated w; events := (events w ++ [e])%list |}.

Definition with_environ (f : gmap string string → gmap string string)
  (w : World) : World :=
  {| environ := f (environ w); stdin := stdin w; heap := heap w;
     total_migrated := total_migrated w; events := events w |}.

Definition with_stdin (l : list string) (w : World) : World :=
  {| environ := environ w; stdin := l; heap := heap w;
     total_migrated := total_migrated w; events := events w |}.

Definition with_heap (f : list PineconeManager → list PineconeManager)
  (w : World) : World :=
  {| environ := environ w; stdin := stdin w; heap := f (heap w);
     total_migrated := total_migrated w; events := events w |}.

Definition with_total (n : Z) (w : World) : World :=
  {| environ := environ w; stdin := stdin w; heap := heap w;
     total_migrated := n; events := events w |}.

(* ================================================================== *)
(** * The monad of Python computations                                  *)
(* ================================================================== *)

Definition M (A : Type) : Type := World → result A * World.

#[global] Instance M_ret : MRet M := λ A a w, (Ok a, w).

#[global] Instance M_bind : MBind M := λ A B f m w,
  match m w with
  | (Ok a, w') => f a w'
  | (Raise e, w') => (Raise e, w')
  | (OutOfFuel, w') => (OutOfFuel, w')
  end.

Definition raise {A} (e : exn) : M A := λ w, (Raise e, w).

Definition out_of_fuel {A} : M A := λ w, (OutOfFuel, w).

(** [sys.exit(code)] *)
Definition sys_exit {A} (code : Z) : M A := raise (SystemExit code).

(** [try: m  except Exception as e: handler e].  [SystemExit] is not an
    [Exception] and goes through. *)
Definition try_except {A} (m : M A) (handler : exc_class → string → M A)
  : M A := λ w,
  match m w with
  | (Raise (Exc cls msg), w') => handler cls msg w'
  | other => other
  end.

Definition print (template : string) (args : list pyval) : M unit :=
  λ w, (Ok tt, emit (EPrint template args) w).

Definition print_exc (cls : exc_class) (msg : string) : M unit :=
  λ w, (Ok tt, emit (ETraceback cls msg) w).

Definition sleep (secs : Z) : M unit :=
  λ w, (Ok tt, emit (ESleep secs) w).

(** [input(prompt)]: the next line of the standard input, [EOFError] at its
    end. *)
Definition input (prompt : string) (args : list pyval) : M string := λ w,
  let w' := emit (EInput prompt args) w in
  match stdin w with
  | line :: rest => (Ok line, with_stdin rest w')
  | [] => (Raise (Exc EOFError "EOF when reading a line"), w')
  end.

(** [os.getenv(name)] *)
Definition os_getenv (name : string) : M (option string) :=
  λ w, (Ok (environ w !! name), w).

(** [os.environ.get(name, default)] *)
Definition os_environ_get (name dflt : string) : M string :=
  λ w, (Ok (default dflt (environ w !! name)), w).

(** [os.environ[name] = value] *)
Definition os_environ_set (name value : string) : M unit :=
  λ w, (Ok tt, with_environ (insert name value) w).

(** A call to the SDK: the call is recorded, and the oracle answers from
    the events before it. *)
Definition remote {A} (c : call) (oracle : list event → sdk_result A)
  : M A := λ w,
  match oracle (events w) with
  | Returns a => (Ok a, emit (ECall c) w)
  | Throws cls msg => (Raise (Exc cls msg), emit (ECall c) w)
  end.

(** [for x in l: body x] *)
Fixpoint for_each {A} (l : list A) (body : A → M unit) : M unit :=
  match l with
  | [] => mret tt
  | x :: l' => body x ;; for_each l' body
  end.

(** How the body of a loop ends: [break], or going on with the next
    element. *)
Inductive loop_ctl := Next | Break.

Fixpoint for_each_break {A} (l : list A) (body : A → M loop_ctl) : M unit :=
  match l with
  | [] => mret tt
  | x :: l' =>
      ctl ← body x;
      match ctl with
      | Next => for_each_break l' body
      | Break => mret tt
      end
  end.

(** ** Manager objects in the heap *)

(** A new object; its reference is returned. *)
Definition new_object (m : PineconeManager) : M nat :=
  λ w, (Ok (length (heap w)), with_heap (λ h, (h ++ [m])%list) w).

(** The attributes of [self]. *)
Definition attrs (self : nat) : M PineconeManager :=
  λ w, (Ok (heap w !!! self), w).

(** [self.index = v] *)
Definition set_index (self : nat) (v : option Index) : M unit :=
  λ w, (Ok tt, with_heap (alter (with_index v) self) w).

(** ** The local variable [total_migrated] of [migrate] *)

Definition get_total : M Z := λ w, (Ok (total_migrated w), w).

Definition set_total (n : Z) : M unit := λ w, (Ok tt, with_total n w).

Definition len {A} (l : list A) : Z := Z.of_nat (length l).

(** ** Messages the statements below refer to *)

Definition msg_index_absent : string :=
  "Index '{self.index_name}' does not exist.".

Definition msg_index_deleted : string :=
  "Index '{self.index_name}' deleted successfully.".

Definition msg_attempting : string :=
  "Attempting to upsert {len(vectors)} vectors to index '{self.index_name}' in namespace '{namespace}' with batch size {batch_size}...".

Definition msg_upserted : string :=
  "Successfully upserted {len(vectors)} vectors to index '{self.index_name}'.".

Definition msg_upsert_error : string := "Error upserting data: {e}".

Definition msg_stats_error : string := "Error describing index stats: {e}".

Definition msg_source_not_found : string :=
  "Error: Source index '{source_index_name}' not found. Available: {available_indexes}".

Definition msg_source_details_error : string :=
  "Error getting source index details: {e}".

Definition msg_connect_destination : string :=
  LF +:+ "[2/4] Connecting to Destination Index: '{dest_index_name}'...".

Definition msg_destination_exists : string :=
  "      Destination index '{dest_index_name}' exists.".

Definition msg_dimension_mismatch : string :=
  "❌ Error: Dimension mismatch!".

Definition msg_mismatch_source : string := "   Source: {source_dim}".

Definition msg_mismatch_dest : string := "   Dest:   {dest_desc.dimension}".

Definition msg_waiting : string :=
  "      Waiting for index provisioning...".

Definition msg_preparing : string := LF +:+ "[3/4] Preparing Migration...".

Definition msg_start_copy : string := LF +:+ "[4/4] Starting Data Copy...".

Definition msg_no_list_support : string :=
  "      ❌ Error: Source index does not support listing IDs (requires Pinecone Serverless or valid Pod setup).".

Definition msg_processing_namespace : string :=
  "      Processing Namespace: '{ns_label}'".

Definition msg_namespace_error : string :=
  "      ❌ Error migrating namespace '{ns_label}': {e}".

Definition msg_complete : string := LF +:+ "✅ Migration Complete.".

Definition msg_total_migrated : string :=
  "   Total vectors migrated: {total_migrated}".

Definition msg_missing_env : string :=
  "Error: Missing Environment Variables.".

Definition msg_missing_env_hint : string :=
  "Please ensure 'PINECONE_SOURCE_API_KEY' and 'PINECONE_DEST_API_KEY' are set in your .env file.".

Definition msg_source_required : string :=
  "Error: Source index name is required.".

(* ================================================================== *)
(** * pinecone_manager.py                                               *)
(* ================================================================== *)

Section Program.

Context (sdk : SDK).

(** ** The calls of the SDK *)

Definition Pinecone_new (key : option string) : M Pinecone :=
  remote (CPinecone key) (λ t, sdk_Pinecone sdk t key);;
  mret {| pc_api_key := key |}.

Definition OpenAI_new (key : string) : M OpenAI :=
  remote (COpenAI key) (λ t, sdk_OpenAI sdk t key);;
  mret {| oa_api_key := key |}.

Definition pc_list_indexes (c : Pinecone) : M (list IndexModel) :=
  remote (CListIndexes c) (λ t, sdk_list_indexes sdk t c).

Definition pc_describe_index (c : Pinecone) (name : string) : M IndexModel :=
  remote (CDescribeIndex c name) (λ t, sdk_describe_index sdk t c name).

(** [pc.create_index(name=..., dimension=..., metric=...,
    spec=ServerlessSpec(cloud=..., region=...))] *)
Definition pc_create_index (c : Pinecone) (name : option string)
  (dimension : Z) (metric cloud region : string) : M unit :=
  remote (CCreateIndex c name dimension metric cloud region)
         (λ t, sdk_create_index sdk t c name dimension metric).

Definition pc_delete_index (c : Pinecone) (name : option string) : M unit :=
  remote (CDeleteIndex c name) (λ t, sdk_delete_index sdk t c name).

Definition pc_Index (c : Pinecone) (name : option string) : M Index :=
  remote (CIndex c name) (λ t, sdk_Index sdk t c name);;
  mret {| ix_client := c; ix_name := name |}.

(** The methods of an index object.  The receiver is the value of
    [self.index], which the type allows to be [None]; an attribute looked
    up on [None] raises [AttributeError]. *)

Definition none_has_no (attr : string) : string :=
  "'NoneType' object has no attribute '" +:+ attr +:+ "'".

Definition index_list (ix : option Index) (ns : string) : M IdPages :=
  match ix with
  | None => raise (Exc AttributeError (none_has_no "list"))
  | Some i =>
      match sdk_index_list sdk with
      | None =>
          raise (Exc AttributeError "'Index' object has no attribute 'list'")
      | Some oracle =>
          λ w, (Ok (oracle (events w) i ns), emit (ECall (CList i ns)) w)
      end
  end.

Definition index_fetch (ix : option Index) (ids : list string) (ns : string)
  : M FetchResponse :=
  match ix with
  | None => raise (Exc AttributeError (none_has_no "fetch"))
  | Some i => remote (CFetch i ids ns) (λ t, sdk_index_fetch sdk t i ids ns)
  end.

Definition index_upsert (ix : option Index) (vectors : list VectorRecord)
  (ns : string) : M unit :=
  match ix with
  | None => raise (Exc AttributeError (none_has_no "upsert"))
  | Some i =>
      remote (CUpsert i vectors ns) (λ t, sdk_index_upsert sdk t i vectors ns)
  end.

Definition index_describe_index_stats (ix : option Index) : M IndexStats :=
  match ix with
  | None => raise (Exc AttributeError (none_has_no "describe_index_stats"))
  | Some i =>
      remote (CDescribeIndexStats i)
             (λ t, sdk_index_describe_index_stats sdk t i)
  end.

(** ** class PineconeManager *)

(** [__init__]: the three variables are read from the environment, the
    clients are built, and no index is attached yet. *)
Definition PineconeManager_init : M nat :=
  key ← os_getenv "PINECONE_API_KEY";
  name ← os_getenv "PINECONE_INDEX_NAME";
  okey ← os_getenv "OPENAI_API_KEY";
  client ← Pinecone_new key;
  oclient ←
    match okey with
    | Some k =>
        if str_truthy k then
          try_except
            (c ← OpenAI_new k; mret (Some c))
            (λ cls msg,
               print "Warning: Failed to initialize OpenAI client: {e}"
                     [VExc cls msg];;
               mret None)
        else mret None
    | None => mret None
    end;
  new_object {| api_key := key; index_name := name; openai_api_key := okey;
                pc := client; openai_client := oclient; index := None |}.

(** [self.index = self.pc.Index(self.index_name)] *)
Definition attach_index (self : nat) : M unit :=
  me ← attrs self;
  ix ← pc_Index (pc me) (index_name me);
  set_index self (Some ix).

(** [list_indexes]: the names of the entries of [pc.list_indexes()]. *)
Definition list_indexes (self : nat) : M (list string) :=
  me ← attrs self;
  indexes ← pc_list_indexes (pc me);
  mret (map im_name indexes).

(** [x == entry] for a string (or [None]) [x] and an entry of
    [pc.list_indexes()].  The entries are index descriptions, which
    [list_indexes] reads with [idx['name']]; a string and such an object
    are never equal. *)
Definition str_eq_entry (x : option string) (entry : IndexModel) : bool :=
  false.

(** [x in pc.list_indexes()]: membership among the entries themselves. *)
Definition py_in_entries (x : option string) (entries : list IndexModel)
  : bool :=
  existsb (str_eq_entry x) entries.

(** [delete_index] *)
Definition delete_index (self : nat) : M unit :=
  me ← attrs self;
  entries ← pc_list_indexes (pc me);
  if py_in_entries (index_name me) entries then
    pc_delete_index (pc me) (index_name me);;
    print msg_index_deleted [VOptStr (index_name me)];;
    set_index self None
  else
    print msg_index_absent [VOptStr (index_name me)].

(** [create_index] *)
Definition create_index (self : nat) (dimension : Z) (metric : string)
  (replace_existing : bool) : M unit :=
  existing_indexes ← list_indexes self;
  me ← attrs self;
  returned ←
    (if py_in (index_name me) existing_indexes then
       if replace_existing then
         print "Index '{self.index_name}' already exists. Deleting and recreating."
               [VOptStr (index_name me)];;
         delete_index self;;
         mret false
       else
         print "Index '{self.index_name}' already exists. Skipping creation."
               [VOptStr (index_name me)];;
         attach_index self;;
         mret true
     else mret false);
  if (returned : bool) then mret tt
  else
    print "Creating index '{self.index_name}' with dimension {dimension} and metric '{metric}'."
          [VOptStr (index_name me); VInt dimension; VStr metric];;
    pc_create_index (pc me) (index_name me) dimension metric
                    "aws" "us-east-1";;
    attach_index self;;
    print "Index '{self.index_name}' created successfully."
          [VOptStr (index_name me)].

(** [get_or_create_index] *)
Definition get_or_create_index (self : nat) : M (option Index) :=
  me ← attrs self;
  match index me with
  | None =>
      existing_indexes ← list_indexes self;
      if py_in (index_name me) existing_indexes then
        print "Index '{self.index_name}' found. Connecting to existing index."
              [VOptStr (index_name me)];;
        attach_index self
      else
        print "Index '{self.index_name}' does not exist. Calling create_index."
              [VOptStr (index_name me)];;
        create_index self 1536 "cosine" false;;
        attach_index self;;
        print "Index '{self.index_name}' is now set after creation."
              [VOptStr (index_name me)]
  | Some _ => mret tt
  end;;
  me' ← attrs self;
  mret (index me').

(** [math.ceil(k / b)]; the division raises for [b = 0]. *)
Definition math_ceil_div (k b : Z) : M Z :=
  if b =? 0 then raise (Exc ZeroDivisionError "division by zero")
  else mret (ceil_true_div k b).

(** The batch of rank [i]: [vectors[i*batch_size : min((i+1)*batch_size,
    len(vectors))]]. *)
Definition batch_of (vectors : list VectorRecord) (batch_size i : Z)
  : list VectorRecord :=
  let start_idx := i * batch_size in
  let end_idx := Z.min ((i + 1) * batch_size) (len vectors) in
  py_slice vectors start_idx end_idx.

(** [upsert_data].  The progress bar of [tqdm] only observes the loop. *)
Definition upsert_data (self : nat) (vectors : list VectorRecord)
  (namespace : string) (batch_size : Z) : M unit :=
  if negb (list_truthy vectors) then
    print "No vectors to upsert." []
  else
    me ← attrs self;
    print msg_attempting
          [VInt (len vectors); VOptStr (index_name me); VStr namespace;
           VInt batch_size];;
    try_except
      (ix ← get_or_create_index self;
       num_batches ← math_ceil_div (len vectors) batch_size;
       for_each (py_range num_batches)
         (λ i, index_upsert ix (batch_of vectors batch_size i) namespace);;
       print msg_upserted [VInt (len vectors); VOptStr (index_name me)])
      (λ cls msg, print msg_upsert_error [VExc cls msg]).

(** [describe_index_stats]: [None] when anything raised. *)
Definition describe_index_stats (self : nat) : M (option IndexStats) :=
  try_except
    (ix ← get_or_create_index self;
     stats ← index_describe_index_stats ix;
     mret (Some stats))
    (λ cls msg,
       print msg_stats_error [VExc cls msg];;
       mret None).

(* ================================================================== *)
(** * pinecone_index_migration/pinecone_migration.py                    *)
(* ================================================================== *)

(** ** migrate, step 1: connect to the source *)

Definition connect_source (source_key source_index_name : string)
  : M (nat * Z * string * option Index) :=
  print (LF +:+ "[1/4] Connecting to Source Index: '{source_index_name}'...")
        [VStr source_index_name];;
  os_environ_set "PINECONE_API_KEY" source_key;;
  os_environ_set "PINECONE_INDEX_NAME" source_index_name;;
  source_mgr ← PineconeManager_init;
  available_indexes ← list_indexes source_mgr;
  (if negb (bool_decide (source_index_name ∈ available_indexes)) then
     print msg_source_not_found
           [VStr source_index_name; VList available_indexes];;
     sys_exit 1
   else mret tt);;
  '(source_dim, source_metric) ←
    try_except
      (me ← attrs source_mgr;
       source_desc ← pc_describe_index (pc me) source_index_name;
       let source_dim := im_dimension source_desc in
       let source_metric := im_metric source_desc in
       print "      Source Config -> Dimension: {source_dim}, Metric: {source_metric}"
             [VInt source_dim; VStr source_metric];;
       mret (source_dim, source_metric))
      (λ cls msg,
         print msg_source_details_error [VExc cls msg];;
         sys_exit 1);
  source_index_obj ← get_or_create_index source_mgr;
  mret (source_mgr, source_dim, source_metric, source_index_obj).

(** ** migrate, step 2: connect to the destination *)

(** [while not dest_mgr.pc.describe_index(dest_index_name).status['ready']]:
    the loop has no bound in the source; [fuel] bounds the iterations the
    model follows. *)
Fixpoint wait_until_ready (fuel : nat) (dest_mgr : nat)
  (dest_index_name : string) : M unit :=
  match fuel with
  | O => out_of_fuel
  | S fuel' =>
      me ← attrs dest_mgr;
      desc ← pc_describe_index (pc me) dest_index_name;
      if negb (im_ready desc) then
        print msg_waiting [];;
        sleep 2;;
        wait_until_ready fuel' dest_mgr dest_index_name
      else mret tt
  end.

Definition connect_destination (fuel : nat) (source_dim : Z)
  (source_metric dest_key dest_index_name : string) : M nat :=
  print msg_connect_destination [VStr dest_index_name];;
  os_environ_set "PINECONE_API_KEY" dest_key;;
  os_environ_set "PINECONE_INDEX_NAME" dest_index_name;;
  dest_mgr ← PineconeManager_init;
  dest_indexes ← list_indexes dest_mgr;
  (if bool_decide (dest_index_name ∈ dest_indexes) then
     print msg_destination_exists [VStr dest_index_name];;
     try_except
       (me ← attrs dest_mgr;
        dest_desc ← pc_describe_index (pc me) dest_index_name;
        (if negb (im_dimension dest_desc =? source_dim) then
           print msg_dimension_mismatch [];;
           print msg_mismatch_source [VInt source_dim];;
           print msg_mismatch_dest [VInt (im_dimension dest_desc)];;
           sys_exit 1
         else mret tt);;
        print "      Dimensions match." [])
       (λ cls msg,
          print "Warning: Could not verify destination dimensions: {e}"
                [VExc cls msg])
   else
     print "      Destination index '{dest_index_name}' does not exist."
           [VStr dest_index_name];;
     print "      Creating index using PineconeManager defaults (Serverless AWS us-east-1)..."
           [];;
     create_index dest_mgr source_dim source_metric false;;
     wait_until_ready fuel dest_mgr dest_index_name;;
     print "      Index is ready." []);;
  mret dest_mgr.

(** ** migrate, step 3: the namespaces to copy *)

(** [list(source_stats.namespaces.keys()) if source_stats and
    source_stats.namespaces else []] *)
Definition stats_namespaces (source_stats : option IndexStats)
  : list string :=
  match source_stats with
  | Some stats =>
      match st_namespaces stats with
      | Some mapping => if list_truthy mapping then map fst mapping else []
      | None => []
      end
  | None => []
  end.

(** [if source_stats.total_vector_count > 0 and not namespaces:
       namespaces = ['']] *)
Definition default_namespace (total_vector_count : Z)
  (namespaces : list string) : list string :=
  if (0 <? total_vector_count) && negb (list_truthy namespaces)
  then [""] else namespaces.

(** [source_stats.total_vector_count] *)
Definition get_total_vector_count (source_stats : option IndexStats) : M Z :=
  match source_stats with
  | Some stats => mret (st_total_vector_count stats)
  | None =>
      raise (Exc AttributeError (none_has_no "total_vector_count"))
  end.

Definition prepare_migration (source_mgr : nat) : M (list string) :=
  print msg_preparing [];;
  source_stats ← describe_index_stats source_mgr;
  let namespaces := stats_namespaces source_stats in
  count ← get_total_vector_count source_stats;
  let namespaces := default_namespace count namespaces in
  print "      Found namespaces: {namespaces}" [VList namespaces];;
  count' ← get_total_vector_count source_stats;
  print "      Total vectors to migrate: {source_stats.total_vector_count}"
        [VInt count'];;
  mret namespaces.

(** ** migrate, step 4: the copy *)

(** The records of a fetched page, in the order of the mapping:
    [vec_data['values']] raises [KeyError] when the key is missing, and
    [vec_data.get('metadata', {})] defaults to the empty mapping. *)
Fixpoint build_batch (items : list (string * VecData))
  : M (list VectorRecord) :=
  match items with
  | [] => mret []
  | (vec_id, vec_data) :: rest =>
      values ←
        match vd_values vec_data with
        | Some v => mret v
        | None => raise (Exc KeyError "'values'")
        end;
      batch ← build_batch rest;
      mret ({| vr_id := vec_id; vr_values := values;
               vr_metadata := default [] (vd_metadata vec_data) |} :: batch)
  end.

(** The body of [for id_page in source_index_obj.list(namespace=ns)]. *)
Definition copy_page (source_index_obj : option Index) (dest_mgr : nat)
  (ns : string) (id_page : list string) : M unit :=
  if negb (list_truthy id_page) then mret tt
  else
    fetch_resp ← index_fetch source_index_obj id_page ns;
    let vectors_map := default [] (fr_vectors fetch_resp) in
    batch_data ← build_batch vectors_map;
    if list_truthy batch_data then
      upsert_data dest_mgr batch_data ns (len batch_data);;
      let count := len batch_data in
      total ← get_total;
      set_total (total + count)
    else mret tt.

(** The [try] block of one namespace: the pages are copied as the
    iteration yields them, then the exception that ends the iteration,
    if any, is raised. *)
Definition copy_namespace_pages (source_index_obj : option Index)
  (dest_mgr : nat) (ns : string) : M unit :=
  id_pages ← index_list source_index_obj ns;
  for_each (ip_pages id_pages) (copy_page source_index_obj dest_mgr ns);;
  match ip_error id_pages with
  | Some (cls, msg) => raise (Exc cls msg)
  | None => mret tt
  end.

Definition ns_label_of (ns : string) : string :=
  if str_truthy ns then ns else "(default)".

(** The body of [for ns in namespaces]. *)
Definition copy_namespace (source_index_obj : option Index) (dest_mgr : nat)
  (ns : string) : M loop_ctl :=
  let ns_label := ns_label_of ns in
  print msg_processing_namespace [VStr ns_label];;
  try_except
    (copy_namespace_pages source_index_obj dest_mgr ns;;
     mret Next)
    (λ cls msg,
       if is_attribute_error cls then
         print msg_no_list_support [];;
         mret Break
       else
         print msg_namespace_error [VStr ns_label; VExc cls msg];;
         print_exc cls msg;;
         mret Next).

Definition copy_data (source_index_obj : option Index) (dest_mgr : nat)
  (namespaces : list string) : M unit :=
  print msg_start_copy [];;
  set_total 0;;
  for_each_break namespaces (copy_namespace source_index_obj dest_mgr);;
  print msg_complete [];;
  total ← get_total;
  print msg_total_migrated [VInt total].

(** ** migrate *)

Definition migrate (fuel : nat)
  (source_key source_index_name dest_key dest_index_name : string)
  : M unit :=
  '(source_mgr, source_dim, source_metric, source_index_obj) ←
    connect_source source_key source_index_name;
  dest_mgr ←
    connect_destination fuel source_dim source_metric dest_key
                        dest_index_name;
  namespaces ← prepare_migration source_mgr;
  copy_data source_index_obj dest_mgr namespaces.

(** ** main *)

Definition clean_key (s : string) : string :=
  py_strip (py_remove single_quote (py_remove double_quote s)).

(** [argv] is [sys.argv]. *)
Definition main (fuel : nat) (argv : list string) : M unit :=
  source_raw ← os_environ_get "PINECONE_SOURCE_API_KEY" "";
  let source_key := clean_key source_raw in
  dest_raw ← os_environ_get "PINECONE_DEST_API_KEY" "";
  let dest_key := clean_key dest_raw in
  (if negb (str_truthy source_key) || negb (str_truthy dest_key) then
     print msg_missing_env [];;
     print msg_missing_env_hint [];;
     sys_exit 1
   else mret tt);;
  '(source_idx, dest_idx) ←
    (if len argv <? 2 then
       print "No command line arguments provided. Entering interactive mode..."
             [];;
       source_line ← input "Enter source index name: " [];
       let source_idx := py_strip source_line in
       (if negb (str_truthy source_idx) then
          print msg_source_required [];;
          sys_exit 1
        else mret tt);;
       dest_line ←
         input "Enter destination index name (Press Enter to use '{source_idx}'): "
               [VStr source_idx];
       let dest_idx := py_strip dest_line in
       mret (source_idx,
             if negb (str_truthy dest_idx) then source_idx else dest_idx)
     else
       let source_idx := argv !!! 1%nat in
       let dest_idx :=
         if 2 <? len argv then argv !!! 2%nat else source_idx in
       mret (source_idx, dest_idx));
  migrate fuel source_key source_idx dest_key dest_idx.

End Program.

(* ================================================================== *)
(** * pinecone_manager.py: embeddings, queries and suppliers            *)
(* ================================================================== *)

(** The three methods below call services the migration does not use:
    the embeddings of OpenAI, the query of an index and [uuid.uuid4].
    These calls are kept in a journal next to the world; an entry holds
    the number of events of the world at the time of the call, which
    places it among them. *)

(** A JSON-like Python object: the query filter and the query response,
    which the program passes on as they are. *)
Unset Elimination Schemes.
Inductive pyobj :=
| ONone
| OBool (b : bool)
| ONum (n : Z)
| OStr (s : string)
| OList (l : list pyobj)
| ODict (d : list (string * pyobj)).
Set Elimination Schemes.

(** One element of [response.data], and the response of
    [embeddings.create]. *)
Record Embedding := { embedding : list Z }.

Record EmbeddingsResponse := { data : list Embedding }.

Inductive service_call :=
| CEmbeddingsCreate (client : OpenAI) (input : list string) (model : string)
| CQuery (ix : Index) (vector : list Z) (top_k : Z)
         (include_values include_metadata : bool) (namespace : string)
         (filter : option pyobj)
| CUuid4.

Definition Journal : Type := list (nat * service_call).

(** Each oracle receives the events and the journal before the call. *)
Record Services := {
  sdk_embeddings_create :
    list event → Journal → OpenAI → list string → string →
    sdk_result EmbeddingsResponse;
  sdk_index_query :
    list event → Journal → Index → list Z → Z → bool → bool →
    string → option pyobj → sdk_result pyobj;
  (** [uuid.uuid4().hex] *)
  sdk_uuid4_hex : list event → Journal → string
}.

Record Session := {
  world : World;
  journal : Journal
}.

(** Computations over a session. *)
Definition F (A : Type) : Type := Session → result A * Session.

#[global] Instance F_ret : MRet F := λ A a s, (Ok a, s).

#[global] Instance F_bind : MBind F := λ A B f m s,
  match m s with
  | (Ok a, s') => f a s'
  | (Raise e, s') => (Raise e, s')
  | (OutOfFuel, s') => (OutOfFuel, s')
  end.

(** A computation over the world, run in a session. *)
Definition lift {A} (m : M A) : F A := λ s,
  ((m (world s)).1, {| world := (m (world s)).2; journal := journal s |}).

(** [try: m  except Exception as e: handler e] in a session. *)
Definition try_except_F {A} (m : F A) (handler : exc_class → string → F A)
  : F A := λ s,
  match m s with
  | (Raise (Exc cls msg), s') => handler cls msg s'
  | other => other
  end.

(** A call to one of the three services: it is entered in the journal,
    and the oracle answers from what happened before it. *)
Definition record_call (c : service_call) (s : Session) : Session :=
  {| world := world s;
     journal := (journal s ++ [(length (events (world s)), c)])%list |}.

Definition service {A} (c : service_call)
  (oracle : list event → Journal → sdk_result A) : F A := λ s,
  match oracle (events (world s)) (journal s) with
  | Returns a => (Ok a, record_call c s)
  | Throws cls msg => (Raise (Exc cls msg), record_call c s)
  end.

Definition msg_no_texts : string :=
  "No texts provided for embedding. Returning empty list.".

Definition msg_embeddings_error : string := "Error creating embeddings: {e}".

Definition msg_query_error : string := "Error querying index: {e}".

Definition msg_embedding_failed : string :=
  "❌ Failed to create embedding for supplier".

Definition msg_supplier_upserted : string :=
  "✅ Supplier '{supplier.get('name')}' upserted into namespace '{namespace}' as {vector_id}".

(** ** The text and the metadata of a supplier *)

(** A supplier is a dict of strings. *)
Abbreviation Supplier := (gmap string string).

(** [supplier.get(key, '')] *)
Definition get_or_empty (supplier : Supplier) (key : string) : string :=
  default "" (supplier !! key).

(** [if supplier.get(key): text += f"<label>: {supplier[key]} \n "] *)
Definition optional_line (supplier : Supplier) (label key : string)
  : string :=
  match supplier !! key with
  | Some v =>
      if str_truthy v then label +:+ ": " +:+ v +:+ " " +:+ LF +:+ " "
      else ""
  | None => ""
  end.

Definition supplier_text (supplier : Supplier) : string :=
  "Company Name: " +:+ get_or_empty supplier "name" +:+ " " +:+ LF +:+ " "
  +:+ optional_line supplier "Country" "country"
  +:+ optional_line supplier "Address" "address"
  +:+ optional_line supplier "Phone" "phone"
  +:+ optional_line supplier "Email" "email"
  +:+ optional_line supplier "Listing_url" "listing_url"
  +:+ optional_line supplier "Description" "description".

Definition supplier_metadata (supplier : Supplier) (text : string)
  : list (string * string) :=
  [("name", get_or_empty supplier "name");
   ("country", get_or_empty supplier "country");
   ("address", get_or_empty supplier "address");
   ("phone", get_or_empty supplier "phone");
   ("email", get_or_empty supplier "email");
   ("listing_url", get_or_empty supplier "listing_url");
   ("text", text)].

Section Facade.

Context (sdk : SDK) (services : Services).

(** [self.openai_client.embeddings.create(input=..., model=...)] *)
Definition embeddings_create (client : option OpenAI) (input : list string)
  (model : string) : F EmbeddingsResponse :=
  match client with
  | None => lift (raise (Exc AttributeError (none_has_no "embeddings")))
  | Some c =>
      service (CEmbeddingsCreate c input model)
              (λ t j, sdk_embeddings_create services t j c input model)
  end.

(** [self.index.query(vector=..., top_k=..., ...)] *)
Definition index_query (ix : option Index) (vector : list Z) (top_k : Z)
  (include_values include_metadata : bool) (namespace : string)
  (filter : option pyobj) : F pyobj :=
  match ix with
  | None => lift (raise (Exc AttributeError (none_has_no "query")))
  | Some i =>
      service (CQuery i vector top_k include_values include_metadata
                      namespace filter)
              (λ t j, sdk_index_query services t j i vector top_k
                        include_values include_metadata namespace filter)
  end.

Definition uuid4_hex : F string := λ s,
  (Ok (sdk_uuid4_hex services (events (world s)) (journal s)),
   record_call CUuid4 s).

(** [create_embeddings] *)
Definition create_embeddings (self : nat) (texts : list string)
  (model : string) : F (list (list Z)) :=
  if negb (list_truthy texts) then
    lift (print msg_no_texts []);;
    mret []
  else
    try_except_F
      (me ← lift (attrs self);
       response ← embeddings_create (openai_client me) texts model;
       mret (map embedding (data response)))
      (λ cls msg,
         lift (print msg_embeddings_error [VExc cls msg]);;
         mret []).

(** [query_index]: [None] when anything raised. *)
Definition query_index (self : nat) (query_embedding : list Z)
  (namespace : string) (top_k : Z) (include_values include_metadata : bool)
  (filter : option pyobj) : F (option pyobj) :=
  try_except_F
    (me ← lift (attrs self);
     match index me with
     | None =>
         ix ← lift (get_or_create_index sdk self);
         lift (set_index self ix)
     | Some _ => mret tt
     end;;
     me' ← lift (attrs self);
     response ← index_query (index me') query_embedding top_k include_values
                            include_metadata namespace filter;
     mret (Some response))
    (λ cls msg,
       lift (print msg_query_error [VExc cls msg]);;
       mret None).

(** [upsert_supplier] *)
Definition upsert_supplier (self : nat) (supplier : Supplier)
  (namespace : string) : F string :=
  let text := supplier_text supplier in
  let metadata := supplier_metadata supplier text in
  vector_id ← uuid4_hex;
  lift (print "{vector_id}" [VStr vector_id]);;
  embeddings ← create_embeddings self [text] "text-embedding-ada-002";
  match embeddings with
  | [] =>
      lift (print msg_embedding_failed []);;
      mret ""
  | values :: _ =>
      let vector := {| vr_id := vector_id; vr_values := values;
                       vr_metadata := metadata |} in
      lift (upsert_data sdk self [vector] namespace 100);;
      lift (print msg_supplier_upserted
                  [VOptStr (supplier !! "name"); VStr namespace;
                   VStr vector_id]);;
      mret vector_id
  end.

End Facade.

(* ================================================================== *)
(** * Vocabulary of the statements                                      *)
(* ================================================================== *)

(** The ceiling of the quotient [k / b] in exact arithmetic: what the
    specification writes [ceil(K / B)]. *)
Definition ceil_div (k b : Z) : Z := - ((- k) / b).

(** The events of [w'] that happened after [w]. *)
Definition events_since (w w' : World) : list event :=
  drop (length (events w)) (events w').

(** The batches of the upsert calls of a trace, in order. *)
Definition upsert_calls (t : list event) : list (list VectorRecord) :=
  omap (λ e, match e with
             | ECall (CUpsert _ vectors _) => Some vectors
             | _ => None
             end) t.

(** The labels of the namespaces a trace started to process. *)
Definition attempted_namespaces (t : list event) : list string :=
  omap (λ e, match e with
             | EPrint template [VStr ns_label] =>
                 if bool_decide (template = msg_processing_namespace)
                 then Some ns_label else None
             | _ => None
             end) t.

(** Events of the copy: the id listing, the fetches, the upserts and the
    banner of step 4. *)
Definition copy_event (e : event) : bool :=
  match e with
  | ECall (CList _ _) | ECall (CFetch _ _ _) | ECall (CUpsert _ _ _) => true
  | EPrint template _ => bool_decide (template = msg_start_copy)
  | _ => false
  end.

(** [t'] extends [t] by events that satisfy [P]. *)
Definition extends_by (P : event → Prop) (t t' : list event) : Prop :=
  ∃ new, t' = (t ++ new)%list ∧ Forall P new.

(** The world after the events [es], in order. *)
Definition emit_all (es : list event) (w : World) : World :=
  foldl (λ w e, emit e w) w es.

(** The number of records a trace handed to [upsert_data] with a request
    to upsert them: the sum of the counts its "Attempting to upsert"
    messages announce. *)
Definition attempted_records (t : list event) : Z :=
  foldr (λ e acc,
           match e with
           | EPrint template args =>
               if bool_decide (template = msg_attempting) then
                 match args with
                 | VInt n :: _ => n + acc
                 | _ => acc
                 end
               else acc
           | _ => acc
           end) 0 t.

(** An event that announces no attempt. *)
Definition quiet_event (e : event) : Prop := attempted_records [e] = 0.

(** [w'] follows [w] by events whose announced attempts add up to the
    growth of [total_migrated]. *)
Definition counted (w w' : World) : Prop :=
  ∃ new, events w' = (events w ++ new)%list ∧
         total_migrated w' = total_migrated w + attempted_records new.

(** A call to the service is made on the account of [key] and, when it
    names an index, on the index [name]. *)
Definition targets (key name : option string) (e : event) : Prop :=
  let client := {| pc_api_key := key |} in
  let target := {| ix_client := client; ix_name := name |} in
  match e with
  | ECall (CPinecone k) => k = key
  | ECall (CListIndexes c) => c = client
  | ECall (CDescribeIndex c n) => c = client ∧ Some n = name
  | ECall (CCreateIndex c n _ _ _ _) | ECall (CDeleteIndex c n)
  | ECall (CIndex c n) => c = client ∧ n = name
  | ECall (CList ix _) | ECall (CFetch ix _ _) | ECall (CUpsert ix _ _)
  | ECall (CDescribeIndexStats ix) => ix = target
  | _ => True
  end.

(** The ids and the records are read from the index [target]. *)
Definition reads_from (target : Index) (e : event) : Prop :=
  match e with
  | ECall (CList ix _) | ECall (CFetch ix _ _) => ix = target
  | _ => True
  end.

(** The world in which step 2 builds the manager of the destination:
    the banner is printed and the two variables are set. *)
Definition destination_environment (dest_key dest_index_name : string)
  (w : World) : World :=
  with_environ (insert "PINECONE_INDEX_NAME" dest_index_name)
    (with_environ (insert "PINECONE_API_KEY" dest_key)
       (emit (EPrint msg_connect_destination [VStr dest_index_name]) w)).

(** The index object a manager builds from its own client and name. *)
Definition index_for (m : PineconeManager) : Index :=
  {| ix_client := pc m; ix_name := index_name m |}.

(** A program logic in one record: a relation [Rw] between the world
    before and after a computation, a condition [Pev] on the events it may
    emit, a condition [Pexit] on the world in which it may call
    [sys.exit], whether it may run out of fuel, and whether it may assign
    [total_migrated] or a variable of the environment. *)
Record Logic := {
  Rw : World → World → Prop;
  Pev : event → Prop;
  Pexit : Z → World → Prop;
  fuel_ok : Prop;
  total_ok : Prop;
  env_ok : Prop;
  Rw_refl : ∀ w, Rw w w;
  Rw_trans : ∀ w1 w2 w3, Rw w1 w2 → Rw w2 w3 → Rw w1 w3;
  Rw_emit : ∀ e w, Pev e → Rw w (emit e w);
  Rw_environ : env_ok → ∀ f w, Rw w (with_environ f w);
  Rw_stdin : ∀ l w, Rw w (with_stdin l w);
  Rw_alloc : ∀ m w, Rw w (with_heap (λ h, (h ++ [m])%list) w);
  Rw_clear_index :
    ∀ self w, Rw w (with_heap (alter (with_index None) self) w);
  Rw_attach_index :
    ∀ self w, Rw w (with_heap (alter (λ m, with_index (Some (index_for m)) m)
                                     self) w);
  Rw_total : total_ok → ∀ n w, Rw w (with_total n w)
}.

(** [spec L m]: every run of [m] respects [L]. *)
Definition spec (L : Logic) {A} (m : M A) : Prop :=
  ∀ w, Rw L w (m w).2 ∧
       match (m w).1 with
       | Ok _ => True
       | Raise (Exc _ _) => True
       | Raise (SystemExit c) => Pexit L c (m w).2
       | OutOfFuel => fuel_ok L
       end.

(** The messages that precede a call to [sys.exit]. *)
Definition fatal_messages : list string :=
  [msg_missing_env_hint; msg_source_required; msg_source_not_found;
   msg_source_details_error; msg_mismatch_dest].

(** The last event of the trace is one of the fatal messages. *)
Definition ends_with_fatal (t : list event) : Prop :=
  ∃ template args,
    last t = Some (EPrint template args) ∧ template ∈ fatal_messages.

(** [t'] extends [t] by events that are not events of the copy. *)
Definition extends_without_copy (t t' : list event) : Prop :=
  extends_by (λ e, copy_event e = false) t t'.

(** The manager at [r] is bound to the account of [key] and to the index
    [name]: its fields say so, and the index object it caches, if any, is
    the one of this client and name. *)
Definition bound_to (r : nat) (key name : option string) (w : World)
  : Prop :=
  ∃ m, heap w !! r = Some m ∧
       api_key m = key ∧ index_name m = name ∧
       pc m = {| pc_api_key := key |} ∧
       (index m = None ∨ index m = Some (index_for m)).

(** How a run may end, seen from the world it started in: unless it
    returns, no event of the copy took place; and an exit has status 1
    and follows a fatal message. *)
Definition ends_well (w : World) (r : result unit) (w' : World) : Prop :=
  (r ≠ Ok tt → extends_without_copy (events w) (events w')) ∧
  (∀ c, r = Raise (SystemExit c) → c = 1 ∧ ends_with_fatal (events w')).

(** What [main] makes of a variable of the environment that holds a
    key. *)
Definition key_of (w : World) (name : string) : string :=
  clean_key (default "" (environ w !! name)).

Definition msg_interactive : string :=
  "No command line arguments provided. Entering interactive mode...".

Definition prompt_source : string := "Enter source index name: ".

Definition prompt_destination : string :=
  "Enter destination index name (Press Enter to use '{source_idx}'): ".

Definition msg_source_config : string :=
  "      Source Config -> Dimension: {source_dim}, Metric: {source_metric}".

(** The exit status of the process, from the way [main] ends: 0 when it
    returns, the argument of [sys.exit], and 1 when an exception that
    nothing caught ends the interpreter. *)
Definition exit_code (r : result unit) : option Z :=
  match r with
  | Ok _ => Some 0
  | Raise (SystemExit c) => Some c
  | Raise (Exc _ _) => Some 1
  | OutOfFuel => None
  end.

(** The names of the two indexes as [main] reads them: on the command
    line or, without arguments, on the standard input. *)
Definition source_name (argv : list string) (w : World) : option string :=
  if len argv <? 2 then py_strip <$> head (stdin w)
  else Some (argv !!! 1%nat).

Definition dest_name (argv : list string) (w : World) : option string :=
  if len argv <? 2 then
    match stdin w with
    | source_line :: dest_line :: _ =>
        let source_idx := py_strip source_line in
        let dest_idx := py_strip dest_line in
        Some (if negb (str_truthy dest_idx) then source_idx else dest_idx)
    | _ => None
    end
  else Some (if 2 <? len argv then argv !!! 2%nat else argv !!! 1%nat).

(** The five conditions under which the program calls [sys.exit], each
    with what the run shows of it: [w] is the world in which [main]
    starts, [w'] the one in which it ends; [trace] is what happened
    before the call whose answer decides, made on the account of the
    cleaned key. *)
Inductive fatal_condition (sdk : SDK) (argv : list string) (w w' : World)
  : Prop :=
| fatal_credentials :
    key_of w "PINECONE_SOURCE_API_KEY" = ""
    ∨ key_of w "PINECONE_DEST_API_KEY" = "" →
    events w' =
      (events w ++ [EPrint msg_missing_env [];
                    EPrint msg_missing_env_hint []])%list →
    fatal_condition sdk argv w w'
| fatal_source_name :
    len argv < 2 →
    source_name argv w = Some "" →
    events w' =
      (events w ++ [EPrint msg_interactive []; EInput prompt_source [];
                    EPrint msg_source_required []])%list →
    fatal_condition sdk argv w w'
| fatal_not_found trace entries name :
    let client :=
      {| pc_api_key := Some (key_of w "PINECONE_SOURCE_API_KEY") |} in
    source_name argv w = Some name →
    sdk_list_indexes sdk trace client = Returns entries →
    name ∉ map im_name entries →
    events w' =
      (trace ++ [ECall (CListIndexes client);
                 EPrint msg_source_not_found
                   [VStr name; VList (map im_name entries)]])%list →
    fatal_condition sdk argv w w'
| fatal_unreadable trace name cls msg :
    let client :=
      {| pc_api_key := Some (key_of w "PINECONE_SOURCE_API_KEY") |} in
    source_name argv w = Some name →
    sdk_describe_index sdk trace client name = Throws cls msg →
    events w' =
      (trace ++ [ECall (CDescribeIndex client name);
                 EPrint msg_source_details_error [VExc cls msg]])%list →
    fatal_condition sdk argv w w'
| fatal_mismatch trace name dest_desc source_dim source_metric :
    let client :=
      {| pc_api_key := Some (key_of w "PINECONE_DEST_API_KEY") |} in
    dest_name argv w = Some name →
    EPrint msg_source_config [VInt source_dim; VStr source_metric] ∈ trace →
    sdk_describe_index sdk trace client name = Returns dest_desc →
    im_dimension dest_desc ≠ source_dim →
    events w' =
      (trace ++ [ECall (CDescribeIndex client name);
                 EPrint msg_dimension_mismatch [];
                 EPrint msg_mismatch_source [VInt source_dim];
                 EPrint msg_mismatch_dest [VInt (im_dimension dest_desc)]])%list →
    fatal_condition sdk argv w w'.

(** C7 as the specification states it: the exit status is 1 only under
    one of the five fatal conditions of the setup. *)
Definition exit_one_as_stated : Prop :=
  ∀ sdk fuel argv w,
    exit_code (main sdk fuel argv w).1 = Some 1 →
    fatal_condition sdk argv w (main sdk fuel argv w).2.

(** C4 as the specification states it: for a non-empty list of [K]
    records and a batch size [B >= 1], [upsert_data] issues exactly
    [ceil(K / B)] upsert calls. *)
Definition batching_as_stated : Prop :=
  ∀ sdk self (vectors : list VectorRecord) namespace batch_size w,
    vectors ≠ [] →
    1 ≤ batch_size →
    length (upsert_calls
              (events_since w
                 (upsert_data sdk self vectors namespace batch_size w).2))
    = Z.to_nat (ceil_div (len vectors) batch_size).

(** ** Vocabulary of the further properties *)

(** An index is created with the parameters [get_or_create_index]
    passes to [create_index]. *)
Definition default_creation (e : event) : Prop :=
  match e with
  | ECall (CCreateIndex _ _ dimension metric cloud region) =>
      dimension = 1536 ∧ metric = "cosine" ∧ cloud = "aws"
      ∧ region = "us-east-1"
  | _ => True
  end.

(** An index is created with the given dimension and metric, on the
    serverless cloud and region of the source. *)
Definition created_with (dimension : Z) (metric : string) (e : event)
  : Prop :=
  match e with
  | ECall (CCreateIndex _ _ d m cloud region) =>
      d = dimension ∧ m = metric ∧ cloud = "aws" ∧ region = "us-east-1"
  | _ => True
  end.

(** The event is not the deletion of an index. *)
Definition no_delete (e : event) : Prop :=
  match e with
  | ECall (CDeleteIndex _ _) => False
  | _ => True
  end.

(** The three messages [upsert_data] may end with. *)
Definition upsert_reports : list string :=
  ["No vectors to upsert."; msg_upserted; msg_upsert_error].

(** What [k] rounds of the readiness loop emit: the description is
    asked, the wait is announced, and the program sleeps two seconds. *)
Definition polling (c : Pinecone) (name : string) (k : nat) : list event :=
  concat (replicate k [ECall (CDescribeIndex c name); EPrint msg_waiting [];
                       ESleep 2]).

Definition msg_already_exists_skip : string :=
  "Index '{self.index_name}' already exists. Skipping creation.".

Definition msg_already_exists_replace : string :=
  "Index '{self.index_name}' already exists. Deleting and recreating.".

Definition msg_creating : string :=
  "Creating index '{self.index_name}' with dimension {dimension} and metric '{metric}'.".

Definition msg_unverified : string :=
  "Warning: Could not verify destination dimensions: {e}".

(** An entry of a fetched mapping that has its ["values"], and the
    record [migrate] makes of it. *)
Definition has_values (item : string * VecData) : bool :=
  match vd_values item.2 with Some _ => true | None => false end.

Definition record_of (item : string * VecData) : VectorRecord :=
  {| vr_id := item.1;
     vr_values := default [] (vd_values item.2);
     vr_metadata := default [] (vd_metadata item.2) |}.

(** Upserts, if any, go to the index [target]. *)
Definition writes_to (target : Index) (e : event) : Prop :=
  match e with
  | ECall (CUpsert ix _ _) => ix = target
  | _ => True
  end.

(** The world of a session is replaced, the journal kept. *)
Definition with_world (w : World) (s : Session) : Session :=
  {| world := w; journal := journal s |}.

(** The keys of a supplier that [upsert_supplier] reads. *)
Definition supplier_keys : list string :=
  ["name"; "country"; "address"; "phone"; "email"; "listing_url";
   "description"].

Definition embedding_model : string := "text-embedding-ada-002".

(** The event is not a call to the Pinecone SDK. *)
Definition no_call (e : event) : Prop :=
  match e with ECall _ => False | _ => True end.

(** [strip] on the list of bytes. *)
Definition strip_chars (l : list ascii) : list ascii :=
  rev (lstrip true (rev (lstrip false l))).

(** The list starts with the encoding of a white space character; with
    [backwards], the list is a string read from its end. *)
Definition starts_with_space (backwards : bool) (l : list ascii) : bool :=
  match l with
  | c1 :: s1 =>
      is_space1 c1
      || match s1 with
         | c2 :: s2 =>
             space2 backwards c1 c2
             || match s2 with
                | c3 :: _ => space3 backwards c1 c2 c3
                | [] => false
                end
         | [] => false
         end
  | [] => false
  end.

(** The list ends with the encoding of a white space character. *)
Definition ends_with_space (l : list ascii) : bool :=
  starts_with_space true (rev l).

(* ================================================================== *)
(** * A simulated service, to run the program on concrete inputs        *)
(* ================================================================== *)

Module Demo.

(** A scenario fixes what the two accounts hold and how the index
    operations answer.  The source account is the one of key
    ["src-key"]; every other key designates the destination account. *)
Record Scenario := {
  sc_src_entries : list IndexModel;
  sc_dst_entries : list IndexModel;
  sc_stats : sdk_result IndexStats;
  sc_has_list : bool;
  sc_pages : string → IdPages;
  sc_fetch : list string → string → sdk_result FetchResponse;
  sc_upsert : list VectorRecord → string → sdk_result unit
}.

Definition is_source (c : Pinecone) : bool :=
  bool_decide (pc_api_key c = Some "src-key").

(** The indexes the destination account created during the run. *)
Fixpoint created (t : list event) : list IndexModel :=
  match t with
  | ECall (CCreateIndex c (Some name) dimension metric _ _) :: t' =>
      if is_source c then created t'
      else {| im_name := name; im_dimension := dimension;
              im_metric := metric; im_ready := true |} :: created t'
  | _ :: t' => created t'
  | [] => []
  end.

Definition entries_of (s : Scenario) (t : list event) (c : Pinecone)
  : list IndexModel :=
  if is_source c then sc_src_entries s
  else (sc_dst_entries s ++ created t)%list.

Definition find_entry (name : string) (l : list IndexModel)
  : sdk_result IndexModel :=
  match filter (λ e, im_name e = name) l with
  | e :: _ => Returns e
  | [] => Throws (LibraryError "NotFoundException") name
  end.

Definition sdk_of (s : Scenario) : SDK := {|
  sdk_Pinecone := λ _ _, Returns tt;
  sdk_OpenAI := λ _ _, Returns tt;
  sdk_list_indexes := λ t c, Returns (entries_of s t c);
  sdk_describe_index := λ t c name, find_entry name (entries_of s t c);
  sdk_create_index := λ _ _ _ _ _, Returns tt;
  sdk_delete_index := λ _ _ _, Returns tt;
  sdk_Index := λ _ _ _, Returns tt;
  sdk_index_list :=
    if sc_has_list s then Some (λ _ _ ns, sc_pages s ns) else None;
  sdk_index_fetch := λ _ _ ids ns, sc_fetch s ids ns;
  sdk_index_upsert := λ _ _ vectors ns, sc_upsert s vectors ns;
  sdk_index_describe_index_stats := λ _ _, sc_stats s
|}.

Definition model (name : string) (dimension : Z) : IndexModel :=
  {| im_name := name; im_dimension := dimension; im_metric := "cosine";
     im_ready := true |}.

Definition vec (values : list Z) : VecData :=
  {| vd_values := Some values; vd_metadata := None |}.

(** The stored records of the source index: every id has the vector
    [[1; 2]]. *)
Definition fetch_all (ids : list string) (ns : string)
  : sdk_result FetchResponse :=
  Returns {| fr_vectors := Some (map (λ i, (i, vec [1; 2])) ids) |}.

Definition one_page (ids : list string) : IdPages :=
  {| ip_pages := [ids]; ip_error := None |}.

(** The end-to-end scenario of the specification: the source holds the
    records [a], [b], [c] in its default namespace, the destination index
    does not exist yet. *)
Definition fresh_destination : Scenario := {|
  sc_src_entries := [model "products" 8];
  sc_dst_entries := [];
  sc_stats := Returns {| st_namespaces := Some [("", 3)];
                         st_total_vector_count := 3 |};
  sc_has_list := true;
  sc_pages := λ _, one_page ["a"; "b"; "c"];
  sc_fetch := fetch_all;
  sc_upsert := λ _ _, Returns tt
|}.

Definition world0 : World := {|
  environ := ∅; stdin := []; heap := []; total_migrated := 0; events := []
|}.

(** ** Other scenarios *)

Definition source_handle : option Index :=
  Some {| ix_client := {| pc_api_key := Some "src-key" |};
          ix_name := Some "products" |}.

Definition destination_handle : Index :=
  {| ix_client := {| pc_api_key := Some "dst-key" |};
     ix_name := Some "copy" |}.

Definition library_error : exc_class := LibraryError "PineconeApiException".

(** The source holds [a1] in the namespace ["A"] and [b1], [b2] in the
    namespace ["B"]; the destination index exists with the dimension of
    the source. *)
Definition two_namespaces : Scenario := {|
  sc_src_entries := [model "products" 8];
  sc_dst_entries := [model "copy" 8];
  sc_stats := Returns {| st_namespaces := Some [("A", 1); ("B", 2)];
                         st_total_vector_count := 3 |};
  sc_has_list := true;
  sc_pages := λ ns, if bool_decide (ns = "A") then one_page ["a1"]
                    else one_page ["b1"; "b2"];
  sc_fetch := fetch_all;
  sc_upsert := λ _ _, Returns tt
|}.

(** The same, with a destination index of another dimension. *)
Definition mismatched : Scenario := {|
  sc_src_entries := [model "products" 1536];
  sc_dst_entries := [model "copy" 768];
  sc_stats := sc_stats two_namespaces;
  sc_has_list := true;
  sc_pages := sc_pages two_namespaces;
  sc_fetch := fetch_all;
  sc_upsert := λ _ _, Returns tt
|}.

(** The same as [two_namespaces], with index objects that have no
    [list]. *)
Definition no_list : Scenario := {|
  sc_src_entries := sc_src_entries two_namespaces;
  sc_dst_entries := sc_dst_entries two_namespaces;
  sc_stats := sc_stats two_namespaces;
  sc_has_list := false;
  sc_pages := sc_pages two_namespaces;
  sc_fetch := fetch_all;
  sc_upsert := λ _ _, Returns tt
|}.

(** The same, with a fetch that raises an exception of class [cls] in
    the namespace ["A"]. *)
Definition failing_fetch (cls : exc_class) : Scenario := {|
  sc_src_entries := sc_src_entries two_namespaces;
  sc_dst_entries := sc_dst_entries two_namespaces;
  sc_stats := sc_stats two_namespaces;
  sc_has_list := true;
  sc_pages := sc_pages two_namespaces;
  sc_fetch := λ ids ns,
    if bool_decide (ns = "A") then Throws cls "fetch failed"
    else fetch_all ids ns;
  sc_upsert := λ _ _, Returns tt
|}.

(** The same, with a destination that refuses every upsert. *)
Definition failing_upsert : Scenario := {|
  sc_src_entries := sc_src_entries two_namespaces;
  sc_dst_entries := sc_dst_entries two_namespaces;
  sc_stats := sc_stats two_namespaces;
  sc_has_list := true;
  sc_pages := sc_pages two_namespaces;
  sc_fetch := fetch_all;
  sc_upsert := λ _ _, Throws library_error "upsert failed"
|}.

(** The same, with a destination that refuses the batches that hold the
    record [c]. *)
Definition refusing_c : Scenario := {|
  sc_src_entries := sc_src_entries two_namespaces;
  sc_dst_entries := sc_dst_entries two_namespaces;
  sc_stats := sc_stats two_namespaces;
  sc_has_list := true;
  sc_pages := sc_pages two_namespaces;
  sc_fetch := fetch_all;
  sc_upsert := λ vectors _,
    if bool_decide ("c" ∈ map vr_id vectors)
    then Throws library_error "upsert failed" else Returns tt
|}.

(** The same, with statistics that cannot be read. *)
Definition failing_stats : Scenario := {|
  sc_src_entries := sc_src_entries two_namespaces;
  sc_dst_entries := sc_dst_entries two_namespaces;
  sc_stats := Throws library_error "stats failed";
  sc_has_list := true;
  sc_pages := sc_pages two_namespaces;
  sc_fetch := fetch_all;
  sc_upsert := λ _ _, Returns tt
|}.

(** The worlds a run of [migrate] goes through, from [world0]. *)
Definition connected_source (s : Scenario) : World :=
  (connect_source (sdk_of s) "src-key" "products" world0).2.

Definition connected (s : Scenario) (source_dim : Z) : World :=
  (connect_destination (sdk_of s) 1 source_dim "cosine" "dst-key" "copy"
     (connected_source s)).2.

Definition ready (s : Scenario) : World :=
  (prepare_migration (sdk_of s) 0 (connected s 8)).2.

(** The world in which step 2 has built the manager of the destination. *)
Definition destination_built (s : Scenario) : World :=
  (PineconeManager_init (sdk_of s)
     (destination_environment "dst-key" "copy" (connected_source s))).2.

(** The world in which the page of ["A"] is fetched, and the world in
    which [upsert_data] has obtained the destination index for it. *)
Definition fetched_in_A (s : Scenario) : World :=
  (index_fetch (sdk_of s) source_handle ["a1"] "A" (ready s)).2.

Definition obtained_in_A (s : Scenario) : World :=
  (get_or_create_index (sdk_of s) 1
     (emit (EPrint msg_attempting [VInt 1; VStr "copy"; VStr "A"; VInt 1])
        (fetched_in_A s))).2.

(** The world in which the namespace ["A"] stops, and the world after
    its exception was logged. *)
Definition stopped_in_A (s : Scenario) : World :=
  (copy_namespace_pages (sdk_of s) source_handle 1 "A"
     (emit (EPrint msg_processing_namespace [VStr "A"]) (ready s))).2.

Definition logged_in_A (s : Scenario) (cls : exc_class) : World :=
  emit (ETraceback cls "fetch failed")
    (emit (EPrint msg_namespace_error [VStr "A"; VExc cls "fetch failed"])
       (stopped_in_A s)).

(** Five records, and a world with one manager connected to the
    destination index. *)
Definition record (i : string) : VectorRecord :=
  {| vr_id := i; vr_values := [1; 2]; vr_metadata := [] |}.

Definition five : list VectorRecord :=
  [record "a"; record "b"; record "c"; record "d"; record "e"].

Definition one_manager : World := {|
  environ := ∅; stdin := [];
  heap := [ {| api_key := Some "dst-key"; index_name := Some "copy";
               openai_api_key := None;
               pc := {| pc_api_key := Some "dst-key" |};
               openai_client := None;
               index := Some destination_handle |} ];
  total_migrated := 0; events := []
|}.

(** The environment of a run of [main] with both keys. *)
Definition with_keys : World := {|
  environ := <["PINECONE_SOURCE_API_KEY" := "src-key"]>
               (<["PINECONE_DEST_API_KEY" := "dst-key"]> ∅);
  stdin := []; heap := []; total_migrated := 0; events := []
|}.

End Demo.

(** ** Further services and worlds *)

Module Cases.

Import Demo.

(** The service of a scenario, with a destination account whose
    descriptions cannot be read. *)
Definition undescribed (s : Scenario) : SDK := {|
  sdk_Pinecone := sdk_Pinecone (sdk_of s);
  sdk_OpenAI := sdk_OpenAI (sdk_of s);
  sdk_list_indexes := sdk_list_indexes (sdk_of s);
  sdk_describe_index := λ t c name,
    if is_source c then sdk_describe_index (sdk_of s) t c name
    else Throws library_error "describe failed";
  sdk_create_index := sdk_create_index (sdk_of s);
  sdk_delete_index := sdk_delete_index (sdk_of s);
  sdk_Index := sdk_Index (sdk_of s);
  sdk_index_list := sdk_index_list (sdk_of s);
  sdk_index_fetch := sdk_index_fetch (sdk_of s);
  sdk_index_upsert := sdk_index_upsert (sdk_of s);
  sdk_index_describe_index_stats := sdk_index_describe_index_stats (sdk_of s)
|}.

(** The number of times the program slept. *)
Fixpoint sleeps (t : list event) : nat :=
  match t with
  | ESleep _ :: t' => S (sleeps t')
  | _ :: t' => sleeps t'
  | [] => 0
  end.

(** The service of a scenario, with indexes that are ready once the
    program slept [n] times. *)
Definition provisioning (n : nat) (s : Scenario) : SDK := {|
  sdk_Pinecone := sdk_Pinecone (sdk_of s);
  sdk_OpenAI := sdk_OpenAI (sdk_of s);
  sdk_list_indexes := sdk_list_indexes (sdk_of s);
  sdk_describe_index := λ t c name,
    Returns {| im_name := name; im_dimension := 8; im_metric := "cosine";
               im_ready := bool_decide (n ≤ sleeps t)%nat |};
  sdk_create_index := sdk_create_index (sdk_of s);
  sdk_delete_index := sdk_delete_index (sdk_of s);
  sdk_Index := sdk_Index (sdk_of s);
  sdk_index_list := sdk_index_list (sdk_of s);
  sdk_index_fetch := sdk_index_fetch (sdk_of s);
  sdk_index_upsert := sdk_index_upsert (sdk_of s);
  sdk_index_describe_index_stats := sdk_index_describe_index_stats (sdk_of s)
|}.

(** The service of a scenario, with an OpenAI constructor that raises. *)
Definition without_openai (s : Scenario) : SDK := {|
  sdk_Pinecone := sdk_Pinecone (sdk_of s);
  sdk_OpenAI := λ _ _, Throws (LibraryError "OpenAIError") "no such key";
  sdk_list_indexes := sdk_list_indexes (sdk_of s);
  sdk_describe_index := sdk_describe_index (sdk_of s);
  sdk_create_index := sdk_create_index (sdk_of s);
  sdk_delete_index := sdk_delete_index (sdk_of s);
  sdk_Index := sdk_Index (sdk_of s);
  sdk_index_list := sdk_index_list (sdk_of s);
  sdk_index_fetch := sdk_index_fetch (sdk_of s);
  sdk_index_upsert := sdk_index_upsert (sdk_of s);
  sdk_index_describe_index_stats := sdk_index_describe_index_stats (sdk_of s)
|}.

(** Two characters out of ASCII, by the bytes of their encoding: the
    ideographic space U+3000 and the letter a with a grave accent
    U+00E0, whose second byte is the one of the no-break space. *)
Definition ideographic_space : string :=
  String "227"%char (String "128"%char (String "128"%char EmptyString)).

Definition a_grave : string :=
  String "195"%char (String "160"%char EmptyString).

(** An environment with the three variables of a manager. *)
Definition configured : World := {|
  environ := <["PINECONE_API_KEY" := "dst-key"]>
               (<["PINECONE_INDEX_NAME" := "copy"]>
                  (<["OPENAI_API_KEY" := "sk-test"]> ∅));
  stdin := []; heap := []; total_migrated := 0; events := []
|}.

(** A manager of the destination account that holds no index yet. *)
Definition detached : World := {|
  environ := ∅; stdin := [];
  heap := [ {| api_key := Some "dst-key"; index_name := Some "copy";
               openai_api_key := None;
               pc := {| pc_api_key := Some "dst-key" |};
               openai_client := None;
               index := None |} ];
  total_migrated := 0; events := []
|}.

(** The two lines an operator types: the source name between blanks,
    then nothing. *)
Definition typed : World :=
  with_stdin ["  products "; ""] with_keys.

(** The embeddings service gives every text the vector [[1; 2]]; the
    query finds nothing; [uuid4] draws the same identifier each time. *)
Definition identifier : string := "3f2b8c0a9d4e4f7a8b1c2d3e4f5a6b7c".

Definition embedder : Services := {|
  sdk_embeddings_create := λ _ _ _ input _,
    Returns {| data := map (λ _, {| embedding := [1; 2] |}) input |};
  sdk_index_query := λ _ _ _ _ _ _ _ _ _, Returns (ODict [("matches", OList [])]);
  sdk_uuid4_hex := λ _ _, identifier
|}.

(** A session of a manager that has an OpenAI client and holds the
    destination index. *)
Definition shop : Session := {|
  world := {|
    environ := ∅; stdin := [];
    heap := [ {| api_key := Some "dst-key"; index_name := Some "copy";
                 openai_api_key := Some "sk-test";
                 pc := {| pc_api_key := Some "dst-key" |};
                 openai_client := Some {| oa_api_key := "sk-test" |};
                 index := Some destination_handle |} ];
    total_migrated := 0; events := [] |};
  journal := []
|}.

(** A supplier with a blank phone and a key the method does not read. *)
Definition acme : Supplier :=
  <["name" := "Acme"]>
    (<["country" := "France"]>
       (<["phone" := ""]> (<["website" := "acme.example"]> ∅))).

End Cases.

(* ================================================================== *)
(** * The logics                                                        *)
(* ================================================================== *)

Lemma extends_by_refl P t : extends_by P t t.
Proof. exists []. by rewrite app_nil_r. Qed.

Lemma extends_by_trans P t1 t2 t3 :
  extends_by P t1 t2 → extends_by P t2 t3 → extends_by P t1 t3.
Proof.
  intros (n1 & -> & H1) (n2 & -> & H2). exists (n1 ++ n2)%list.
  rewrite <- app_assoc. split; [done | by apply Forall_app].
Qed.

Lemma extends_by_emit (P : event → Prop) e w :
  P e → extends_by P (events w) (events (emit e w)).
Proof. intros He. exists [e]. split; [done | by constructor]. Qed.

(** The logic of computations that raise instances of [Exception] only:
    no exit, no exhaustion of the fuel. *)
Definition safeL : Logic.
Proof.
  refine {| Rw := λ _ _, True; Pev := λ _, True; Pexit := λ _ _, False;
            fuel_ok := False; total_ok := True; env_ok := True |}; done.
Defined.

(** The logic of computations that do not call [sys.exit]. *)
Definition noexitL : Logic.
Proof.
  refine {| Rw := λ _ _, True; Pev := λ _, True; Pexit := λ _ _, False;
            fuel_ok := True; total_ok := True; env_ok := True |}; done.
Defined.

(** The logic of the steps before the copy: no event of the copy, and an
    exit has status 1 and follows a fatal message. *)
Definition setupL : Logic.
Proof.
  refine {| Rw := λ w w', extends_without_copy (events w) (events w');
            Pev := λ e, copy_event e = false;
            Pexit := λ c w, c = 1 ∧ ends_with_fatal (events w);
            fuel_ok := True; total_ok := True; env_ok := True |}.
  - intros w. apply extends_by_refl.
  - intros w1 w2 w3. apply extends_by_trans.
  - intros e w He. by apply extends_by_emit.
  - intros _ f w. apply extends_by_refl.
  - intros l w. apply extends_by_refl.
  - intros m w. apply extends_by_refl.
  - intros self w. apply extends_by_refl.
  - intros self w. apply extends_by_refl.
  - intros _ n w. apply extends_by_refl.
Defined.

(** The logic of bindings: a manager bound to an account and an index
    stays so. *)
Definition boundL (r : nat) (key name : option string) : Logic.
Proof.
  refine {| Rw := λ w w', bound_to r key name w → bound_to r key name w';
            Pev := λ _, True; Pexit := λ _ _, True; fuel_ok := True;
            total_ok := True; env_ok := True |};
    try done; unfold bound_to; cbn [heap with_heap].
  - intros w1 w2 w3 H1 H2 H. auto.
  - intros m w (x & Hx & H). exists x. split; [|done].
    cbn [heap with_heap]. by apply lookup_app_l_Some.
  - intros self w (x & Hx & Hk & Hn & Hp & Hi). cbn [heap with_heap].
    destruct (decide (self = r)) as [->|Hne].
    + exists (with_index None x). rewrite list_lookup_alter_eq, Hx.
      repeat split; auto.
    + exists x. rewrite list_lookup_alter_ne by done. repeat split; auto.
  - intros self w (x & Hx & Hk & Hn & Hp & Hi). cbn [heap with_heap].
    destruct (decide (self = r)) as [->|Hne].
    + exists (with_index (Some (index_for x)) x).
      rewrite list_lookup_alter_eq, Hx. repeat split; auto.
    + exists x. rewrite list_lookup_alter_ne by done. repeat split; auto.
Defined.

(** The logic of computations that leave [total_migrated] alone. *)
Definition totalL : Logic.
Proof.
  refine {| Rw := λ w w', total_migrated w' = total_migrated w;
            Pev := λ _, True; Pexit := λ _ _, True; fuel_ok := True;
            total_ok := False; env_ok := True |}; try done.
  intros w1 w2 w3 H1 H2. congruence.
Defined.

Lemma attempted_records_app t t' :
  attempted_records (t ++ t') = attempted_records t + attempted_records t'.
Proof.
  induction t as [|e t IH]; [done|].
  simpl. rewrite IH.
  destruct e as [template args| | | |]; try done.
  case_bool_decide; [|done]. destruct args as [|[] args]; lia.
Qed.

Lemma counted_trans w1 w2 w3 : counted w1 w2 → counted w2 w3 → counted w1 w3.
Proof.
  intros (n1 & E1 & T1) (n2 & E2 & T2). exists (n1 ++ n2)%list.
  rewrite E2, E1, <- app_assoc, attempted_records_app. split; [done | lia].
Qed.

(** The logic of counting: [total_migrated] grows by what the trace
    announces.  Its primitives announce nothing and leave the total
    alone. *)
Definition countL : Logic.
Proof.
  refine {| Rw := counted; Pev := quiet_event;
            Pexit := λ _ _, True; fuel_ok := True; total_ok := False;
            env_ok := True |};
    try (by intros; exists []; cbn; rewrite app_nil_r; split; [|lia]).
  - apply counted_trans.
  - intros e w He. exists [e]. split; [done|]. rewrite He. simpl. lia.
Defined.

(** The logic of computations that leave the environment alone. *)
Definition envL : Logic.
Proof.
  refine {| Rw := λ w w', environ w' = environ w;
            Pev := λ _, True; Pexit := λ _ _, True; fuel_ok := True;
            total_ok := True; env_ok := False |}; try done.
  intros w1 w2 w3 H1 H2. congruence.
Defined.

(** The logic of the source of the copy: ids and records are read from
    [target]. *)
Definition readL (target : Index) : Logic.
Proof.
  refine {| Rw := λ w w',
              extends_by (reads_from target) (events w) (events w');
            Pev := reads_from target; Pexit := λ _ _, True; fuel_ok := True;
            total_ok := True; env_ok := True |};
    try (intros; apply extends_by_refl).
  - intros w1 w2 w3. apply extends_by_trans.
  - intros. by apply extends_by_emit.
Defined.

(** The logic of a manager bound to an account and an index: as long as
    the manager at [r] is bound, every call is made on this account and
    this index. *)
Definition targetL (r : nat) (key name : option string) : Logic.
Proof.
  refine {| Rw := λ w w',
              bound_to r key name w →
              bound_to r key name w' ∧
              extends_by (targets key name) (events w) (events w');
            Pev := targets key name; Pexit := λ _ _, True; fuel_ok := True;
            total_ok := True; env_ok := True |}.
  - intros w H. split; [done | apply extends_by_refl].
  - intros w1 w2 w3 H1 H2 H. destruct (H1 H) as [H' E1].
    destruct (H2 H') as [H'' E2]. split; [done|].
    by eapply extends_by_trans.
  - intros e w He H. split; [|by apply extends_by_emit].
    by apply (Rw_emit (boundL r key name) e w).
  - intros _ f w H. split; [|apply extends_by_refl].
    by apply (Rw_environ (boundL r key name) I).
  - intros l w H. split; [|apply extends_by_refl].
    by apply (Rw_stdin (boundL r key name)).
  - intros m w H. split; [|apply extends_by_refl].
    by apply (Rw_alloc (boundL r key name)).
  - intros self w H. split; [|apply extends_by_refl].
    by apply (Rw_clear_index (boundL r key name)).
  - intros self w H. split; [|apply extends_by_refl].
    by apply (Rw_attach_index (boundL r key name)).
  - intros _ n w H. split; [|apply extends_by_refl].
    by apply (Rw_total (boundL r key name) I).
Defined.

(** The logic of a condition on events: every event a computation emits
    satisfies [P]. *)
Definition onlyL (P : event → Prop) : Logic.
Proof.
  refine {| Rw := λ w w', extends_by P (events w) (events w');
            Pev := P; Pexit := λ _ _, True; fuel_ok := True;
            total_ok := True; env_ok := True |};
    try (intros; apply extends_by_refl).
  - intros w1 w2 w3. apply extends_by_trans.
  - intros. by apply extends_by_emit.
Defined.

(** The logic of a reference: an object of the heap stays in the heap. *)
Definition heapL (r : nat) : Logic.
Proof.
  refine {| Rw := λ w w', (r < length (heap w) → r < length (heap w'))%nat;
            Pev := λ _, True; Pexit := λ _ _, True; fuel_ok := True;
            total_ok := True; env_ok := True |};
    try done; cbn [heap with_heap].
  - intros w1 w2 w3 H1 H2 H. auto.
  - intros m w H. rewrite length_app. lia.
  - intros self w H. by rewrite length_alter.
  - intros self w H. by rewrite length_alter.
Defined.

(** The logic of the destination of the copy: as long as the manager at
    [r] is bound to an account and an index, the upserts go there. *)
Definition writeL (r : nat) (key name : option string) : Logic.
Proof.
  set (target := {| ix_client := {| pc_api_key := key |}; ix_name := name |}).
  refine {| Rw := λ w w',
              bound_to r key name w →
              bound_to r key name w' ∧
              extends_by (writes_to target) (events w) (events w');
            Pev := writes_to target; Pexit := λ _ _, True; fuel_ok := True;
            total_ok := True; env_ok := True |}.
  - intros w H. split; [done | apply extends_by_refl].
  - intros w1 w2 w3 H1 H2 H. destruct (H1 H) as [H' E1].
    destruct (H2 H') as [H'' E2]. split; [done|].
    by eapply extends_by_trans.
  - intros e w He H. split; [|by apply extends_by_emit].
    by apply (Rw_emit (boundL r key name) e w).
  - intros _ f w H. split; [|apply extends_by_refl].
    by apply (Rw_environ (boundL r key name) I).
  - intros l w H. split; [|apply extends_by_refl].
    by apply (Rw_stdin (boundL r key name)).
  - intros m w H. split; [|apply extends_by_refl].
    by apply (Rw_alloc (boundL r key name)).
  - intros self w H. split; [|apply extends_by_refl].
    by apply (Rw_clear_index (boundL r key name)).
  - intros self w H. split; [|apply extends_by_refl].
    by apply (Rw_attach_index (boundL r key name)).
  - intros _ n w H. split; [|apply extends_by_refl].
    by apply (Rw_total (boundL r key name) I).
Defined.

(* ================================================================== *)
(** * Rules of the program logic                                        *)
(* ================================================================== *)

(** Altering an element with a function of its current value. *)
Lemma alter_current `{Inhabited A} (g : A → A → A) (i : nat) (l : list A) :
  alter (g (l !!! i)) i l = alter (λ x, g x x) i l.
Proof.
  apply list_alter_ext; [|done].
  intros x Hx. by rewrite (list_lookup_total_correct _ _ _ Hx).
Qed.

Section Rules.

Context (L : Logic).

Lemma spec_ret {A} (a : A) : spec L (mret a).
Proof. intros w. split; [apply Rw_refl | done]. Qed.

Lemma spec_bind {A B} (m : M A) (f : A → M B) :
  spec L m → (∀ a, spec L (f a)) → spec L (m ≫= f).
Proof.
  intros Hm Hf w. specialize (Hm w). unfold mbind, M_bind.
  destruct (m w) as [[a|e|] w1]; simpl in *; [|done..].
  destruct Hm as [Hm _]. specialize (Hf a w1).
  destruct Hf as [Hf1 Hf2]. split; [|done].
  eapply Rw_trans; eauto.
Qed.

Lemma spec_try_except {A} (m : M A) (h : exc_class → string → M A) :
  spec L m → (∀ cls msg, spec L (h cls msg)) → spec L (try_except m h).
Proof.
  intros Hm Hh w. specialize (Hm w). unfold try_except.
  destruct (m w) as [[a|[c|cls msg]|] w1]; simpl in *; [done..| |done].
  destruct Hm as [Hm _]. specialize (Hh cls msg w1).
  destruct Hh as [Hh1 Hh2]. split; [|done].
  eapply Rw_trans; eauto.
Qed.

Lemma spec_raise_exc {A} cls msg : spec L (raise (A:=A) (Exc cls msg)).
Proof. intros w. split; [apply Rw_refl | done]. Qed.

Lemma spec_sys_exit {A} c : (∀ w, Pexit L c w) → spec L (sys_exit (A:=A) c).
Proof. intros H w. split; [apply Rw_refl | apply H]. Qed.

Lemma spec_print_exit {A} template args c :
  Pev L (EPrint template args) →
  (∀ w, Pexit L c (emit (EPrint template args) w)) →
  spec L (print template args;; sys_exit (A:=A) c).
Proof. intros He H w. split; [by apply Rw_emit | apply H]. Qed.

Lemma spec_out_of_fuel {A} : fuel_ok L → spec L (out_of_fuel (A:=A)).
Proof. intros H w. split; [apply Rw_refl | done]. Qed.

Lemma spec_print template args :
  Pev L (EPrint template args) → spec L (print template args).
Proof. intros He w. split; [by apply Rw_emit | done]. Qed.

Lemma spec_print_exc cls msg :
  Pev L (ETraceback cls msg) → spec L (print_exc cls msg).
Proof. intros He w. split; [by apply Rw_emit | done]. Qed.

Lemma spec_sleep secs : Pev L (ESleep secs) → spec L (sleep secs).
Proof. intros He w. split; [by apply Rw_emit | done]. Qed.

Lemma spec_input prompt args :
  Pev L (EInput prompt args) → spec L (input prompt args).
Proof.
  intros He w. unfold input. destruct (stdin w); simpl.
  - split; [by apply Rw_emit | done].
  - split; [|done]. eapply Rw_trans; [by apply Rw_emit | apply Rw_stdin].
Qed.

Lemma spec_getenv name : spec L (os_getenv name).
Proof. intros w. split; [apply Rw_refl | done]. Qed.

Lemma spec_environ_get name dflt : spec L (os_environ_get name dflt).
Proof. intros w. split; [apply Rw_refl | done]. Qed.

Lemma spec_environ_set name value :
  env_ok L → spec L (os_environ_set name value).
Proof. intros H w. split; [by apply Rw_environ | done]. Qed.

Lemma spec_remote {A} c (oracle : list event → sdk_result A) :
  Pev L (ECall c) → spec L (remote c oracle).
Proof.
  intros He w. unfold remote.
  destruct (oracle (events w)); (split; [by apply Rw_emit | done]).
Qed.

Lemma spec_new_object m : spec L (new_object m).
Proof. intros w. split; [apply Rw_alloc | done]. Qed.

Lemma spec_attrs self : spec L (attrs self).
Proof. intros w. split; [apply Rw_refl | done]. Qed.

Lemma spec_clear_index self : spec L (set_index self None).
Proof. intros w. split; [apply Rw_clear_index | done]. Qed.

Lemma spec_attach_index sdk self :
  (∀ c name, Pev L (ECall (CIndex c name))) → spec L (attach_index sdk self).
Proof.
  intros He w. unfold attach_index, attrs, pc_Index, remote, set_index.
  unfold mbind, M_bind, mret, M_ret.
  destruct (sdk_Index sdk _ _ _) as [[]|cls msg]; cbn [fst snd].
  - split; [|done].
    set (m := heap w !!! self).
    set (w1 := emit (ECall (CIndex (pc m) (index_name m))) w).
    apply Rw_trans with w1; [by apply Rw_emit|].
    pose proof (Rw_attach_index L self w1) as Hr. unfold with_heap in *.
    by rewrite <- (alter_current (λ x, with_index (Some (index_for x))))
      in Hr.
  - split; [by apply Rw_emit | done].
Qed.

Lemma spec_get_total : spec L get_total.
Proof. intros w. split; [apply Rw_refl | done]. Qed.

Lemma spec_set_total n : total_ok L → spec L (set_total n).
Proof. intros H w. split; [by apply Rw_total | done]. Qed.

Lemma spec_for_each {A} (l : list A) (body : A → M unit) :
  (∀ x, spec L (body x)) → spec L (for_each l body).
Proof.
  intros Hb. induction l as [|x l IH]; simpl.
  - apply spec_ret.
  - apply spec_bind; [apply Hb | intros _; apply IH].
Qed.

Lemma spec_for_each_break {A} (l : list A) (body : A → M loop_ctl) :
  (∀ x, spec L (body x)) → spec L (for_each_break l body).
Proof.
  intros Hb. induction l as [|x l IH]; simpl.
  - apply spec_ret.
  - apply spec_bind; [apply Hb | intros [|]; [apply IH | apply spec_ret]].
Qed.

Lemma spec_index_list sdk ix ns :
  (∀ i, ix = Some i → Pev L (ECall (CList i ns))) →
  spec L (index_list sdk ix ns).
Proof.
  intros He. unfold index_list. destruct ix as [i|].
  - destruct (sdk_index_list sdk).
    + intros w. split; [by apply Rw_emit, He | done].
    + apply spec_raise_exc.
  - apply spec_raise_exc.
Qed.

End Rules.

Ltac head_of t :=
  lazymatch t with
  | ?f _ => head_of f
  | _ => t
  end.

(** One step of a derivation of [spec L m], following the shape of [m];
    [leaf] solves the conditions on events and exits. *)
Ltac spec_step leaf :=
  lazymatch goal with
  | |- spec _ (mret _) => apply spec_ret
  | |- spec _ (mbind (λ _, sys_exit _) (print _ _)) =>
      apply spec_print_exit; [leaf | intros; leaf]
  | |- spec _ (mbind _ _) => apply spec_bind; [|intros]
  | |- spec _ (try_except _ _) => apply spec_try_except; [|intros]
  | |- spec _ (for_each _ _) => apply spec_for_each; intros
  | |- spec _ (for_each_break _ _) => apply spec_for_each_break; intros
  | |- spec _ (raise (Exc _ _)) => apply spec_raise_exc
  | |- spec _ (sys_exit _) => apply spec_sys_exit; intros; leaf
  | |- spec _ out_of_fuel => apply spec_out_of_fuel; leaf
  | |- spec _ (print _ _) => apply spec_print; leaf
  | |- spec _ (print_exc _ _) => apply spec_print_exc; leaf
  | |- spec _ (sleep _) => apply spec_sleep; leaf
  | |- spec _ (input _ _) => apply spec_input; leaf
  | |- spec _ (os_getenv _) => apply spec_getenv
  | |- spec _ (os_environ_get _ _) => apply spec_environ_get
  | |- spec _ (os_environ_set _ _) => apply spec_environ_set; leaf
  | |- spec _ (remote _ _) => apply spec_remote; leaf
  | |- spec _ (new_object _) => apply spec_new_object
  | |- spec _ (attrs _) => apply spec_attrs
  | |- spec _ (set_index _ None) => apply spec_clear_index
  | |- spec _ (attach_index _ _) => apply spec_attach_index; intros; leaf
  | |- spec _ get_total => apply spec_get_total
  | |- spec _ (set_total _) => apply spec_set_total; leaf
  | |- spec _ (index_list _ _ _) => apply spec_index_list; intros; leaf
  | |- spec _ (match ?x with _ => _ end) => destruct x
  | |- spec _ ?m => let h := head_of m in unfold h
  end.

Ltac spec_auto leaf := repeat (spec_step leaf).

(* ================================================================== *)
(** * Running a computation                                             *)
(* ================================================================== *)

Lemma run_bind_ok {A B} (m : M A) (f : A → M B) w a w' :
  m w = (Ok a, w') → (m ≫= f) w = f a w'.
Proof. intros H. unfold mbind, M_bind. by rewrite H. Qed.

Lemma run_bind_raise {A B} (m : M A) (f : A → M B) w e w' :
  m w = (Raise e, w') → (m ≫= f) w = (Raise e, w').
Proof. intros H. unfold mbind, M_bind. by rewrite H. Qed.

Lemma run_try_ok {A} (m : M A) h w a w' :
  m w = (Ok a, w') → try_except m h w = (Ok a, w').
Proof. intros H. unfold try_except. by rewrite H. Qed.

Lemma run_try_exc {A} (m : M A) h w cls msg w' :
  m w = (Raise (Exc cls msg), w') → try_except m h w = h cls msg w'.
Proof. intros H. unfold try_except. by rewrite H. Qed.

Lemma run_try_exit {A} (m : M A) h w c w' :
  m w = (Raise (SystemExit c), w') →
  try_except m h w = (Raise (SystemExit c), w').
Proof. intros H. unfold try_except. by rewrite H. Qed.

Lemma run_ret {A B} (a : A) (f : A → M B) w : (mret a ≫= f) w = f a w.
Proof. reflexivity. Qed.

Lemma run_attrs {B} self (f : PineconeManager → M B) w :
  (attrs self ≫= f) w = f (heap w !!! self) w.
Proof. reflexivity. Qed.

Lemma run_print {B} template args (f : unit → M B) w :
  (print template args ≫= f) w = f tt (emit (EPrint template args) w).
Proof. reflexivity. Qed.

Lemma run_input {B} prompt args (f : string → M B) w line rest :
  stdin w = line :: rest →
  (input prompt args ≫= f) w
  = f line (with_stdin rest (emit (EInput prompt args) w)).
Proof. intros H. unfold mbind, M_bind, input. by rewrite H. Qed.

Lemma run_remote {A} c (oracle : list event → sdk_result A) w a :
  oracle (events w) = Returns a →
  remote c oracle w = (Ok a, emit (ECall c) w).
Proof. intros H. unfold remote. by rewrite H. Qed.

Lemma run_bind_assoc {A B C} (m : M A) (f : A → M B) (g : B → M C) w :
  ((m ≫= f) ≫= g) w = (m ≫= λ a, f a ≫= g) w.
Proof.
  unfold mbind, M_bind. by destruct (m w) as [[a|e|] w1].
Qed.

Lemma run_print_ret {A} template args (a : A) w :
  (print template args ≫= λ _, mret a) w
  = (Ok a, emit (EPrint template args) w).
Proof. reflexivity. Qed.

Lemma run_environ_get {B} name dflt (f : string → M B) w :
  (os_environ_get name dflt ≫= f) w = f (default dflt (environ w !! name)) w.
Proof. reflexivity. Qed.

Lemma run_environ_set {B} name value (f : unit → M B) w :
  (os_environ_set name value ≫= f) w
  = f tt (with_environ (insert name value) w).
Proof. reflexivity. Qed.

(** A computation that does not exit and is followed by an exit has
    returned. *)
Lemma run_bind_exit {A B} (m : M A) (f : A → M B) w c w' :
  spec noexitL m →
  (m ≫= f) w = (Raise (SystemExit c), w') →
  ∃ a w1, m w = (Ok a, w1) ∧ f a w1 = (Raise (SystemExit c), w').
Proof.
  intros Hm. unfold mbind, M_bind. destruct (Hm w) as [_ Hr].
  destruct (m w) as [[a|[c'|cls msg]|] w1]; cbn in Hr; try done; eauto.
Qed.

Lemma run_bind_exit_cases {A B} (m : M A) (f : A → M B) w c w' :
  (m ≫= f) w = (Raise (SystemExit c), w') →
  m w = (Raise (SystemExit c), w')
  ∨ ∃ a w1, m w = (Ok a, w1) ∧ f a w1 = (Raise (SystemExit c), w').
Proof.
  unfold mbind, M_bind. destruct (m w) as [[a|e|] w1]; [eauto| |done].
  intros [= -> ->]. by left.
Qed.

Lemma no_exit {A} (m : M A) w c w' :
  spec noexitL m → m w ≠ (Raise (SystemExit c), w').
Proof. intros Hm E. destruct (Hm w) as [_ Hr]. by rewrite E in Hr. Qed.

(** A computation only adds events. *)
Lemma events_grow {A} (m : M A) w :
  spec (onlyL (λ _, True)) m → ∃ new, events (m w).2 = (events w ++ new)%list.
Proof. intros H. destruct (H w) as [(new & Hnew & _) _]. by exists new. Qed.

Lemma not_truthy s : str_truthy s = false → s = "".
Proof. by destruct s. Qed.

(** A safe computation returns or raises an instance of [Exception]. *)
Lemma safe_cases {A} (m : M A) w :
  spec safeL m →
  (∃ a w', m w = (Ok a, w')) ∨ (∃ cls msg w', m w = (Raise (Exc cls msg), w')).
Proof.
  intros H. destruct (H w) as [_ Hr].
  destruct (m w) as [[a|[c|cls msg]|] w'] eqn:E; simpl in Hr; try done; eauto.
Qed.

(** Guarding a safe computation by a handler that returns makes a
    computation that returns. *)
Lemma try_except_returns {A} (m : M A) h w :
  spec safeL m →
  (∀ cls msg w1, ∃ a w', h cls msg w1 = (Ok a, w')) →
  ∃ a w', try_except m h w = (Ok a, w').
Proof.
  intros Hm Hh. destruct (safe_cases m w Hm) as [(a & w' & E)|(c & s & w' & E)].
  - exists a, w'. by apply run_try_ok.
  - rewrite (run_try_exc _ _ _ _ _ _ E). apply Hh.
Qed.

Section Safety.

Context (sdk : SDK).

Lemma spec_build_batch L items : spec L (build_batch items).
Proof.
  induction items as [|[vec_id vec_data] items IH]; simpl.
  - apply spec_ret.
  - repeat first [assumption | spec_step idtac].
Qed.

Lemma spec_wait_until_ready L fuel dest_mgr name :
  fuel_ok L →
  (∀ c n, Pev L (ECall (CDescribeIndex c n))) →
  Pev L (EPrint msg_waiting []) →
  Pev L (ESleep 2) →
  spec L (wait_until_ready sdk fuel dest_mgr name).
Proof.
  intros Hf Hd Hp Hs. induction fuel as [|fuel IH]; simpl.
  - by apply spec_out_of_fuel.
  - repeat first [assumption | spec_step ltac:(first [apply Hd | assumption])].
Qed.

Lemma safe_upsert_body self vectors namespace batch_size name :
  spec safeL
    (ix ← get_or_create_index sdk self;
     num_batches ← math_ceil_div (len vectors) batch_size;
     for_each (py_range num_batches)
       (λ i, index_upsert sdk ix (batch_of vectors batch_size i) namespace);;
     print msg_upserted [VInt (len vectors); VOptStr name]).
Proof. spec_auto ltac:(done). Qed.

(** [upsert_data] returns, whatever the service answers. *)
Lemma upsert_data_returns self vectors namespace batch_size w :
  ∃ w', upsert_data sdk self vectors namespace batch_size w = (Ok tt, w').
Proof.
  unfold upsert_data. destruct vectors as [|v vectors]; simpl.
  - eexists. reflexivity.
  - unfold mbind at 1 2, M_bind, attrs, print. cbn [fst snd].
    edestruct (try_except_returns (A:=unit)) as ([] & w' & E);
      [apply safe_upsert_body| |exists w'; apply E].
    intros cls msg w1. eexists tt, _. reflexivity.
Qed.

End Safety.

(* ================================================================== *)
(** * Batches                                                           *)
(* ================================================================== *)

(** ** The ceiling of a rounded quotient *)

(** [log2_quotient] is below the logarithm of the quotient. *)
Lemma log2_quotient_lower (k b : Z) :
  0 < k → 0 < b →
  let l := log2_quotient k b in
  (0 ≤ l → b * 2 ^ l ≤ k) ∧ (l < 0 → b ≤ k * 2 ^ (- l)).
Proof.
  intros Hk Hb. cbv zeta. unfold log2_quotient.
  set (s := Z.log2 k - Z.log2 b).
  destruct (quotient_reaches k b s) eqn:E.
  - unfold quotient_reaches in E. destruct (Z.leb_spec 0 s); split; lia.
  - clear E.
    pose proof (Z.log2_spec k Hk) as [Hk1 Hk2].
    pose proof (Z.log2_spec b Hb) as [Hb1 Hb2].
    pose proof (Z.log2_nonneg k). pose proof (Z.log2_nonneg b).
    split; intros Hl.
    + (* b < 2^(lb+1), 2^lk <= k, s - 1 = lk - lb - 1 >= 0 *)
      assert (2 ^ Z.log2 k = 2 ^ (Z.log2 b + 1) * 2 ^ (s - 1)) as Hp.
      { rewrite <- Z.pow_add_r by lia. f_equal. lia. }
      assert (0 < 2 ^ (s - 1)) by (apply Z.pow_pos_nonneg; lia).
      nia.
    + assert (2 ^ (Z.log2 b + 1) = 2 ^ Z.log2 k * 2 ^ (- (s - 1))) as Hp.
      { rewrite <- Z.pow_add_r by lia. f_equal. lia. }
      assert (0 < 2 ^ (- (s - 1))) by (apply Z.pow_pos_nonneg; lia).
      nia.
Qed.

(** Rounding a quotient whose mantissa has 53 bits when the numerator
    has at most 53: the ceiling is kept. *)
Lemma ceil_rounded (k b P : Z) (up : bool) :
  0 < k < 2 ^ 53 → 0 < b → 0 < P →
  2 ^ 52 * b ≤ k * P →
  let m := (k * P) / b in
  let r := (k * P) mod b in
  up = ((b <? 2 * r) || ((b =? 2 * r) && Z.odd m)) →
  - ((- (if up then m + 1 else m)) / P) = - ((- k) / b).
Proof.
  intros Hk Hb HP HN m r Hup.
  pose proof (Z.div_mod (k * P) b ltac:(lia)) as Hdm. fold m r in Hdm.
  pose proof (Z.mod_pos_bound (k * P) b Hb) as Hr. fold r in Hr.
  set (n := - ((- k) / b)).
  assert ((n - 1) * b < k ≤ n * b) as Hn.
  { subst n. pose proof (Z.div_mod (- k) b ltac:(lia)).
    pose proof (Z.mod_pos_bound (- k) b Hb). nia. }
  set (m' := if up then m + 1 else m).
  assert ((n - 1) * P < m' ≤ n * P) as Hm'.
  { assert (m ≤ n * P) as Hmle by nia.
    split.
    - destruct (Z.lt_ge_cases ((n - 1) * P) m') as [|Hle]; [done|].
      exfalso.
      assert (m ≤ m') by (subst m'; destruct up; lia).
      assert (m = (n - 1) * P) as Hmeq by nia.
      assert (up = false) as Hf by (subst m'; destruct up; [lia|done]).
      rewrite Hf in Hup. symmetry in Hup.
      apply orb_false_iff in Hup as [Hup _].
      apply Z.ltb_ge in Hup. nia.
    - subst m'. destruct up; [|done].
      destruct (Z.eq_dec m (n * P)) as [Heq|]; [|lia].
      exfalso. symmetry in Hup. apply orb_true_iff in Hup as [Hup|Hup].
      + apply Z.ltb_lt in Hup. nia.
      + apply andb_true_iff in Hup as [Hup _]. apply Z.eqb_eq in Hup. nia. }
  assert (- ((- m') / P) = n); [|done].
  pose proof (Z.div_mod (- m') P ltac:(lia)).
  pose proof (Z.mod_pos_bound (- m') P HP). nia.
Qed.

(** Below 2^53 the ceiling of the rounded quotient is the exact one. *)
Lemma ceil_true_div_exact (k b : Z) :
  0 < k < 2 ^ 53 → 0 < b < 2 ^ 53 → ceil_true_div k b = ceil_div k b.
Proof.
  intros Hk Hb. unfold ceil_true_div, ceil_div.
  destruct (Z.eqb_spec k 0); [lia|].
  assert ((0 <? k) = true) as -> by lia.
  assert ((0 <? b) = true) as -> by lia.
  cbn [Bool.eqb]. rewrite !Z.abs_eq by lia.
  unfold nearest_double.
  pose proof (log2_quotient_lower k b ltac:(lia) ltac:(lia)) as [Hl1 Hl2].
  set (l := log2_quotient k b) in *.
  assert (- 53 ≤ l) as Hlow.
  { subst l. unfold log2_quotient.
    assert (Z.log2 b < 53) by (apply Z.log2_lt_pow2; lia).
    pose proof (Z.log2_nonneg k). destruct (quotient_reaches _ _ _); lia. }
  assert (l ≤ 52) as Hhigh.
  { destruct (Z.le_gt_cases l 52) as [|Hgt]; [done|]. exfalso.
    assert (2 ^ 53 ≤ 2 ^ l) by (apply Z.pow_le_mono_r; lia).
    specialize (Hl1 ltac:(lia)). nia. }
  rewrite Z.max_l by lia.
  assert ((0 <? l - 52) = false) as -> by lia.
  set (P := 2 ^ (- (l - 52))).
  assert (0 < P) by (apply Z.pow_pos_nonneg; lia).
  assert (2 ^ 52 * b ≤ k * P) as HN.
  { subst P. destruct (Z.le_gt_cases 0 l) as [Hl|Hl].
    - specialize (Hl1 Hl).
      assert (2 ^ 52 = 2 ^ l * 2 ^ (- (l - 52))) as ->.
      { rewrite <- Z.pow_add_r by lia. f_equal. lia. }
      nia.
    - specialize (Hl2 Hl).
      assert (2 ^ (- (l - 52)) = 2 ^ 52 * 2 ^ (- l)) as ->.
      { rewrite <- Z.pow_add_r by lia. f_equal. lia. }
      nia. }
  unfold ceil_double.
  destruct (Z.leb_spec 0 (l - 52)) as [H0|H0].
  - assert (l = 52) as Hl by lia.
    assert (P = 1) as HP1 by (subst P; rewrite Hl; reflexivity).
    fold P. rewrite HP1 in *. rewrite Hl. change (2 ^ (52 - 52)) with 1.
    pose proof (ceil_rounded k b 1 _ Hk ltac:(lia) ltac:(lia) HN eq_refl)
      as Hc.
    cbv zeta in Hc. rewrite Z.div_1_r, Z.opp_involutive in Hc.
    rewrite <- Hc. apply Z.mul_1_r.
  - fold P. apply ceil_rounded; [done | lia | done | done | reflexivity].
Qed.

Lemma ceil_true_div_same (k : Z) : 0 < k → ceil_true_div k k = 1.
Proof.
  intros Hk. unfold ceil_true_div.
  destruct (Z.eqb_spec k 0); [lia|].
  rewrite eqb_reflx, Z.abs_eq by lia.
  assert (log2_quotient k k = 0) as Hl.
  { unfold log2_quotient. rewrite Z.sub_diag. unfold quotient_reaches.
    change (0 <=? 0) with true. cbv iota. rewrite Z.pow_0_r, Z.mul_1_r.
    by rewrite Z.leb_refl. }
  unfold nearest_double. rewrite Hl.
  change (Z.max (0 - 52) (-1074)) with (-52).
  change (0 <? -52) with false. cbv iota. change (- -52) with 52.
  rewrite (Z.mul_comm k), Z.div_mul, Z.mod_mul by lia.
  change (2 * 0) with 0.
  assert ((k <? 0) = false) as -> by lia.
  assert ((k =? 0) = false) as -> by lia.
  reflexivity.
Qed.

Lemma nearest_double_nonneg (k b : Z) :
  0 < k → 0 < b → 0 ≤ (nearest_double k b).1.
Proof.
  intros Hk Hb. unfold nearest_double. cbn [fst].
  set (e := Z.max _ _).
  set (num := if 0 <? e then k else _). set (den := if 0 <? e then _ else b).
  assert (0 ≤ num).
  { subst num. destruct (0 <? e); [lia|].
    assert (0 ≤ 2 ^ (- e)) by (apply Z.pow_nonneg; lia). nia. }
  assert (0 < den).
  { subst den. destruct (Z.ltb_spec 0 e); [|lia].
    assert (0 < 2 ^ e) by (apply Z.pow_pos_nonneg; lia). nia. }
  assert (0 ≤ num / den) by (apply Z.div_pos; lia).
  destruct (_ || _); lia.
Qed.

Lemma ceil_true_div_negative (k b : Z) :
  0 < k → b < 0 → ceil_true_div k b ≤ 0.
Proof.
  intros Hk Hb. unfold ceil_true_div.
  destruct (Z.eqb_spec k 0); [lia|].
  assert ((0 <? k) = true) as -> by lia.
  assert ((0 <? b) = false) as -> by lia.
  cbn [Bool.eqb].
  pose proof (nearest_double_nonneg (Z.abs k) (Z.abs b) ltac:(lia) ltac:(lia)).
  destruct (nearest_double _ _) as [m e]. cbn [fst] in *. unfold floor_double.
  destruct (Z.leb_spec 0 e).
  - assert (0 ≤ 2 ^ e) by (apply Z.pow_nonneg; lia). nia.
  - assert (0 < 2 ^ (- e)) by (apply Z.pow_pos_nonneg; lia).
    assert (0 ≤ m / 2 ^ (- e)) by (apply Z.div_pos; lia). lia.
Qed.

(** [ceil_div] is the ceiling of the quotient. *)
Lemma ceil_div_spec (k b : Z) :
  0 < b → (ceil_div k b - 1) * b < k ≤ ceil_div k b * b.
Proof.
  intros Hb. unfold ceil_div.
  pose proof (Z.div_mod (- k) b ltac:(lia)) as Hdm.
  pose proof (Z.mod_pos_bound (- k) b Hb) as Hm.
  nia.
Qed.

Lemma py_range_succ (n : nat) :
  py_range (Z.of_nat (S n)) = (py_range (Z.of_nat n) ++ [Z.of_nat n])%list.
Proof.
  unfold py_range. rewrite !Nat2Z.id, seq_S, map_app. reflexivity.
Qed.

Lemma py_range_length (n : Z) : length (py_range n) = Z.to_nat n.
Proof. unfold py_range. by rewrite length_map, length_seq. Qed.

Lemma py_range_lookup (n : Z) (i : nat) :
  (i < Z.to_nat n)%nat → py_range n !! i = Some (Z.of_nat i).
Proof.
  intros Hi. unfold py_range. rewrite list_lookup_fmap.
  rewrite lookup_seq_lt by done. reflexivity.
Qed.

(** The batch of rank [i], for a rank below the number of batches, is the
    slice of the input between [i * b] and [min ((i + 1) * b) k]. *)
Lemma batch_of_slice (vectors : list VectorRecord) (b : Z) (i : nat) :
  0 < b → Z.of_nat i * b ≤ len vectors →
  batch_of vectors b (Z.of_nat i) =
  take (Z.to_nat (Z.min ((Z.of_nat i + 1) * b) (len vectors))
        - Z.to_nat (Z.of_nat i * b))
       (drop (Z.to_nat (Z.of_nat i * b)) vectors).
Proof.
  intros Hb Hi. unfold batch_of, py_slice, slice_bound. fold (len vectors).
  destruct (Z.ltb_spec (Z.of_nat i * b) 0); [lia|].
  destruct (Z.ltb_spec (Z.min ((Z.of_nat i + 1) * b) (len vectors)) 0);
    [unfold len in *; lia|].
  f_equal; [|f_equal]; lia.
Qed.

Lemma batch_of_length (vectors : list VectorRecord) (b : Z) (i : nat) :
  0 < b → Z.of_nat i * b ≤ len vectors →
  len (batch_of vectors b (Z.of_nat i)) ≤ b.
Proof.
  intros Hb Hi. rewrite batch_of_slice by done. unfold len in *.
  rewrite length_take, length_drop. lia.
Qed.

(** The first [n] batches, put end to end, are the first [n * b] records. *)
Lemma batches_concat (vectors : list VectorRecord) (b : Z) (n : nat) :
  0 < b → (Z.of_nat n - 1) * b < len vectors →
  concat (map (batch_of vectors b) (py_range (Z.of_nat n))) =
  take (Z.to_nat (Z.min (Z.of_nat n * b) (len vectors))) vectors.
Proof.
  intros Hb. induction n as [|n IH]; intros Hn.
  - by rewrite Z.mul_0_l, Z.min_l by (unfold len; lia).
  - rewrite py_range_succ, map_app, concat_app. simpl.
    rewrite app_nil_r, IH by lia.
    assert (Z.of_nat n * b ≤ len vectors) as Hle by lia.
    rewrite batch_of_slice by done.
    rewrite Z.min_l by lia.
    rewrite take_take_drop. f_equal. lia.
Qed.

Lemma events_emit_all es w : events (emit_all es w) = (events w ++ es)%list.
Proof.
  revert w. induction es as [|e es IH]; intros w; simpl.
  - by rewrite app_nil_r.
  - rewrite IH. simpl. by rewrite <- app_assoc.
Qed.

Lemma last_emit e w : last (events (emit e w)) = Some e.
Proof. cbn [events emit]. apply last_snoc. Qed.

Lemma events_since_app w w' new :
  events w' = (events w ++ new)%list → events_since w w' = new.
Proof. intros H. unfold events_since. by rewrite H, drop_app_length. Qed.

Lemma upsert_calls_app t t' :
  upsert_calls (t ++ t') = (upsert_calls t ++ upsert_calls t')%list.
Proof. apply omap_app. Qed.

Lemma upsert_calls_cons e t :
  upsert_calls (e :: t) =
  match e with
  | ECall (CUpsert _ vectors _) => vectors :: upsert_calls t
  | _ => upsert_calls t
  end.
Proof. by destruct e as [| | | |[]]. Qed.

Lemma upsert_calls_no_copy t :
  Forall (λ e, copy_event e = false) t → upsert_calls t = [].
Proof.
  induction 1 as [|e t He _ IH]; [done|].
  rewrite upsert_calls_cons, IH. by destruct e as [| | | |[]].
Qed.

Lemma upsert_calls_map ix ns (batches : list (list VectorRecord)) :
  upsert_calls (map (λ b, ECall (CUpsert ix b ns)) batches) = batches.
Proof.
  induction batches as [|b batches IH]; [done|].
  cbn [map]. by rewrite upsert_calls_cons, IH.
Qed.

(** What a run shows of a computation that respects a logic. *)
Lemma spec_run L {A} (m : M A) w r w' :
  spec L m → m w = (r, w') → Rw L w w'.
Proof. intros H E. destruct (H w) as [Hr _]. by rewrite E in Hr. Qed.

Section Upsert.

Context (sdk : SDK).

Lemma setup_get_or_create_index self :
  spec setupL (get_or_create_index sdk self).
Proof. spec_auto ltac:(done). Qed.

(** When each upsert returns, the loop of [upsert_data] issues one call
    per rank, in order.  The call of a rank is made after the calls of
    the ranks before it. *)
Lemma for_each_upsert ix ns (f : Z → list VectorRecord) (l : list Z) w :
  (∀ i x, l !! i = Some x →
          sdk_index_upsert sdk
            (events w ++ map (λ j, ECall (CUpsert ix (f j) ns)) (take i l))
            ix (f x) ns = Returns tt) →
  for_each l (λ i, index_upsert sdk (Some ix) (f i) ns) w =
  (Ok tt, emit_all (map (λ i, ECall (CUpsert ix (f i) ns)) l) w).
Proof.
  revert w. induction l as [|x l IH]; intros w Hup; [done|].
  cbn [for_each map emit_all foldl]. unfold mbind, M_bind, index_upsert, remote.
  pose proof (Hup 0%nat x eq_refl) as H0. cbn [take map] in H0.
  rewrite app_nil_r in H0. rewrite H0. apply IH.
  intros i y Hy. specialize (Hup (S i) y Hy).
  cbn [take map events emit] in Hup |- *. by rewrite <- app_assoc.
Qed.


(** The loop of [upsert_data] stops at the first call that raises: the
    calls of the ranks up to that one were issued, in order, and no call
    follows. *)
Lemma for_each_upsert_stops ix ns (f : Z → list VectorRecord) (l : list Z)
  w j x cls msg :
  l !! j = Some x →
  (∀ i y, (i < j)%nat → l !! i = Some y →
          sdk_index_upsert sdk
            (events w ++ map (λ r, ECall (CUpsert ix (f r) ns)) (take i l))
            ix (f y) ns = Returns tt) →
  sdk_index_upsert sdk
    (events w ++ map (λ r, ECall (CUpsert ix (f r) ns)) (take j l))
    ix (f x) ns = Throws cls msg →
  for_each l (λ i, index_upsert sdk (Some ix) (f i) ns) w =
  (Raise (Exc cls msg),
   emit_all (map (λ i, ECall (CUpsert ix (f i) ns)) (take (S j) l)) w).
Proof.
  revert w j. induction l as [|y l IH]; intros w j Hj Hbefore Hfail; [done|].
  cbn [for_each]. unfold mbind, M_bind, index_upsert, remote.
  destruct j as [|j].
  - injection Hj as ->. cbn [take map] in Hfail. rewrite app_nil_r in Hfail.
    rewrite Hfail. reflexivity.
  - pose proof (Hbefore 0%nat y ltac:(lia) eq_refl) as H0.
    cbn [take map] in H0. rewrite app_nil_r in H0. rewrite H0.
    cbn [take map emit_all foldl]. apply IH; [done| |].
    + intros i z Hi Hz. specialize (Hbefore (S i) z ltac:(lia) Hz).
      cbn [take map events emit] in Hbefore |- *. by rewrite <- app_assoc.
    + cbn [take map events emit] in Hfail |- *. by rewrite <- app_assoc.
Qed.

(** X8. [upsert_data] stops at the first upsert call that raises.  For
    a non-empty list and a batch size other than 0, when the index is
    obtained, the calls of the ranks before [j] return and the call of
    rank [j] raises, [upsert_data] sends the batches of the ranks 0 to
    [j], in order, and no other: the batches before the failing one stay
    upserted, the batches after it are never sent.  It then reports the
    error and returns. *)
Theorem upsert_calls_prefix self vectors namespace batch_size w ix w1 j
  failing cls msg :
  vectors ≠ [] →
  batch_size ≠ 0 →
  get_or_create_index sdk self
    (emit (EPrint msg_attempting
             [VInt (len vectors); VOptStr (index_name (heap w !!! self));
              VStr namespace; VInt batch_size]) w) = (Ok (Some ix), w1) →
  let batches :=
    map (batch_of vectors batch_size)
        (py_range (ceil_true_div (len vectors) batch_size)) in
  let sent i :=
    map (λ b, ECall (CUpsert ix b namespace)) (take i batches) in
  batches !! j = Some failing →
  (∀ i batch,
     (i < j)%nat → batches !! i = Some batch →
     sdk_index_upsert sdk (events w1 ++ sent i) ix batch namespace
     = Returns tt) →
  sdk_index_upsert sdk (events w1 ++ sent j) ix failing namespace
  = Throws cls msg →
  ∃ w', upsert_data sdk self vectors namespace batch_size w = (Ok tt, w') ∧
        events w' =
          (events w1 ++ sent (S j)
           ++ [EPrint msg_upsert_error [VExc cls msg]])%list ∧
        upsert_calls (events_since w w') = take (S j) batches.
Proof.
  intros Hne Hb Hix batches sent Hj Hbefore Hfail.
  unfold upsert_data. destruct vectors as [|v vectors]; [done|].
  cbn [list_truthy negb].
  set (vs := v :: vectors) in *.
  unfold mbind at 1 2, M_bind, attrs, print. cbn [fst snd].
  apply list_lookup_fmap_Some in Hj as (x & -> & Hx).
  erewrite run_try_exc; cycle 1.
  { rewrite (run_bind_ok _ _ _ _ _ Hix).
    unfold math_ceil_div. destruct (Z.eqb_spec batch_size 0); [lia|].
    unfold mbind at 1, M_bind, mret at 1, M_ret.
    unfold mbind, M_bind.
    rewrite (for_each_upsert_stops ix namespace (batch_of vs batch_size)
               _ w1 j x cls msg Hx); [reflexivity| |].
    - intros i y Hi Hy.
      specialize (Hbefore i (batch_of vs batch_size y) Hi).
      subst sent batches. cbn beta in Hbefore.
      rewrite <- fmap_take, list_lookup_fmap, Hy in Hbefore.
      rewrite <- list_fmap_compose in Hbefore. by apply Hbefore.
    - subst sent batches. cbn beta in Hfail.
      rewrite <- fmap_take, <- list_fmap_compose in Hfail. exact Hfail. }
  unfold print.
  eexists. split; [reflexivity|].
  assert (events (emit (EPrint msg_upsert_error [VExc cls msg])
                    (emit_all
                       (map (λ i, ECall (CUpsert ix (batch_of vs batch_size i)
                                           namespace))
                          (take (S j)
                             (py_range
                                (ceil_true_div (len vs) batch_size)))) w1))
          = (events w1 ++ sent (S j)
             ++ [EPrint msg_upsert_error [VExc cls msg]])%list) as Hev.
  { cbn [events emit]. rewrite events_emit_all, <- app_assoc.
    subst sent batches. cbn beta.
    by rewrite <- fmap_take, <- list_fmap_compose. }
  split; [exact Hev|].
  pose proof (spec_run setupL _ _ _ _ (setup_get_or_create_index self) Hix)
    as (new & Hnew & Hfree).
  cbn [events emit] in Hnew.
  erewrite events_since_app; cycle 1.
  { rewrite Hev, Hnew, <- !app_assoc. reflexivity. }
  rewrite !upsert_calls_app. subst sent. cbn beta.
  rewrite upsert_calls_map.
  rewrite (upsert_calls_no_copy new) by done.
  rewrite !(upsert_calls_cons (EPrint _ _)). simpl. by rewrite app_nil_r.
Qed.

End Upsert.

(* ================================================================== *)
(** * The copy                                                          *)
(* ================================================================== *)

(** Derivations of [spec L m] for the whole program: the recursive
    functions have their own rules. *)
Ltac spec_go leaf :=
  repeat first
    [ assumption
    | apply spec_build_batch
    | apply spec_wait_until_ready; [leaf | intros; leaf | leaf | leaf]
    | spec_step leaf ].

Lemma attempted_records_attempting n args :
  attempted_records [EPrint msg_attempting (VInt n :: args)] = n.
Proof.
  unfold attempted_records, foldr. rewrite bool_decide_eq_true_2 by done. lia.
Qed.

Section Copy.

Context (sdk : SDK).

Lemma total_upsert_data self vectors namespace batch_size :
  spec totalL (upsert_data sdk self vectors namespace batch_size).
Proof. spec_go ltac:(done). Qed.

Lemma count_upsert_body self vectors namespace batch_size name :
  spec countL
    (try_except
       (ix ← get_or_create_index sdk self;
        num_batches ← math_ceil_div (len vectors) batch_size;
        for_each (py_range num_batches)
          (λ i, index_upsert sdk ix (batch_of vectors batch_size i)
                             namespace);;
        print msg_upserted [VInt (len vectors); VOptStr name])
       (λ cls msg, print msg_upsert_error [VExc cls msg])).
Proof. spec_go ltac:(done). Qed.

(** [upsert_data] announces the records it is given, once, and leaves
    [total_migrated] alone. *)
Lemma upsert_data_announces self vectors namespace batch_size w :
  ∃ w' new,
    upsert_data sdk self vectors namespace batch_size w = (Ok tt, w') ∧
    events w' = (events w ++ new)%list ∧
    attempted_records new = len vectors ∧
    total_migrated w' = total_migrated w.
Proof.
  destruct (upsert_data_returns sdk self vectors namespace batch_size w)
    as [w' E].
  pose proof (spec_run totalL _ _ _ _
                (total_upsert_data self vectors namespace batch_size) E)
    as Ht. cbn in Ht.
  exists w'. revert E. unfold upsert_data.
  destruct vectors as [|v vectors]; cbn [list_truthy negb].
  - intros [= <-]. exists [EPrint "No vectors to upsert." []]. done.
  - set (vs := v :: vectors) in *.
    unfold mbind at 1 2, M_bind, attrs, print. cbn [fst snd].
    intros E.
    pose proof (spec_run countL _ _ _ _
                  (count_upsert_body self vs namespace batch_size _) E)
      as (new & Hnew & Hcount).
    cbn [events emit total_migrated] in Hnew, Hcount.
    eexists. rewrite Hnew, <- app_assoc. split; [done|]. split; [reflexivity|].
    split; [|done]. rewrite attempted_records_app.
    rewrite attempted_records_attempting. lia.
Qed.

(** The page counts for what [upsert_data] was given. *)
Lemma count_upsert_and_add self vectors namespace batch_size :
  spec countL
    (upsert_data sdk self vectors namespace batch_size;;
     total ← get_total;
     set_total (total + len vectors)).
Proof.
  intros w.
  destruct (upsert_data_announces self vectors namespace batch_size w)
    as (w1 & new & E & Hev & Hatt & Htot).
  rewrite (run_bind_ok _ _ _ _ _ E).
  unfold mbind, M_bind, get_total, set_total. cbn. split; [|done].
  exists new. cbn. split; [done | lia].
Qed.

Lemma count_copy_page source_index_obj dest_mgr ns id_page :
  spec countL (copy_page sdk source_index_obj dest_mgr ns id_page).
Proof.
  unfold copy_page. cbv zeta.
  repeat first [ apply count_upsert_and_add | apply spec_build_batch
               | spec_step ltac:(done) ].
Qed.

Lemma count_copy_namespace source_index_obj dest_mgr ns :
  spec countL (copy_namespace sdk source_index_obj dest_mgr ns).
Proof. repeat first [apply count_copy_page | spec_step ltac:(done)]. Qed.

Lemma count_copy_loop source_index_obj dest_mgr namespaces :
  spec countL
    (for_each_break namespaces (copy_namespace sdk source_index_obj dest_mgr)).
Proof. apply spec_for_each_break. apply count_copy_namespace. Qed.

Lemma safe_copy_namespace_pages source_index_obj dest_mgr ns :
  spec safeL (copy_namespace_pages sdk source_index_obj dest_mgr ns).
Proof. spec_go ltac:(done). Qed.

(** The body of the loop over the namespaces returns. *)
Lemma copy_namespace_returns source_index_obj dest_mgr ns w :
  ∃ ctl w', copy_namespace sdk source_index_obj dest_mgr ns w = (Ok ctl, w').
Proof.
  unfold copy_namespace. unfold mbind at 1, M_bind, print. cbn [fst snd].
  apply try_except_returns.
  - apply spec_bind; [apply safe_copy_namespace_pages|]. intros. apply spec_ret.
  - intros cls msg w1.
    destruct (is_attribute_error cls); eexists _, _; reflexivity.
Qed.

(** The loop over the namespaces returns. *)
Lemma copy_loop_returns source_index_obj dest_mgr namespaces w :
  ∃ w', for_each_break namespaces
          (copy_namespace sdk source_index_obj dest_mgr) w = (Ok tt, w').
Proof.
  revert w. induction namespaces as [|ns rest IH]; intros w.
  - eexists. reflexivity.
  - cbn [for_each_break].
    destruct (copy_namespace_returns source_index_obj dest_mgr ns w)
      as ([|] & w1 & E); rewrite (run_bind_ok _ _ _ _ _ E).
    + apply IH.
    + eexists. reflexivity.
Qed.

End Copy.

Section Transfer.

Context (sdk : SDK).

Lemma batch_of_whole (vectors : list VectorRecord) :
  vectors ≠ [] → batch_of vectors (len vectors) 0 = vectors.
Proof.
  intros Hne.
  assert (0 < len vectors) by (unfold len; destruct vectors; simpl; [done|lia]).
  pose proof (batch_of_slice vectors (len vectors) 0%nat) as Hs.
  change (Z.of_nat 0) with 0 in Hs. rewrite Hs by lia.
  rewrite Z.min_l by lia. unfold len.
  rewrite Z.mul_0_l, Z.add_0_l, Z.mul_1_l, Nat2Z.id. simpl.
  rewrite Nat.sub_0_r. apply firstn_all.
Qed.

(** When the one batch of a page is refused, [upsert_data] reports the
    error and returns. *)
Lemma upsert_data_refused self vectors namespace ix w2 cls msg w :
  vectors ≠ [] →
  get_or_create_index sdk self
    (emit (EPrint msg_attempting
             [VInt (len vectors); VOptStr (index_name (heap w !!! self));
              VStr namespace; VInt (len vectors)]) w) = (Ok (Some ix), w2) →
  sdk_index_upsert sdk (events w2) ix vectors namespace = Throws cls msg →
  upsert_data sdk self vectors namespace (len vectors) w
  = (Ok tt,
     emit (EPrint msg_upsert_error [VExc cls msg])
       (emit (ECall (CUpsert ix vectors namespace)) w2)).
Proof.
  intros Hne Hix Hup.
  assert (0 < len vectors) as Hk
    by (unfold len; destruct vectors; simpl; [done|lia]).
  unfold upsert_data. destruct vectors as [|v vectors]; [done|].
  cbn [list_truthy negb]. set (vs := v :: vectors) in *.
  unfold mbind at 1 2, M_bind, attrs, print. cbn [fst snd].
  erewrite run_try_exc; [reflexivity|].
  rewrite (run_bind_ok _ _ _ _ _ Hix).
  unfold math_ceil_div. destruct (Z.eqb_spec (len vs) 0); [lia|].
  unfold mbind at 1, M_bind, mret at 1, M_ret.
  rewrite ceil_true_div_same by done.
  change (py_range 1) with [0]. cbn [for_each].
  rewrite batch_of_whole by done.
  unfold mbind, M_bind, index_upsert, remote. by rewrite Hup.
Qed.

(** [copy_data] returns, and the total it reports is the number of
    records it handed to [upsert_data]. *)
Lemma copy_data_reports source_index_obj dest_mgr namespaces w :
  ∃ w', copy_data sdk source_index_obj dest_mgr namespaces w = (Ok tt, w') ∧
        last (events w') =
        Some (EPrint msg_total_migrated
                [VInt (attempted_records (events_since w w'))]).
Proof.
  unfold copy_data. unfold mbind at 1 2, M_bind, print, set_total.
  cbn [fst snd]. set (w0 := with_total 0 _).
  destruct (copy_loop_returns sdk source_index_obj dest_mgr namespaces w0)
    as [w1 E].
  pose proof (spec_run countL _ _ _ _
                (count_copy_loop sdk source_index_obj dest_mgr namespaces) E)
    as (new & Hev & Htot).
  rewrite (run_bind_ok _ _ _ _ _ E).
  unfold mbind, M_bind, get_total. cbn [fst snd].
  eexists. split; [reflexivity|]. rewrite last_emit. do 3 f_equal.
  erewrite events_since_app; cycle 1.
  { cbn [events emit]. rewrite Hev. subst w0. cbn [events emit with_total].
    rewrite <- !app_assoc. reflexivity. }
  rewrite !attempted_records_app. cbn [total_migrated emit].
  rewrite Htot. subst w0. cbn. f_equal.
  repeat case_bool_decide; try done; lia.
Qed.

(** C10. The count of a page enters the total although its upsert
    failed: when the page was fetched and its records built, the
    destination index obtained, and the upsert of the page raises,
    [copy_page] returns normally after [upsert_data] reported the error,
    and [total_migrated] has grown by the number of records of the page.
    Accordingly the total [copy_data] reports at the end is the number of
    records handed to [upsert_data], whatever became of them. *)
Theorem reported_total_counts_attempts
  source_index_obj dest_mgr ns id_page w fetch_resp w1 batch_data ix w2
  cls msg :
  id_page ≠ [] →
  index_fetch sdk source_index_obj id_page ns w = (Ok fetch_resp, w1) →
  build_batch (default [] (fr_vectors fetch_resp)) w1 = (Ok batch_data, w1) →
  batch_data ≠ [] →
  get_or_create_index sdk dest_mgr
    (emit (EPrint msg_attempting
             [VInt (len batch_data);
              VOptStr (index_name (heap w1 !!! dest_mgr));
              VStr ns; VInt (len batch_data)]) w1) = (Ok (Some ix), w2) →
  sdk_index_upsert sdk (events w2) ix batch_data ns = Throws cls msg →
  copy_page sdk source_index_obj dest_mgr ns id_page w
  = (Ok tt,
     with_total (total_migrated w + len batch_data)
       (emit (EPrint msg_upsert_error [VExc cls msg])
          (emit (ECall (CUpsert ix batch_data ns)) w2))) ∧
  (∀ namespaces w0,
     ∃ w', copy_data sdk source_index_obj dest_mgr namespaces w0
           = (Ok tt, w') ∧
           last (events w') =
           Some (EPrint msg_total_migrated
                   [VInt (attempted_records (events_since w0 w'))])).
Proof.
  intros Hpage Hfetch Hbuild Hbatch Hix Hup.
  split; [|apply copy_data_reports].
  assert (total_migrated w1 = total_migrated w) as Ht1.
  { refine (spec_run totalL _ _ _ _ _ Hfetch). spec_go ltac:(done). }
  assert (total_migrated w2 = total_migrated w1) as Ht2.
  { refine (spec_run totalL _ _ _ _ _ Hix). spec_go ltac:(done). }
  unfold copy_page. destruct id_page; [done|]. cbn [list_truthy negb].
  rewrite (run_bind_ok _ _ _ _ _ Hfetch). cbv zeta.
  rewrite (run_bind_ok _ _ _ _ _ Hbuild).
  assert (list_truthy batch_data = true) as ->
    by (by destruct batch_data).
  rewrite (run_bind_ok _ _ _ _ _
             (upsert_data_refused _ _ _ _ _ _ _ _ Hbatch Hix Hup)).
  unfold mbind, M_bind, get_total, set_total.
  cbn [fst snd total_migrated emit]. by rewrite Ht2, Ht1.
Qed.

(** C1. What the loop over the namespaces does with an exception raised
    while a namespace is processed.  An exception that is not an instance
    of [AttributeError] is caught and logged, and the loop goes on with
    the remaining namespaces, in order, exactly as if it had started with
    them; what the namespace had counted before it failed stays in
    [total_migrated], and what the later namespaces hand to [upsert_data]
    is added to it.  An instance of [AttributeError], whichever statement
    of the body raised it and whether or not index objects can list their
    ids, is taken for the missing capability: the message says that the
    source index does not support listing ids, the loop ends there, and
    the remaining namespaces are not attempted. *)
Theorem namespace_failure_handling
  source_index_obj dest_mgr ns rest w cls msg w1 :
  copy_namespace_pages sdk source_index_obj dest_mgr ns
    (emit (EPrint msg_processing_namespace [VStr (ns_label_of ns)]) w)
  = (Raise (Exc cls msg), w1) →
  (is_attribute_error cls = false →
   let w2 :=
     emit (ETraceback cls msg)
       (emit (EPrint msg_namespace_error [VStr (ns_label_of ns); VExc cls msg])
             w1) in
   for_each_break (ns :: rest) (copy_namespace sdk source_index_obj dest_mgr) w
   = for_each_break rest (copy_namespace sdk source_index_obj dest_mgr) w2 ∧
   ∃ w', for_each_break rest (copy_namespace sdk source_index_obj dest_mgr) w2
         = (Ok tt, w') ∧
         total_migrated w' =
         total_migrated w1 + attempted_records (events_since w2 w')) ∧
  (is_attribute_error cls = true →
   for_each_break (ns :: rest) (copy_namespace sdk source_index_obj dest_mgr) w
   = (Ok tt, emit (EPrint msg_no_list_support []) w1)).
Proof.
  intros Hraise. split; intros Hcls.
  - intros w2. split.
    + assert (copy_namespace sdk source_index_obj dest_mgr ns w
              = (Ok Next, w2)) as E.
      { unfold copy_namespace. unfold mbind at 1, M_bind, print.
        cbn [fst snd].
        erewrite run_try_exc; [|apply run_bind_raise, Hraise].
        by rewrite Hcls. }
      cbn [for_each_break]. by rewrite (run_bind_ok _ _ _ _ _ E).
    + destruct (copy_loop_returns sdk source_index_obj dest_mgr rest w2)
        as [w' E].
      exists w'. split; [done|].
      pose proof (spec_run countL _ _ _ _
                    (count_copy_loop sdk source_index_obj dest_mgr rest) E)
        as (new & Hev & Htot).
      by rewrite (events_since_app _ _ _ Hev).
  - assert (copy_namespace sdk source_index_obj dest_mgr ns w
            = (Ok Break, emit (EPrint msg_no_list_support []) w1)) as E.
    { unfold copy_namespace. unfold mbind at 1, M_bind, print. cbn [fst snd].
      erewrite run_try_exc; [|apply run_bind_raise, Hraise].
      by rewrite Hcls. }
    cbn [for_each_break]. by rewrite (run_bind_ok _ _ _ _ _ E).
Qed.

(** The steps of [migrate], one after the other. *)
Lemma migrate_steps fuel source_key source_index_name dest_key
  dest_index_name w source_mgr source_dim source_metric source_index_obj w1
  dest_mgr w2 namespaces w3 :
  connect_source sdk source_key source_index_name w
  = (Ok (source_mgr, source_dim, source_metric, source_index_obj), w1) →
  connect_destination sdk fuel source_dim source_metric dest_key
    dest_index_name w1 = (Ok dest_mgr, w2) →
  prepare_migration sdk source_mgr w2 = (Ok namespaces, w3) →
  migrate sdk fuel source_key source_index_name dest_key dest_index_name w
  = copy_data sdk source_index_obj dest_mgr namespaces w3.
Proof.
  intros H1 H2 H3. unfold migrate.
  rewrite (run_bind_ok _ _ _ _ _ H1). cbv beta iota.
  rewrite (run_bind_ok _ _ _ _ _ H2), (run_bind_ok _ _ _ _ _ H3). done.
Qed.

(** C2. When index objects have no [list] operation, the copy stops at
    the first namespace: the capability error is reported, no other
    namespace is started, nothing is listed, fetched or upserted, and
    [migrate] still prints its summary and returns. *)
Theorem missing_list_aborts_transfer fuel source_key source_index_name
  dest_key dest_index_name w source_mgr source_dim source_metric
  source_index_obj w1 dest_mgr w2 ns rest w3 :
  sdk_index_list sdk = None →
  connect_source sdk source_key source_index_name w
  = (Ok (source_mgr, source_dim, source_metric, source_index_obj), w1) →
  connect_destination sdk fuel source_dim source_metric dest_key
    dest_index_name w1 = (Ok dest_mgr, w2) →
  prepare_migration sdk source_mgr w2 = (Ok (ns :: rest), w3) →
  ∃ w', migrate sdk fuel source_key source_index_name dest_key
          dest_index_name w = (Ok tt, w') ∧
        events w' =
        (events w3
         ++ [EPrint msg_start_copy [];
             EPrint msg_processing_namespace [VStr (ns_label_of ns)];
             EPrint msg_no_list_support [];
             EPrint msg_complete [];
             EPrint msg_total_migrated [VInt 0]])%list.
Proof.
  intros Hlist H1 H2 H3.
  rewrite (migrate_steps _ _ _ _ _ _ _ _ _ _ _ _ _ _ _ H1 H2 H3).
  assert (∀ w0, copy_namespace sdk source_index_obj dest_mgr ns w0
                = (Ok Break,
                   emit (EPrint msg_no_list_support [])
                     (emit (EPrint msg_processing_namespace
                              [VStr (ns_label_of ns)]) w0))) as Hns.
  { intros w0.
    assert (∀ w', ∃ msg,
              copy_namespace_pages sdk source_index_obj dest_mgr ns w'
              = (Raise (Exc AttributeError msg), w')) as Hraise.
    { intros w'. unfold copy_namespace_pages, index_list.
      destruct source_index_obj; rewrite ?Hlist; eexists; reflexivity. }
    unfold copy_namespace.
    unfold mbind at 1, M_bind, print. cbn [fst snd].
    destruct (Hraise (emit (EPrint msg_processing_namespace
                              [VStr (ns_label_of ns)]) w0)) as [msg E].
    by rewrite (run_try_exc _ _ _ _ _ _ (run_bind_raise _ _ _ _ _ E)). }
  unfold copy_data. unfold mbind at 1 2, M_bind, print, set_total.
  cbn [fst snd for_each_break].
  erewrite run_bind_ok; [|by erewrite run_bind_ok; [|apply Hns]].
  eexists. split; [reflexivity|].
  cbn. rewrite <- !app_assoc. reflexivity.
Qed.

End Transfer.

(* ================================================================== *)
(** * The steps before the copy                                         *)
(* ================================================================== *)

(** The conditions of [setupL] on an event and on an exit. *)
Ltac setup_leaf :=
  first
    [ done
    | by (split; [done|]; eexists _, _;
          split; [apply last_emit | unfold fatal_messages; set_solver]) ].

Section Setup.

Context (sdk : SDK).

Lemma setup_connect_source source_key source_index_name :
  spec setupL (connect_source sdk source_key source_index_name).
Proof. spec_go setup_leaf. Qed.

Lemma setup_connect_destination fuel source_dim source_metric dest_key
  dest_index_name :
  spec setupL
    (connect_destination sdk fuel source_dim source_metric dest_key
       dest_index_name).
Proof. spec_go setup_leaf. Qed.

Lemma setup_describe_index_stats self :
  spec setupL (describe_index_stats sdk self).
Proof. spec_go ltac:(done). Qed.

Lemma safe_stats_body self :
  spec safeL
    (ix ← get_or_create_index sdk self;
     stats ← index_describe_index_stats sdk ix;
     mret (Some stats)).
Proof. spec_go ltac:(done). Qed.

(** [describe_index_stats] returns [None] only after it reported an
    error. *)
Lemma describe_index_stats_none self w w' :
  describe_index_stats sdk self w = (Ok None, w') →
  ∃ cls msg, last (events w') = Some (EPrint msg_stats_error [VExc cls msg]).
Proof.
  unfold describe_index_stats.
  destruct (safe_cases _ w (safe_stats_body self))
    as [(a & w1 & E)|(cls & msg & w1 & E)].
  - rewrite (run_try_ok _ _ _ _ _ E).
    revert E. unfold mbind, M_bind.
    destruct (get_or_create_index sdk self w) as [[ix|e|] w2]; [|done..].
    destruct (index_describe_index_stats sdk ix w2) as [[s|e|] w3]; [|done..].
    by intros [= <- <-].
  - rewrite (run_try_exc _ _ _ _ _ _ E). intros [= <-].
    exists cls, msg. apply last_emit.
Qed.

(** C3. With a stats object at hand, the namespaces [migrate] goes
    through are the keys of the per-namespace mapping, in its order,
    except when the total count is positive and the mapping is empty or
    [None]: then they are the single default namespace [""].  In
    particular a total of zero with an empty mapping gives no
    namespace. *)
Theorem namespaces_of_stats source_mgr w stats w1 :
  describe_index_stats sdk source_mgr (emit (EPrint msg_preparing []) w)
  = (Ok (Some stats), w1) →
  let mapping := default [] (st_namespaces stats) in
  let total := st_total_vector_count stats in
  ∃ namespaces w',
    prepare_migration sdk source_mgr w = (Ok namespaces, w') ∧
    (0 < total → mapping = [] → namespaces = [""]) ∧
    (¬ (0 < total ∧ mapping = []) → namespaces = map fst mapping) ∧
    (total = 0 → mapping = [] → namespaces = []).
Proof.
  intros Hstats mapping total.
  exists (default_namespace total (stats_namespaces (Some stats))). eexists.
  split.
  { unfold prepare_migration. unfold mbind at 1, M_bind, print.
    cbn [fst snd]. rewrite (run_bind_ok _ _ _ _ _ Hstats). reflexivity. }
  assert (stats_namespaces (Some stats) = map fst mapping) as ->.
  { subst mapping. unfold stats_namespaces.
    destruct (st_namespaces stats) as [[|p l]|]; reflexivity. }
  unfold default_namespace.
  destruct (Z.ltb_spec 0 total) as [Hpos|Hneg]; destruct mapping as [|p l];
    cbn; repeat split; intros; try done; try lia.
  exfalso. tauto.
Qed.

(** C8. When [describe_index_stats] returns [None] for the source,
    [migrate] does not exit with a status: the namespace expression
    accepts [None], then reading [total_vector_count] on [None] raises
    [AttributeError], which nothing catches.  The last thing reported is
    the error of the statistics, and no step of the copy took place. *)
Theorem null_stats_crash fuel source_key source_index_name dest_key
  dest_index_name w source_mgr source_dim source_metric source_index_obj w1
  dest_mgr w2 w3 :
  connect_source sdk source_key source_index_name w
  = (Ok (source_mgr, source_dim, source_metric, source_index_obj), w1) →
  connect_destination sdk fuel source_dim source_metric dest_key
    dest_index_name w1 = (Ok dest_mgr, w2) →
  describe_index_stats sdk source_mgr (emit (EPrint msg_preparing []) w2)
  = (Ok None, w3) →
  stats_namespaces None = [] ∧
  migrate sdk fuel source_key source_index_name dest_key dest_index_name w
  = (Raise (Exc AttributeError (none_has_no "total_vector_count")), w3) ∧
  (∃ cls msg,
     last (events w3) = Some (EPrint msg_stats_error [VExc cls msg])) ∧
  extends_without_copy (events w) (events w3).
Proof.
  intros H1 H2 H3. split; [done|]. split; [|split].
  - unfold migrate. rewrite (run_bind_ok _ _ _ _ _ H1). cbv beta iota.
    rewrite (run_bind_ok _ _ _ _ _ H2).
    erewrite run_bind_raise; [reflexivity|].
    unfold prepare_migration. unfold mbind at 1, M_bind, print.
    cbn [fst snd]. by rewrite (run_bind_ok _ _ _ _ _ H3).
  - by apply (describe_index_stats_none source_mgr _ _ H3).
  - pose proof (spec_run setupL _ _ _ _
                  (setup_connect_source source_key source_index_name) H1).
    pose proof (spec_run setupL _ _ _ _
                  (setup_connect_destination fuel source_dim source_metric
                     dest_key dest_index_name) H2).
    pose proof (spec_run setupL _ _ _ _
                  (setup_describe_index_stats source_mgr) H3).
    eapply (Rw_trans setupL); [eassumption|].
    eapply (Rw_trans setupL); [eassumption|].
    eapply (Rw_trans setupL); [|eassumption].
    by apply (Rw_emit setupL).
Qed.

Lemma py_in_entries_false x entries : py_in_entries x entries = false.
Proof. unfold py_in_entries. by induction entries. Qed.

(** C6 (what the code does). [delete_index] looks for the name of the
    index among the entries of [pc.list_indexes()] themselves, which are
    descriptions and not names, so it never finds it: whatever the
    listing returns, it deletes nothing, reports the index as absent and
    keeps the cached connection. *)
Theorem delete_index_never_deletes self w entries :
  sdk_list_indexes sdk (events w) (pc (heap w !!! self)) = Returns entries →
  delete_index sdk self w
  = (Ok tt,
     emit (EPrint msg_index_absent [VOptStr (index_name (heap w !!! self))])
       (emit (ECall (CListIndexes (pc (heap w !!! self)))) w)).
Proof.
  intros Hlist. unfold delete_index, attrs, pc_list_indexes, remote.
  unfold mbind, M_bind. cbn [fst snd]. rewrite Hlist.
  by rewrite py_in_entries_false.
Qed.

End Setup.

(* ================================================================== *)
(** * Construction of a manager                                         *)
(* ================================================================== *)

Section Construction.

Context (sdk : SDK).

(** [__init__] reads the key and the name in the environment of the
    moment; the new object sits at the end of the heap. *)
Lemma init_captures_environment w r w' :
  PineconeManager_init sdk w = (Ok r, w') →
  r = length (heap w) ∧
  environ w' = environ w ∧
  ∃ m, heap w' = (heap w ++ [m])%list ∧
       api_key m = environ w !! "PINECONE_API_KEY" ∧
       index_name m = environ w !! "PINECONE_INDEX_NAME" ∧
       pc m = {| pc_api_key := environ w !! "PINECONE_API_KEY" |} ∧
       index m = None.
Proof.
  unfold PineconeManager_init, os_getenv, Pinecone_new, new_object.
  unfold try_except, OpenAI_new, remote, print.
  unfold mbind, M_bind, mret, M_ret. cbn [fst snd].
  destruct (sdk_Pinecone sdk _ _) as [[]|cls msg]; [|done].
  destruct (environ w !! "OPENAI_API_KEY") as [k|] eqn:Ek;
    [destruct (str_truthy k);
     [destruct (sdk_OpenAI sdk _ _) as [[]|cls msg]|]|];
    cbn; intros [= <- <-]; cbn; eauto 10.
Qed.

End Construction.

Section Destination.

Context (sdk : SDK).

(** With the destination listed under a dimension that is not the one
    of the source, step 2 exits with status 1 right after it reported
    the two dimensions. *)
Lemma connect_destination_mismatch fuel source_dim source_metric dest_key
  dest_index_name w dest_mgr wB entries dest_desc :
  let client := {| pc_api_key := Some dest_key |} in
  PineconeManager_init sdk (destination_environment dest_key dest_index_name w)
  = (Ok dest_mgr, wB) →
  sdk_list_indexes sdk (events wB) client = Returns entries →
  dest_index_name ∈ map im_name entries →
  sdk_describe_index sdk
    (events (emit (EPrint msg_destination_exists [VStr dest_index_name])
               (emit (ECall (CListIndexes client)) wB)))
    client dest_index_name = Returns dest_desc →
  im_dimension dest_desc ≠ source_dim →
  ∃ w', connect_destination sdk fuel source_dim source_metric dest_key
          dest_index_name w = (Raise (SystemExit 1), w') ∧
        last (events w') =
        Some (EPrint msg_mismatch_dest [VInt (im_dimension dest_desc)]).
Proof.
  intros client EB Hlist Hin Hdesc Hdim.
  unfold connect_destination.
  unfold mbind at 1 2 3, M_bind, print, os_environ_set. cbn [fst snd].
  fold (destination_environment dest_key dest_index_name w).
  destruct (init_captures_environment sdk _ _ _ EB)
    as (-> & _ & m & Hheap & _ & _ & Hpcm & _).
  unfold destination_environment in Hpcm. cbn [environ with_environ] in Hpcm.
  rewrite lookup_insert_ne, lookup_insert_eq in Hpcm by done.
  fold client in Hpcm.
  set (wA := destination_environment dest_key dest_index_name w) in *.
  assert (heap wB !!! length (heap wA) = m) as Hm
    by (rewrite Hheap; by apply list_lookup_total_middle).
  rewrite (run_bind_ok _ _ _ _ _ EB).
  erewrite run_bind_ok; cycle 1.
  { unfold list_indexes, attrs, pc_list_indexes, remote.
    unfold mbind, M_bind, mret, M_ret. cbn [fst snd].
    rewrite Hm, Hpcm, Hlist. reflexivity. }
  rewrite bool_decide_eq_true_2 by done.
  eexists. split.
  - apply run_bind_raise. unfold mbind at 1, M_bind, print. cbn [fst snd].
    apply run_try_exit.
    unfold attrs, pc_describe_index, remote, sys_exit, raise.
    unfold mbind, M_bind, mret, M_ret. cbn [fst snd heap emit].
    rewrite Hm, Hpcm. unfold client in *.
    cbn [events emit] in Hdesc |- *. rewrite Hdesc.
    destruct (Z.eqb_spec (im_dimension dest_desc) source_dim); [done|].
    reflexivity.
  - apply last_emit.
Qed.

(** C5. If, once the source is connected, the manager of the destination
    is built, the listing of the destination account contains the
    destination index, and its description has a dimension that differs
    from the one read from the source, then [migrate] exits with status 1
    from step 2: the last thing it printed is the dimension of the
    destination, no event of the copy took place, and in particular no
    upsert was issued. *)
Theorem dimension_mismatch_aborts fuel source_key source_index_name dest_key
  dest_index_name w source_mgr source_dim source_metric source_index_obj w1
  dest_mgr wB entries dest_desc :
  let client := {| pc_api_key := Some dest_key |} in
  connect_source sdk source_key source_index_name w
  = (Ok (source_mgr, source_dim, source_metric, source_index_obj), w1) →
  PineconeManager_init sdk
    (destination_environment dest_key dest_index_name w1)
  = (Ok dest_mgr, wB) →
  sdk_list_indexes sdk (events wB) client = Returns entries →
  dest_index_name ∈ map im_name entries →
  sdk_describe_index sdk
    (events (emit (EPrint msg_destination_exists [VStr dest_index_name])
               (emit (ECall (CListIndexes client)) wB)))
    client dest_index_name = Returns dest_desc →
  im_dimension dest_desc ≠ source_dim →
  ∃ w', migrate sdk fuel source_key source_index_name dest_key
          dest_index_name w = (Raise (SystemExit 1), w') ∧
        last (events w') =
        Some (EPrint msg_mismatch_dest [VInt (im_dimension dest_desc)]) ∧
        extends_without_copy (events w) (events w') ∧
        upsert_calls (events_since w w') = [].
Proof.
  intros client H1 EB Hlist Hin Hdesc Hdim.
  destruct (connect_destination_mismatch fuel source_dim source_metric
              dest_key dest_index_name w1 dest_mgr wB entries dest_desc
              EB Hlist Hin Hdesc Hdim) as (w' & H2 & Hlast).
  assert (extends_without_copy (events w) (events w')) as Hext.
  { eapply (Rw_trans setupL).
    - exact (spec_run setupL _ _ _ _
               (setup_connect_source sdk source_key source_index_name) H1).
    - exact (spec_run setupL _ _ _ _
               (setup_connect_destination sdk fuel source_dim source_metric
                  dest_key dest_index_name) H2). }
  exists w'. split; [|split; [done|split; [done|]]].
  - unfold migrate. rewrite (run_bind_ok _ _ _ _ _ H1). cbv beta iota.
    by rewrite (run_bind_raise _ _ _ _ _ H2).
  - destruct Hext as (new & Hnew & Hfree).
    rewrite (events_since_app _ _ _ Hnew). by apply upsert_calls_no_copy.
Qed.

End Destination.

(* ================================================================== *)
(** * The exit status                                                   *)
(* ================================================================== *)

Lemma ends_well_bind {A} (m : M A) (f : A → M unit) w r w' :
  spec setupL m →
  (∀ a w1, f a w1 = (r, w') → ends_well w1 r w') →
  (m ≫= f) w = (r, w') →
  ends_well w r w'.
Proof.
  intros Hm Hf. unfold mbind, M_bind. destruct (Hm w) as [Hrw Hres].
  destruct (m w) as [[a|[c|cls msg]|] w1]; cbn in Hrw, Hres.
  - intros E. destruct (Hf a w1 E) as [H1 H2]. split; [|done].
    intros Hr. eapply (Rw_trans setupL); [exact Hrw | by apply H1].
  - intros [= <- <-]. split; [done|]. by intros c' [= <-].
  - intros [= <- <-]. split; done.
  - intros [= <- <-]. split; done.
Qed.

Section Exit.

Context (sdk : SDK).

Lemma setup_prepare_migration source_mgr :
  spec setupL (prepare_migration sdk source_mgr).
Proof. spec_go setup_leaf. Qed.

Lemma migrate_ends_well fuel source_key source_index_name dest_key
  dest_index_name w r w' :
  migrate sdk fuel source_key source_index_name dest_key dest_index_name w
  = (r, w') →
  ends_well w r w'.
Proof.
  unfold migrate.
  apply ends_well_bind; [apply setup_connect_source|].
  intros [[[source_mgr source_dim] source_metric] source_index_obj] w1.
  apply ends_well_bind; [apply setup_connect_destination|].
  intros dest_mgr w2.
  apply ends_well_bind; [apply setup_prepare_migration|].
  intros namespaces w3 E.
  destruct (copy_data_reports sdk source_index_obj dest_mgr namespaces w3)
    as (w4 & E' & _).
  rewrite E' in E. injection E as <- <-. split; done.
Qed.

Lemma list_indexes_inv self w names w1 :
  list_indexes sdk self w = (Ok names, w1) →
  ∃ entries,
    sdk_list_indexes sdk (events w) (pc (heap w !!! self)) = Returns entries ∧
    names = map im_name entries ∧
    w1 = emit (ECall (CListIndexes (pc (heap w !!! self)))) w.
Proof.
  unfold list_indexes. rewrite run_attrs.
  unfold pc_list_indexes, remote, mbind, M_bind.
  destruct (sdk_list_indexes sdk _ _) as [entries|cls msg]; [|done].
  intros [= <- <-]. by exists entries.
Qed.

(** The client of a manager built once the key is set. *)
Lemma init_client key name w mgr w1 :
  PineconeManager_init sdk
    (with_environ (insert "PINECONE_INDEX_NAME" name)
       (with_environ (insert "PINECONE_API_KEY" key) w))
  = (Ok mgr, w1) →
  pc (heap w1 !!! mgr) = {| pc_api_key := Some key |}.
Proof.
  intros EI.
  destruct (init_captures_environment sdk _ _ _ EI)
    as (-> & _ & m & Hheap & _ & _ & Hpcm & _).
  cbn [environ with_environ] in Hpcm.
  rewrite lookup_insert_ne, lookup_insert_eq in Hpcm by done.
  rewrite Hheap, <- Hpcm. f_equal. by apply list_lookup_total_middle.
Qed.

Lemma noexit_init : spec noexitL (PineconeManager_init sdk).
Proof. spec_go ltac:(done). Qed.

Lemma noexit_list_indexes self : spec noexitL (list_indexes sdk self).
Proof. spec_go ltac:(done). Qed.

Lemma noexit_get_or_create_index self :
  spec noexitL (get_or_create_index sdk self).
Proof. spec_go ltac:(done). Qed.

Lemma noexit_prepare_migration source_mgr :
  spec noexitL (prepare_migration sdk source_mgr).
Proof. spec_go ltac:(done). Qed.

Lemma noexit_copy_data source_index_obj dest_mgr namespaces :
  spec noexitL (copy_data sdk source_index_obj dest_mgr namespaces).
Proof. spec_go ltac:(done). Qed.

(** What the [try] block of step 1 does with the description of the
    source. *)
Lemma connect_source_cases source_key name w r w' :
  let client := {| pc_api_key := Some source_key |} in
  connect_source sdk source_key name w = (r, w') →
  (∃ trace entries,
     r = Raise (SystemExit 1) ∧
     sdk_list_indexes sdk trace client = Returns entries ∧
     (name ∉ map im_name entries) ∧
     events w' =
       (trace ++ [ECall (CListIndexes client);
                  EPrint msg_source_not_found
                    [VStr name; VList (map im_name entries)]])%list)
  ∨ (∃ trace cls msg,
       r = Raise (SystemExit 1) ∧
       sdk_describe_index sdk trace client name = Throws cls msg ∧
       events w' =
         (trace ++ [ECall (CDescribeIndex client name);
                    EPrint msg_source_details_error [VExc cls msg]])%list)
  ∨ ((∀ c, r ≠ Raise (SystemExit c)) ∧
     (∀ source_mgr source_dim source_metric source_index_obj,
        r = Ok (source_mgr, source_dim, source_metric, source_index_obj) →
        EPrint msg_source_config [VInt source_dim; VStr source_metric]
        ∈ events w')).
Proof.
  intros client. unfold connect_source.
  rewrite run_print, !run_environ_set.
  unfold mbind at 1, M_bind.
  match goal with
  | |- context [PineconeManager_init sdk ?w] =>
      pose proof (noexit_init w) as [_ Hinit];
      destruct (PineconeManager_init sdk w) as [[mgr|[c|cls msg]|] w1] eqn:EI
  end;
    cbn in Hinit; try done;
    try (intros [= <- <-]; right; right; split; [done|done]).
  apply init_client in EI. fold client in EI.
  unfold mbind at 1, M_bind.
  pose proof (noexit_list_indexes mgr w1) as [_ Hlist].
  destruct (list_indexes sdk mgr w1) as [[names|[c|cls msg]|] w2] eqn:EL;
    cbn in Hlist; try done;
    try (intros [= <- <-]; right; right; split; [done|done]).
  apply list_indexes_inv in EL as (entries & Hentries & -> & ->).
  rewrite EI in *.
  case_bool_decide as Hin; cbn [negb].
  - rewrite run_ret.
    unfold mbind at 1, M_bind, try_except.
    unfold mbind at 1 2, M_bind, attrs, pc_describe_index, remote.
    cbn [fst snd heap emit]. rewrite EI.
    destruct (sdk_describe_index sdk _ _ _) as [desc|cls msg] eqn:Ed.
    + rewrite run_print_ret. cbv beta iota.
      set (w3 := emit (EPrint _ _) _).
      unfold mbind at 1, M_bind.
      pose proof (noexit_get_or_create_index mgr w3) as [_ Hget].
      destruct (events_grow (get_or_create_index sdk mgr) w3
                  ltac:(spec_go ltac:(done))) as [new Hnew].
      destruct (get_or_create_index sdk mgr w3) as [[ix|[c|cls msg]|] w4];
        cbn in Hget; try done;
        try (intros [= <- <-]; right; right; split; [done|done]).
      intros [= <- <-]. right. right. split; [done|].
      intros ? ? ? ? [= <- <- <- <-].
      cbn [snd] in Hnew. rewrite Hnew. subst w3. cbn [events emit].
      apply list_elem_of_In, in_or_app. left. apply in_or_app. right.
      simpl. tauto.
    + unfold print, sys_exit, raise, mbind, M_bind. cbn [fst snd].
      intros [= <- <-]. right. left.
      eexists _, cls, msg. split; [done|]. split; [exact Ed|].
      cbn [events emit]. by rewrite <- app_assoc.
  - unfold print, sys_exit, raise, mbind, M_bind. cbn [fst snd].
    intros [= <- <-]. left.
    eexists _, entries. split; [done|]. split; [exact Hentries|].
    split; [done|]. cbn [events emit]. by rewrite <- app_assoc.
Qed.

(** Step 2 exits only on a destination whose description was read and
    has a dimension that is not the one of the source. *)
Lemma connect_destination_exit fuel source_dim source_metric dest_key name
  w c w' :
  connect_destination sdk fuel source_dim source_metric dest_key name w
  = (Raise (SystemExit c), w') →
  c = 1 ∧
  ∃ new dest_desc,
    sdk_describe_index sdk (events w ++ new) {| pc_api_key := Some dest_key |}
      name = Returns dest_desc ∧
    im_dimension dest_desc ≠ source_dim ∧
    events w' =
      ((events w ++ new)
       ++ [ECall (CDescribeIndex {| pc_api_key := Some dest_key |} name);
           EPrint msg_dimension_mismatch [];
           EPrint msg_mismatch_source [VInt source_dim];
           EPrint msg_mismatch_dest [VInt (im_dimension dest_desc)]])%list.
Proof.
  unfold connect_destination.
  rewrite run_print, !run_environ_set.
  set (w0 := with_environ _ _). intros E.
  apply run_bind_exit in E as (mgr & w1 & E1 & E); [|apply noexit_init].
  destruct (events_grow (PineconeManager_init sdk) w0
              ltac:(spec_go ltac:(done))) as [n1 Hn1].
  rewrite E1 in Hn1. cbn [snd] in Hn1.
  apply init_client in E1.
  apply run_bind_exit in E as (names & w2 & E2 & E);
    [|apply noexit_list_indexes].
  apply list_indexes_inv in E2 as (entries & Hentries & -> & ->).
  apply run_bind_exit_cases in E as [E|(? & ? & _ & E)]; [|done].
  case_bool_decide as Hin.
  - rewrite run_print in E. unfold try_except in E.
    unfold mbind at 1 2, M_bind, attrs, pc_describe_index, remote in E.
    cbn [fst snd heap emit] in E. rewrite E1 in E.
    destruct (sdk_describe_index sdk _ _ _) as [desc|cls msg] eqn:Ed;
      [|done].
    destruct (Z.eqb_spec (im_dimension desc) source_dim) as [|Hdim];
      [done|].
    cbn [negb] in E.
    unfold print, sys_exit, raise, mbind, M_bind in E. cbn [fst snd] in E.
    injection E as <- <-. split; [done|].
    eexists (_ :: n1 ++ [_; _])%list, desc.
    split; [|split; [done|]].
    + rewrite <- Ed. f_equal. cbn [events emit]. rewrite Hn1.
      subst w0. cbn [events emit with_environ].
      rewrite <- !app_assoc. cbn [app]. by rewrite <- ?app_assoc.
    + cbn [events emit]. rewrite Hn1. subst w0.
      cbn [events emit with_environ]. rewrite <- !app_assoc. cbn [app].
      by rewrite <- !app_assoc.
  - exfalso. revert E. apply no_exit. spec_go ltac:(done).
Qed.

(** [migrate] exits with status 1, and for one of three reasons: the
    source index is not in the listing, its description could not be
    read, or the destination has another dimension. *)
Lemma migrate_exit fuel source_key source_index_name dest_key
  dest_index_name w c w' :
  migrate sdk fuel source_key source_index_name dest_key dest_index_name w
  = (Raise (SystemExit c), w') →
  c = 1 ∧
  ∀ argv w0,
    key_of w0 "PINECONE_SOURCE_API_KEY" = source_key →
    key_of w0 "PINECONE_DEST_API_KEY" = dest_key →
    source_name argv w0 = Some source_index_name →
    dest_name argv w0 = Some dest_index_name →
    fatal_condition sdk argv w0 w'.
Proof.
  unfold migrate. unfold mbind at 1, M_bind.
  destruct (connect_source sdk source_key source_index_name w)
    as [r w1] eqn:E1.
  apply connect_source_cases in E1
    as [(trace & entries & -> & Hl & Hin & Hev)
       |[(trace & cls & msg & -> & Hd & Hev)|[Hne Hok]]].
  - intros [= <- <-]. split; [done|]. intros argv w0 <- _ Hs _.
    by eapply fatal_not_found.
  - intros [= <- <-]. split; [done|]. intros argv w0 <- _ Hs _.
    by eapply fatal_unreadable.
  - destruct r as [[[[source_mgr source_dim] source_metric] source_index_obj]
                  |e|]; [|intros [= -> ->]; by destruct (Hne c)|done].
    specialize (Hok _ _ _ _ eq_refl). intros E.
    apply run_bind_exit_cases in E as [E|(dest_mgr & w2 & _ & E)].
    + apply connect_destination_exit in E
        as (-> & new & desc & Hd & Hdim & Hev).
      split; [done|]. intros argv w0 _ <- _ Hdn.
      eapply fatal_mismatch; [exact Hdn| |exact Hd|exact Hdim|exact Hev].
      apply list_elem_of_In, in_or_app. left. by apply list_elem_of_In.
    + exfalso.
      apply run_bind_exit in E as (namespaces & w3 & _ & E);
        [|apply noexit_prepare_migration].
      revert E. apply no_exit, noexit_copy_data.
Qed.

(** [main] exits only under one of the five fatal conditions. *)
Lemma main_exit fuel argv w c w' :
  main sdk fuel argv w = (Raise (SystemExit c), w') →
  c = 1 ∧ fatal_condition sdk argv w w'.
Proof.
  unfold main. rewrite !run_environ_get.
  fold (key_of w "PINECONE_SOURCE_API_KEY").
  fold (key_of w "PINECONE_DEST_API_KEY").
  destruct (str_truthy (key_of w "PINECONE_SOURCE_API_KEY")) eqn:Ks;
    [destruct (str_truthy (key_of w "PINECONE_DEST_API_KEY")) eqn:Kd|];
    cbn [negb orb].
  2: { intros [= <- <-]. split; [done|].
       apply fatal_credentials; [right; by apply not_truthy|].
       cbn [events emit]. by rewrite <- app_assoc. }
  2: { intros [= <- <-]. split; [done|].
       apply fatal_credentials; [left; by apply not_truthy|].
       cbn [events emit]. by rewrite <- app_assoc. }
  rewrite run_ret.
  destruct (len argv <? 2) eqn:Hargs.
  - rewrite run_bind_assoc, run_print.
    destruct (stdin w) as [|source_line rest] eqn:Hin.
    { unfold mbind, M_bind, input. cbn [stdin emit]. by rewrite Hin. }
    rewrite run_bind_assoc, (run_input _ _ _ (emit _ w) _ _ Hin).
    destruct (str_truthy (py_strip source_line)) eqn:Hs; cbn [negb].
    + rewrite run_bind_assoc, run_ret.
      set (w1 := with_stdin rest _).
      destruct rest as [|dest_line rest'].
      { subst w1. by unfold mbind, M_bind, input. }
      rewrite run_bind_assoc, (run_input _ _ _ _ dest_line rest') by done.
      rewrite run_ret. intros E.
      apply migrate_exit in E as [-> H]. split; [done|].
      apply H; [done | done | |].
      * unfold source_name. by rewrite Hargs, Hin.
      * unfold dest_name. by rewrite Hargs, Hin.
    + intros [= <- <-]. split; [done|].
      apply fatal_source_name; [lia| |].
      * unfold source_name. rewrite Hargs, Hin. cbn.
        by rewrite (not_truthy _ Hs).
      * cbn [events emit with_stdin]. by rewrite <- !app_assoc.
  - rewrite run_ret. intros E.
    apply migrate_exit in E as [-> H]. split; [done|].
    apply H; [done | done | |].
    * unfold source_name. by rewrite Hargs.
    * unfold dest_name. by rewrite Hargs.
Qed.

(** The fatal conditions are announced: the last thing printed is one
    of the fatal messages. *)
Lemma fatal_condition_announced argv w w' :
  fatal_condition sdk argv w w' → ends_with_fatal (events w').
Proof.
  intros [_ ->|_ _ ->|? ? ? ? _ _ _ ->|? ? ? ? ? _ _ ->
         |? ? ? ? ? ? _ _ _ _ ->];
    eexists _, _;
    (split; [rewrite last_app; reflexivity
            | unfold fatal_messages; set_solver]).
Qed.


End Exit.

(* ================================================================== *)
(** * The binding of a manager                                          *)
(* ================================================================== *)

Lemma run_bind_inv {A B} (m : M A) (f : A → M B) w b w' :
  (m ≫= f) w = (Ok b, w') →
  ∃ a w1, m w = (Ok a, w1) ∧ f a w1 = (Ok b, w').
Proof.
  unfold mbind, M_bind. destruct (m w) as [[a|e|] w1]; [eauto|done..].
Qed.

Section Binding.

Context (sdk : SDK) (r : nat) (key name : option string).

Abbreviation L := (targetL r key name).
Abbreviation client := {| pc_api_key := key |}.
Abbreviation target := {| ix_client := client; ix_name := name |}.

(** Reading the attributes of the bound manager gives the account and
    the index it is bound to. *)
Lemma target_attrs {B} (f : PineconeManager → M B) :
  (∀ me, index_name me = name → pc me = client → spec L (f me)) →
  spec L (attrs r ≫= f).
Proof.
  intros H w. unfold mbind, M_bind, attrs. cbn [fst snd]. split.
  - intros Hb. pose proof Hb as (m & Hm & _ & Hn & Hp & _).
    rewrite (list_lookup_total_correct _ _ _ Hm).
    by apply (H m Hn Hp w).
  - cbn. by destruct (f _ w) as [[b|[c|cls msg]|] w1].
Qed.

Lemma target_attach_index : spec L (attach_index sdk r).
Proof.
  intros w. split; [|cbn; by destruct (attach_index _ _ _) as [[|[]|]]].
  intros Hb. pose proof Hb as (m & Hm & _ & Hn & Hp & _).
  assert (spec (boundL r key name) (attach_index sdk r)) as Hs
    by spec_go ltac:(done).
  destruct (Hs w) as [Hb' _]. split; [exact (Hb' Hb)|].
  unfold attach_index, attrs, pc_Index, remote, set_index.
  unfold mbind, M_bind, mret, M_ret. cbn [fst snd].
  rewrite (list_lookup_total_correct _ _ _ Hm), Hn, Hp.
  destruct (sdk_Index sdk _ _ _) as [[]|cls msg]; cbn;
    (eexists [_]; split; [reflexivity | by repeat constructor]).
Qed.

Ltac target_go :=
  repeat first
    [ apply target_attach_index
    | apply target_attrs; intros ?me ?Hn ?Hp
    | spec_step ltac:(by (cbn; repeat split; try congruence)) ].

Lemma target_get_or_create_index : spec L (get_or_create_index sdk r).
Proof. target_go. Qed.

Lemma bound_create_index dimension metric replace_existing :
  spec (boundL r key name)
       (create_index sdk r dimension metric replace_existing).
Proof. spec_go ltac:(done). Qed.

Lemma bound_list_indexes : spec (boundL r key name) (list_indexes sdk r).
Proof. spec_go ltac:(done). Qed.

(** After [self.index = self.pc.Index(self.index_name)] the manager
    caches the index object of its client and name. *)
Lemma attach_index_sets w w' :
  bound_to r key name w →
  attach_index sdk r w = (Ok tt, w') →
  ∃ m, heap w' !! r = Some m ∧ index m = Some target.
Proof.
  intros (m & Hm & _ & Hn & Hp & _).
  unfold attach_index, attrs, pc_Index, remote, set_index.
  unfold mbind, M_bind, mret, M_ret. cbn [fst snd].
  rewrite (list_lookup_total_correct _ _ _ Hm).
  destruct (sdk_Index sdk _ _ _) as [[]|cls msg]; [|done].
  cbn. intros [= <-]. cbn [heap with_heap emit].
  rewrite list_lookup_alter_eq, Hm. eexists. split; [reflexivity|].
  cbn. by rewrite Hn, Hp.
Qed.

(** [get_or_create_index], on a bound manager, returns the index object
    of its account and name. *)
Lemma get_or_create_index_result w o w' :
  bound_to r key name w →
  get_or_create_index sdk r w = (Ok o, w') →
  o = Some target.
Proof.
  intros Hb E. unfold get_or_create_index in E.
  apply run_bind_inv in E as (me & w0 & [= <- <-] & E).
  apply run_bind_inv in E as ([] & wX & EX & E).
  apply run_bind_inv in E as (me' & w0 & [= <- <-] & [= <- _]).
  cut (∃ m, heap wX !! r = Some m ∧ index m = Some target).
  { intros (m & Hm & Hi). by rewrite (list_lookup_total_correct _ _ _ Hm). }
  pose proof Hb as (m & Hm & _ & Hn & Hp & Hi).
  rewrite (list_lookup_total_correct _ _ _ Hm) in EX.
  destruct (index m) as [ix|] eqn:Eix.
  - injection EX as <-. exists m. split; [done|].
    destruct Hi as [Hi|Hi]; [done|]. rewrite Eix, Hi.
    unfold index_for. by rewrite Hn, Hp.
  - apply run_bind_inv in EX as (existing & wL & EL & EX).
    pose proof (spec_run _ _ _ _ _ bound_list_indexes EL Hb) as HbL.
    destruct (py_in (index_name m) existing).
    + apply run_bind_inv in EX as ([] & w1 & [= <-] & EX).
      refine (attach_index_sets _ _ _ EX).
      by apply (Rw_emit (boundL r key name)).
    + apply run_bind_inv in EX as ([] & w1 & [= <-] & EX).
      apply run_bind_inv in EX as ([] & wC & EC & EX).
      apply run_bind_inv in EX as ([] & wA & EA & [= <-]).
      refine (attach_index_sets _ _ _ EA).
      refine (spec_run _ _ _ _ _ (bound_create_index _ _ _) EC _).
      by apply (Rw_emit (boundL r key name)).
Qed.

(** What follows [get_or_create_index] on the bound manager works with
    the index object of its account and name. *)
Lemma target_get_or_create_index_bind {B} (f : option Index → M B) :
  spec L (f (Some target)) →
  spec L (get_or_create_index sdk r ≫= f).
Proof.
  intros Hf w. destruct (target_get_or_create_index w) as [Hrw Hres].
  unfold mbind, M_bind.
  destruct (get_or_create_index sdk r w) as [[o|[c|cls msg]|] w1] eqn:E;
    cbn in Hrw, Hres |- *; try done.
  destruct (Hf w1) as [Hrw' Hres']. split.
  - intros Hb. rewrite (get_or_create_index_result _ _ _ Hb E).
    destruct (Hrw Hb) as [Hb1 He1]. destruct (Hrw' Hb1) as [Hb2 He2].
    split; [done | by eapply extends_by_trans].
  - by destruct (f o w1) as [[b|[c|cls msg]|] w2].
Qed.

Lemma target_describe_index_stats : spec L (describe_index_stats sdk r).
Proof.
  unfold describe_index_stats. apply spec_try_except.
  - apply target_get_or_create_index_bind. target_go.
  - intros. target_go.
Qed.

Lemma target_prepare_migration : spec L (prepare_migration sdk r).
Proof.
  unfold prepare_migration.
  repeat first
    [ apply target_describe_index_stats
    | spec_step ltac:(by (cbn; repeat split; try congruence)) ].
Qed.

End Binding.

Section Source.

Context (sdk : SDK).

Lemma bound_connect_destination r key name fuel source_dim source_metric
  dest_key dest_index_name :
  spec (boundL r key name)
       (connect_destination sdk fuel source_dim source_metric dest_key
          dest_index_name).
Proof. spec_go ltac:(done). Qed.

Lemma bound_copy_data r key name source_index_obj dest_mgr namespaces :
  spec (boundL r key name)
       (copy_data sdk source_index_obj dest_mgr namespaces).
Proof. spec_go ltac:(done). Qed.

Lemma read_copy_data target dest_mgr namespaces :
  spec (readL target) (copy_data sdk (Some target) dest_mgr namespaces).
Proof.
  repeat first
    [ progress cbv beta iota
    | apply spec_build_batch
    | spec_step ltac:(by (cbn; try congruence)) ].
Qed.

(** Step 1 leaves the source manager bound to the source account and
    index, and returns the index object of this account and name. *)
Lemma connect_source_binds source_key source_index_name w source_mgr
  source_dim source_metric source_index_obj w1 :
  connect_source sdk source_key source_index_name w
  = (Ok (source_mgr, source_dim, source_metric, source_index_obj), w1) →
  bound_to source_mgr (Some source_key) (Some source_index_name) w1 ∧
  source_index_obj =
  Some {| ix_client := {| pc_api_key := Some source_key |};
          ix_name := Some source_index_name |}.
Proof.
  intros E. unfold connect_source in E.
  apply run_bind_inv in E as ([] & w0 & [= <-] & E).
  apply run_bind_inv in E as ([] & w0 & [= <-] & E).
  apply run_bind_inv in E as ([] & w0 & [= <-] & E).
  apply run_bind_inv in E as (r & wB & EB & E).
  destruct (init_captures_environment sdk _ _ _ EB)
    as (-> & _ & m & Hheap & Hk & Hn & Hp & Hi).
  cbn [environ with_environ emit heap] in *.
  rewrite lookup_insert_ne, lookup_insert_eq in Hk, Hp by done.
  rewrite lookup_insert_eq in Hn.
  set (r := length (heap w)) in *.
  assert (bound_to r (Some source_key) (Some source_index_name) wB) as Hb.
  { exists m. rewrite Hheap. split; [by apply list_lookup_middle|].
    repeat split; auto. }
  apply run_bind_inv in E as (available & wL & EL & E).
  apply (spec_run _ _ _ _ _ (bound_list_indexes sdk r _ _) EL) in Hb.
  apply run_bind_inv in E as ([] & wC & EC & E).
  eapply (spec_run (boundL r (Some source_key) (Some source_index_name)))
    in EC as HbC; [|spec_go ltac:(done)].
  specialize (HbC Hb).
  apply run_bind_inv in E as ([dim metric] & wD & ED & E).
  eapply (spec_run (boundL r (Some source_key) (Some source_index_name)))
    in ED as HbD; [|spec_go ltac:(done)].
  specialize (HbD HbC).
  apply run_bind_inv in E as (o & wG & EG & [= <- <- <- <- <-]).
  split.
  - eapply (spec_run (boundL r (Some source_key) (Some source_index_name)))
      in EG as HbG; [by apply HbG | spec_go ltac:(done)].
  - exact (get_or_create_index_result sdk r _ _ _ _ _ HbD EG).
Qed.

(** Step 2 ends with the environment set for the destination. *)
Lemma connect_destination_environment fuel source_dim source_metric dest_key
  dest_index_name w dest_mgr w' :
  connect_destination sdk fuel source_dim source_metric dest_key
    dest_index_name w = (Ok dest_mgr, w') →
  environ w' !! "PINECONE_API_KEY" = Some dest_key ∧
  environ w' !! "PINECONE_INDEX_NAME" = Some dest_index_name.
Proof.
  intros E. unfold connect_destination in E.
  apply run_bind_inv in E as ([] & w0 & [= <-] & E).
  apply run_bind_inv in E as ([] & w0 & [= <-] & E).
  apply run_bind_inv in E as ([] & w0 & [= <-] & E).
  eapply (spec_run envL) in E as Henv; [|spec_go ltac:(done)].
  cbn in Henv. rewrite Henv.
  by rewrite lookup_insert_ne, !lookup_insert_eq by done.
Qed.

(** C9. A manager takes its key and its index name from the
    environment when it is built, and keeps them: after step 1 the source
    manager is bound to the source account and index, and so is the index
    object step 1 returns.  Step 2 then changes the two variables of the
    environment for the destination; the source manager stays bound to
    the source, and so it does through the statistics and through the
    copy; the calls of the statistics are made on the source account and
    index, and the copy lists and fetches from the source index. *)
Theorem source_binding_survives fuel source_key source_index_name dest_key
  dest_index_name w source_mgr source_dim source_metric source_index_obj w1
  dest_mgr w2 :
  connect_source sdk source_key source_index_name w
  = (Ok (source_mgr, source_dim, source_metric, source_index_obj), w1) →
  connect_destination sdk fuel source_dim source_metric dest_key
    dest_index_name w1 = (Ok dest_mgr, w2) →
  let key := Some source_key in
  let name := Some source_index_name in
  let target := {| ix_client := {| pc_api_key := key |}; ix_name := name |} in
  (∀ w0 r w0', PineconeManager_init sdk w0 = (Ok r, w0') →
     ∃ m, heap w0' !! r = Some m ∧
          api_key m = environ w0 !! "PINECONE_API_KEY" ∧
          index_name m = environ w0 !! "PINECONE_INDEX_NAME") ∧
  bound_to source_mgr key name w1 ∧
  source_index_obj = Some target ∧
  environ w2 !! "PINECONE_API_KEY" = Some dest_key ∧
  environ w2 !! "PINECONE_INDEX_NAME" = Some dest_index_name ∧
  bound_to source_mgr key name w2 ∧
  (∀ r w3, prepare_migration sdk source_mgr w2 = (r, w3) →
     bound_to source_mgr key name w3 ∧
     extends_by (targets key name) (events w2) (events w3)) ∧
  (∀ namespaces w3 r w4,
     bound_to source_mgr key name w3 →
     copy_data sdk source_index_obj dest_mgr namespaces w3 = (r, w4) →
     bound_to source_mgr key name w4 ∧
     extends_by (reads_from target) (events w3) (events w4)).
Proof.
  intros H1 H2 key name target.
  destruct (connect_source_binds _ _ _ _ _ _ _ _ H1) as [Hb1 Hobj].
  destruct (connect_destination_environment _ _ _ _ _ _ _ _ H2)
    as [Hek Hen].
  pose proof (spec_run _ _ _ _ _
                (bound_connect_destination source_mgr key name _ _ _ _ _)
                H2 Hb1) as Hb2.
  split; [|repeat split; try done].
  - intros w0 r w0' E.
    destruct (init_captures_environment sdk _ _ _ E)
      as (-> & _ & m & Hheap & Hk & Hn & _).
    exists m. rewrite Hheap. split; [by apply list_lookup_middle | done].
  - by apply (spec_run _ _ _ _ _
                (target_prepare_migration sdk source_mgr key name) H).
  - by apply (spec_run _ _ _ _ _
                (target_prepare_migration sdk source_mgr key name) H).
  - by apply (spec_run _ _ _ _ _
                (bound_copy_data source_mgr key name _ _ _) H0).
  - subst source_index_obj.
    exact (spec_run _ _ _ _ _ (read_copy_data target _ _) H0).
Qed.

End Source.

(* ================================================================== *)
(** * Further properties of the manager and of the migration            *)
(* ================================================================== *)

Section Listing.

Context (sdk : SDK).

Lemma run_list_indexes self w entries :
  sdk_list_indexes sdk (events w) (pc (heap w !!! self)) = Returns entries →
  list_indexes sdk self w
  = (Ok (map im_name entries),
     emit (ECall (CListIndexes (pc (heap w !!! self)))) w).
Proof.
  intros H. unfold list_indexes. rewrite run_attrs.
  unfold pc_list_indexes.
  by rewrite (run_bind_ok _ _ _ _ _ (run_remote _ _ _ _ H)).
Qed.

(** [attach_index] asks for the index object of the manager's client and
    name, and nothing else. *)
Lemma run_attach_index self w :
  ∃ r w',
    attach_index sdk self w = (r, w') ∧
    events w' =
      (events w ++ [ECall (CIndex (pc (heap w !!! self))
                                  (index_name (heap w !!! self)))])%list.
Proof.
  unfold attach_index, attrs, pc_Index, remote, set_index.
  unfold mbind, M_bind, mret, M_ret. cbn [fst snd heap emit].
  destruct (sdk_Index sdk _ _ _) as [[]|cls msg]; eexists _, _; done.
Qed.

End Listing.

(** ** The manager: construction, connection, statistics *)

Section Manager.

Context (sdk : SDK).

Lemma attach_index_attaches self w w' :
  (self < length (heap w))%nat →
  attach_index sdk self w = (Ok tt, w') →
  (self < length (heap w'))%nat ∧
  index (heap w' !!! self) = Some (index_for (heap w !!! self)).
Proof.
  intros Hlt. unfold attach_index, attrs, pc_Index, remote, set_index.
  unfold mbind, M_bind, mret, M_ret. cbn [fst snd].
  destruct (sdk_Index sdk _ _ _) as [[]|cls msg]; [|done].
  intros [= <-]. cbn [heap with_heap emit].
  rewrite length_alter. split; [done|].
  destruct (lookup_lt_is_Some_2 _ _ Hlt) as [m Hm].
  rewrite (list_lookup_total_correct _ _ _ Hm).
  erewrite list_lookup_total_correct;
    [|rewrite list_lookup_alter_eq, Hm; reflexivity].
  done.
Qed.

Lemma heap_create_index self dimension metric replace_existing :
  spec (heapL self) (create_index sdk self dimension metric replace_existing).
Proof. spec_go ltac:(done). Qed.

Lemma heap_list_indexes self : spec (heapL self) (list_indexes sdk self).
Proof. spec_go ltac:(done). Qed.

Lemma get_or_create_index_cached self w ix :
  index (heap w !!! self) = Some ix →
  get_or_create_index sdk self w = (Ok (Some ix), w).
Proof.
  intros H. unfold get_or_create_index, attrs.
  unfold mbind, M_bind, mret, M_ret. cbn [fst snd]. rewrite H. cbn.
  by rewrite H.
Qed.

(** X4. [get_or_create_index], when it returns for an object of the
    heap, returns an index object and leaves it attached to the manager;
    a second call returns the same object and does nothing: no call, no
    message. *)
Theorem get_or_create_index_caches self w o w' :
  (self < length (heap w))%nat →
  get_or_create_index sdk self w = (Ok o, w') →
  ∃ ix, o = Some ix ∧
        index (heap w' !!! self) = Some ix ∧
        get_or_create_index sdk self w' = (Ok (Some ix), w').
Proof.
  intros Hlt E.
  cut (∃ ix, o = Some ix ∧ index (heap w' !!! self) = Some ix).
  { intros (ix & -> & Hix). exists ix.
    by rewrite (get_or_create_index_cached _ _ _ Hix). }
  unfold get_or_create_index in E.
  apply run_bind_inv in E as (me & w0 & [= <- <-] & E).
  apply run_bind_inv in E as ([] & wX & EX & E).
  apply run_bind_inv in E as (me' & w0 & [= <- <-] & [= <- <-]).
  cut (∃ ix, index (heap wX !!! self) = Some ix).
  { intros (ix & Hix). eauto. }
  destruct (index (heap w !!! self)) as [ix|] eqn:Eix.
  - injection EX as <-. eauto.
  - apply run_bind_inv in EX as (existing & wL & EL & EX).
    pose proof (spec_run _ _ _ _ _ (heap_list_indexes self) EL Hlt) as HL.
    destruct (py_in _ existing).
    + apply run_bind_inv in EX as ([] & w1 & [= <-] & EX).
      destruct (attach_index_attaches self (emit _ wL) _ HL EX) as [_ H].
      eauto.
    + apply run_bind_inv in EX as ([] & w1 & [= <-] & EX).
      apply run_bind_inv in EX as ([] & wC & EC & EX).
      apply run_bind_inv in EX as ([] & wA & EA & [= <-]).
      pose proof (spec_run _ _ _ _ _ (heap_create_index self _ _ _) EC)
        as HC. cbn [Rw heapL heap emit] in HC.
      specialize (HC HL).
      destruct (attach_index_attaches self _ _ HC EA) as [_ H].
      cbn [heap emit]. eauto.
Qed.


(** X1. [__init__] needs the Pinecone client only: when [Pinecone(...)]
    returns, the manager is built, whatever becomes of the OpenAI client.
    The new object sits at the end of the heap and has no index; its
    OpenAI client is either [None] (no key, an empty key, or a
    constructor that raised, which is reported as a warning) or the
    client of the non-empty key of the environment. *)
Theorem init_needs_only_pinecone w :
  let key := environ w !! "PINECONE_API_KEY" in
  sdk_Pinecone sdk (events w) key = Returns tt →
  ∃ w' m,
    PineconeManager_init sdk w = (Ok (length (heap w)), w') ∧
    heap w' = (heap w ++ [m])%list ∧
    index m = None ∧
    (openai_client m = None ∨
     ∃ k, environ w !! "OPENAI_API_KEY" = Some k ∧ k ≠ "" ∧
          openai_client m = Some {| oa_api_key := k |}).
Proof.
  intros key HP.
  unfold PineconeManager_init, os_getenv, Pinecone_new, new_object.
  unfold try_except, OpenAI_new, remote, print.
  unfold mbind, M_bind, mret, M_ret. cbn [fst snd]. fold key. rewrite HP.
  destruct (environ w !! "OPENAI_API_KEY") as [k|] eqn:Ek;
    [destruct k as [|c k];
     [|cbn [str_truthy]; destruct (sdk_OpenAI sdk _ _) as [[]|cls msg]]|];
    cbn; eexists _, _; (split; [reflexivity|]); cbn; (split; [done|]);
    (split; [done|]); eauto.
Qed.

End Manager.

(** ** What is created, and what is never deleted *)

Section Creation.

Context (sdk : SDK).

Lemma default_get_or_create_index self :
  spec (onlyL default_creation) (get_or_create_index sdk self).
Proof. spec_go ltac:(done). Qed.

(** X5. Whatever [get_or_create_index] creates, it creates with
    dimension 1536, metric ["cosine"], cloud ["aws"] and region
    ["us-east-1"]; and so do [upsert_data] and [describe_index_stats],
    which obtain their index from it, whatever the vectors they are
    given. *)
Theorem implicit_creation_uses_defaults self vectors namespace batch_size w :
  extends_by default_creation (events w)
    (events (get_or_create_index sdk self w).2) ∧
  extends_by default_creation (events w)
    (events (upsert_data sdk self vectors namespace batch_size w).2) ∧
  extends_by default_creation (events w)
    (events (describe_index_stats sdk self w).2).
Proof.
  split; [|split].
  - apply (default_get_or_create_index self w).
  - assert (spec (onlyL default_creation)
              (upsert_data sdk self vectors namespace batch_size)) as H
      by spec_go ltac:(done).
    apply (H w).
  - assert (spec (onlyL default_creation) (describe_index_stats sdk self))
      as H by spec_go ltac:(done).
    apply (H w).
Qed.

(** X17. Step 2 of [migrate] creates no index but with the dimension
    and the metric read from the source, on ["aws"], ["us-east-1"]. *)
Theorem destination_created_like_source fuel source_dim source_metric
  dest_key dest_index_name w :
  extends_by (created_with source_dim source_metric) (events w)
    (events (connect_destination sdk fuel source_dim source_metric dest_key
               dest_index_name w).2).
Proof.
  assert (spec (onlyL (created_with source_dim source_metric))
            (connect_destination sdk fuel source_dim source_metric dest_key
               dest_index_name)) as H by spec_go ltac:(done).
  apply (H w).
Qed.

(** X22. [main], and so [migrate], never deletes an index. *)
Theorem migration_never_deletes fuel argv w :
  extends_by no_delete (events w) (events (main sdk fuel argv w).2).
Proof.
  assert (spec (onlyL no_delete) (main sdk fuel argv)) as H
    by spec_go ltac:(done).
  apply (H w).
Qed.

End Creation.

(** ** [upsert_data] at its edges *)

Section UpsertEdges.

Context (sdk : SDK).

(** X7. [upsert_data] returns normally, whatever the service answers
    and whatever the batch size: the last thing it does is to print one of
    its three reports (nothing to upsert, success, error). *)
Theorem upsert_data_always_reports self vectors namespace batch_size w :
  ∃ w' template args,
    upsert_data sdk self vectors namespace batch_size w = (Ok tt, w') ∧
    last (events w') = Some (EPrint template args) ∧
    template ∈ upsert_reports.
Proof.
  unfold upsert_data, upsert_reports.
  destruct vectors as [|v vectors]; cbn [list_truthy negb].
  - eexists _, _, _. split; [reflexivity|]. split; [apply last_emit|].
    set_solver.
  - set (vs := v :: vectors).
    unfold mbind at 1 2, M_bind, attrs, print. cbn [fst snd].
    set (w0 := emit _ w). set (name := index_name _).
    destruct (safe_cases _ w0
                (safe_upsert_body sdk self vs namespace batch_size name))
      as [([] & w1 & E)|(cls & msg & w1 & E)].
    + rewrite (run_try_ok _ _ _ _ _ E).
      apply run_bind_inv in E as (ix & w2 & _ & E).
      apply run_bind_inv in E as (n & w3 & _ & E).
      apply run_bind_inv in E as ([] & w4 & _ & [= <-]).
      eexists _, _, _. split; [reflexivity|]. split; [apply last_emit|].
      set_solver.
    + rewrite (run_try_exc _ _ _ _ _ _ E).
      eexists _, _, _. split; [reflexivity|]. split; [apply last_emit|].
      set_solver.
Qed.

(** X9. With a batch size of zero the division raises inside the
    [try]: once the index is obtained, [upsert_data] reports
    "division by zero" as an upsert error and returns, without any
    upsert. *)
Theorem upsert_data_zero_batch_size self vectors namespace w ix w1 :
  vectors ≠ [] →
  get_or_create_index sdk self
    (emit (EPrint msg_attempting
             [VInt (len vectors); VOptStr (index_name (heap w !!! self));
              VStr namespace; VInt 0]) w) = (Ok ix, w1) →
  upsert_data sdk self vectors namespace 0 w
  = (Ok tt,
     emit (EPrint msg_upsert_error
             [VExc ZeroDivisionError "division by zero"]) w1).
Proof.
  intros Hne Hix. unfold upsert_data.
  destruct vectors as [|v vectors]; [done|]. cbn [list_truthy negb].
  unfold mbind at 1 2, M_bind, attrs, print. cbn [fst snd].
  erewrite run_try_exc; [reflexivity|].
  by rewrite (run_bind_ok _ _ _ _ _ Hix).
Qed.

(** X10. With a negative batch size the number of batches is not
    positive and the loop does not run: once the index is obtained,
    [upsert_data] reports a success for all the vectors although it sent
    none. *)
Theorem upsert_data_negative_batch_size self vectors namespace batch_size w
  ix w1 :
  vectors ≠ [] →
  batch_size < 0 →
  get_or_create_index sdk self
    (emit (EPrint msg_attempting
             [VInt (len vectors); VOptStr (index_name (heap w !!! self));
              VStr namespace; VInt batch_size]) w) = (Ok ix, w1) →
  upsert_data sdk self vectors namespace batch_size w
  = (Ok tt,
     emit (EPrint msg_upserted
             [VInt (len vectors); VOptStr (index_name (heap w !!! self))])
          w1).
Proof.
  intros Hne Hb Hix. unfold upsert_data.
  destruct vectors as [|v vectors]; [done|]. cbn [list_truthy negb].
  set (vs := v :: vectors) in *.
  unfold mbind at 1 2, M_bind, attrs, print. cbn [fst snd].
  erewrite run_try_ok; [reflexivity|].
  rewrite (run_bind_ok _ _ _ _ _ Hix).
  unfold math_ceil_div. destruct (Z.eqb_spec batch_size 0); [lia|].
  unfold mbind at 1, M_bind, mret at 1, M_ret.
  assert (py_range (ceil_true_div (len vs) batch_size) = []) as ->.
  { unfold py_range.
    pose proof (ceil_true_div_negative (len vs) batch_size) as H.
    rewrite Z2Nat.nonpos; [done|]. apply H; [|done].
    subst vs. unfold len. cbn [length]. lia. }
  reflexivity.
Qed.

End UpsertEdges.

(** ** [create_index], and step 2 of [migrate] *)

Section Indexes.

Context (sdk : SDK).

(** X2. [create_index] with [replace_existing=False], for a name that
    the listing contains, creates nothing: it lists, reports that it
    skips the creation, and asks for the index object; when that
    succeeds the manager holds the index object of its client and
    name. *)
Theorem create_index_skips_existing self dimension metric w entries name :
  let c := pc (heap w !!! self) in
  (self < length (heap w))%nat →
  index_name (heap w !!! self) = Some name →
  sdk_list_indexes sdk (events w) c = Returns entries →
  name ∈ map im_name entries →
  ∃ r w',
    create_index sdk self dimension metric false w = (r, w') ∧
    events w' =
      (events w ++ [ECall (CListIndexes c);
                    EPrint msg_already_exists_skip [VStr name];
                    ECall (CIndex c (Some name))])%list ∧
    (r = Ok tt →
     index (heap w' !!! self)
     = Some {| ix_client := c; ix_name := Some name |}).
Proof.
  intros c Hlt Hname Hlist Hin.
  unfold create_index.
  rewrite (run_bind_ok _ _ _ _ _ (run_list_indexes sdk self w entries Hlist)).
  rewrite run_attrs. cbn [heap emit]. rewrite Hname. fold c.
  unfold py_in. rewrite bool_decide_eq_true_2 by done.
  rewrite run_bind_assoc, run_print. cbn [VOptStr].
  set (w1 := emit (EPrint _ _) _).
  destruct (run_attach_index sdk self w1) as (r & w' & E & Hev).
  assert (events w' =
          (events w ++ [ECall (CListIndexes c);
                        EPrint msg_already_exists_skip [VStr name];
                        ECall (CIndex c (Some name))])%list) as Hev'.
  { rewrite Hev. subst w1. cbn [events emit heap]. fold c. rewrite Hname.
    by rewrite <- !app_assoc. }
  rewrite run_bind_assoc. unfold mbind, M_bind. rewrite E.
  destruct r as [[]|e|]; eexists _, _; (split; [reflexivity|]);
    (split; [done|]); try done.
  intros _.
  destruct (attach_index_attaches sdk self w1 w' Hlt E) as [_ ->].
  unfold index_for. subst w1. cbn [heap emit]. fold c. by rewrite Hname.
Qed.

(** X3. [create_index] with [replace_existing=True], for a name that
    the listing contains, announces that it deletes and recreates, but
    [delete_index] finds no entry equal to the name, reports the index as
    absent and deletes nothing; [pc.create_index] is then called on the
    name that still exists.  No deletion is issued at any point. *)
Theorem create_index_replace_keeps_index self dimension metric w entries
  entries' name :
  let c := pc (heap w !!! self) in
  index_name (heap w !!! self) = Some name →
  sdk_list_indexes sdk (events w) c = Returns entries →
  name ∈ map im_name entries →
  sdk_list_indexes sdk
    (events w ++ [ECall (CListIndexes c);
                  EPrint msg_already_exists_replace [VStr name]]) c
  = Returns entries' →
  ∃ r w' rest,
    create_index sdk self dimension metric true w = (r, w') ∧
    events w' =
      (events w
       ++ [ECall (CListIndexes c);
           EPrint msg_already_exists_replace [VStr name];
           ECall (CListIndexes c);
           EPrint msg_index_absent [VStr name];
           EPrint msg_creating [VStr name; VInt dimension; VStr metric];
           ECall (CCreateIndex c (Some name) dimension metric "aws"
                    "us-east-1")]
       ++ rest)%list ∧
    Forall no_delete rest.
Proof.
  intros c Hname Hlist Hin Hlist'.
  unfold create_index.
  rewrite (run_bind_ok _ _ _ _ _ (run_list_indexes sdk self w entries Hlist)).
  rewrite run_attrs. cbn [heap emit]. rewrite Hname. fold c.
  unfold py_in. rewrite bool_decide_eq_true_2 by done.
  rewrite run_bind_assoc, run_print. cbn [VOptStr].
  set (w1 := emit (EPrint _ _) _).
  assert (delete_index sdk self w1
          = (Ok tt, emit (EPrint msg_index_absent [VStr name])
                      (emit (ECall (CListIndexes c)) w1))) as Hdel.
  { unfold delete_index. rewrite run_attrs. unfold pc_list_indexes.
    subst w1. cbn [heap emit]. fold c.
    erewrite run_bind_ok; cycle 1.
    { apply run_remote. cbn [events emit]. rewrite <- app_assoc.
      exact Hlist'. }
    by rewrite py_in_entries_false, Hname. }
  rewrite run_bind_assoc, (run_bind_ok _ _ _ _ _ Hdel), run_ret, run_print.
  unfold pc_create_index, remote. unfold mbind at 1, M_bind.
  set (w2 := emit (EPrint _ [_; _; _]) _).
  assert (events w2 =
          (events w ++ [ECall (CListIndexes c);
                        EPrint msg_already_exists_replace [VStr name];
                        ECall (CListIndexes c);
                        EPrint msg_index_absent [VStr name];
                        EPrint msg_creating
                          [VStr name; VInt dimension; VStr metric]])%list)
    as Hev2 by (subst w2 w1; cbn [events emit]; by rewrite <- !app_assoc).
  destruct (sdk_create_index sdk _ _ _ _ _) as [[]|cls msg].
  - set (w3 := emit _ w2). set (k := mbind _ _).
    assert (spec (onlyL no_delete) k) as Hk
      by (subst k; spec_go ltac:(done)).
    destruct (Hk w3) as [(rest & Hrest & Hnd) _].
    destruct (k w3) as [r w'] eqn:E. cbn [snd] in Hrest.
    exists r, w', rest. split; [done|]. split; [|done].
    rewrite Hrest. subst w3. cbn [events emit]. rewrite Hev2.
    by rewrite <- !app_assoc.
  - eexists _, _, []. split; [reflexivity|]. split; [|done].
    cbn [events emit]. rewrite Hev2. by rewrite <- !app_assoc.
Qed.

(** X18. When the destination index is listed but its description
    cannot be read, step 2 prints a warning and returns the destination
    manager: the dimensions are left unverified and the migration goes
    on. *)
Theorem unverifiable_destination_is_accepted fuel source_dim source_metric
  dest_key dest_index_name w dest_mgr wB entries cls msg :
  let client := {| pc_api_key := Some dest_key |} in
  PineconeManager_init sdk (destination_environment dest_key dest_index_name w)
  = (Ok dest_mgr, wB) →
  sdk_list_indexes sdk (events wB) client = Returns entries →
  dest_index_name ∈ map im_name entries →
  sdk_describe_index sdk
    (events (emit (EPrint msg_destination_exists [VStr dest_index_name])
               (emit (ECall (CListIndexes client)) wB)))
    client dest_index_name = Throws cls msg →
  connect_destination sdk fuel source_dim source_metric dest_key
    dest_index_name w
  = (Ok dest_mgr,
     emit (EPrint msg_unverified [VExc cls msg])
       (emit (ECall (CDescribeIndex client dest_index_name))
          (emit (EPrint msg_destination_exists [VStr dest_index_name])
             (emit (ECall (CListIndexes client)) wB)))).
Proof.
  intros client EB Hlist Hin Hdesc.
  unfold connect_destination.
  unfold mbind at 1 2 3, M_bind, print, os_environ_set. cbn [fst snd].
  fold (destination_environment dest_key dest_index_name w).
  destruct (init_captures_environment sdk _ _ _ EB)
    as (-> & _ & m & Hheap & _ & _ & Hpcm & _).
  unfold destination_environment in Hpcm. cbn [environ with_environ] in Hpcm.
  rewrite lookup_insert_ne, lookup_insert_eq in Hpcm by done.
  fold client in Hpcm.
  set (wA := destination_environment dest_key dest_index_name w) in *.
  assert (heap wB !!! length (heap wA) = m) as Hm
    by (rewrite Hheap; by apply list_lookup_total_middle).
  rewrite (run_bind_ok _ _ _ _ _ EB).
  erewrite run_bind_ok; cycle 1.
  { unfold list_indexes, attrs, pc_list_indexes, remote.
    unfold mbind, M_bind, mret, M_ret. cbn [fst snd].
    rewrite Hm, Hpcm, Hlist. reflexivity. }
  rewrite bool_decide_eq_true_2 by done.
  erewrite run_bind_ok; [reflexivity|].
  unfold mbind at 1, M_bind, print. cbn [fst snd].
  erewrite run_try_exc; [reflexivity|].
  unfold attrs, pc_describe_index, remote.
  unfold mbind, M_bind, mret, M_ret. cbn [fst snd heap emit].
  rewrite Hm, Hpcm. unfold client in *.
  cbn [events emit] in Hdesc |- *. by rewrite Hdesc.
Qed.

Lemma polling_succ c name k :
  polling c name (S k)
  = ([ECall (CDescribeIndex c name); EPrint msg_waiting []; ESleep 2]
     ++ polling c name k)%list.
Proof. reflexivity. Qed.

(** X19. The readiness loop asks for the description until it says
    ready: after [k] answers that are not ready it has announced the wait
    and slept two seconds [k] times, and it stops at the first answer that
    is ready (the model follows it with any fuel above [k]). *)
Theorem wait_until_ready_polls fuel dest_mgr name w k desc :
  let c := pc (heap w !!! dest_mgr) in
  (k < fuel)%nat →
  (∀ i, (i < k)%nat →
        ∃ d, sdk_describe_index sdk (events w ++ polling c name i) c name
             = Returns d ∧ im_ready d = false) →
  sdk_describe_index sdk (events w ++ polling c name k) c name
  = Returns desc →
  im_ready desc = true →
  wait_until_ready sdk fuel dest_mgr name w
  = (Ok tt, emit_all (polling c name k ++ [ECall (CDescribeIndex c name)]) w).
Proof.
  cbv zeta. revert fuel w.
  induction k as [|k IH]; intros fuel w Hfuel Hwait Hready Hdesc;
    (destruct fuel as [|fuel]; [lia|]); cbn [wait_until_ready].
  - unfold attrs, pc_describe_index, remote.
    unfold mbind, M_bind. cbn [fst snd].
    cbn [polling replicate concat] in Hready. rewrite app_nil_r in Hready.
    by rewrite Hready, Hdesc.
  - destruct (Hwait 0%nat) as (d & Hd & Hnot); [lia|].
    cbn [polling replicate concat] in Hd. rewrite app_nil_r in Hd.
    unfold attrs, pc_describe_index, remote.
    unfold mbind at 1 2, M_bind. cbn [fst snd]. rewrite Hd, Hnot.
    cbn [negb]. unfold print, sleep. unfold mbind at 1 2, M_bind.
    cbn [fst snd].
    set (c := pc (heap w !!! dest_mgr)) in *.
    set (w1 := emit (ESleep 2) _).
    assert (events w1 =
            (events w ++ [ECall (CDescribeIndex c name);
                          EPrint msg_waiting []; ESleep 2])%list) as Hev
      by (subst w1; cbn [events emit]; by rewrite <- !app_assoc).
    rewrite (IH fuel w1); [| lia | | |done].
    + rewrite polling_succ, <- app_assoc.
      unfold emit_all at 2. rewrite foldl_app. reflexivity.
    + intros i Hi. destruct (Hwait (S i)) as (d' & Hd' & Hnot'); [lia|].
      exists d'. split; [|done]. rewrite Hev, <- app_assoc. exact Hd'.
    + rewrite Hev, <- app_assoc. exact Hready.
Qed.

End Indexes.

(** ** The copy of a page *)

Section Pages.

Context (sdk : SDK).

Lemma run_build_batch items w :
  build_batch items w
  = (if forallb has_values items then Ok (map record_of items)
     else Raise (Exc KeyError "'values'"), w).
Proof.
  induction items as [|[vec_id vec_data] items IH]; [done|].
  cbn [build_batch forallb map]. unfold has_values at 1. cbn [snd].
  destruct (vd_values vec_data) as [values|] eqn:Ev; [|done].
  rewrite run_ret. unfold mbind, M_bind. rewrite IH. cbn [andb].
  destruct (forallb has_values items); [|done].
  cbn. unfold record_of at 2. cbn [fst snd]. by rewrite Ev.
Qed.

(** X20. The records of a fetched page: [build_batch] leaves the world
    alone; it returns when every entry has its ["values"], and then the
    records are those of the entries, in order, each with the id, the
    values and the metadata of its entry (the empty mapping when there
    is none); otherwise it raises [KeyError]. *)
Theorem build_batch_copies items w :
  ∃ r,
    build_batch items w = (r, w) ∧
    match r with
    | Ok batch =>
        forallb has_values items = true ∧ batch = map record_of items
    | Raise e =>
        forallb has_values items = false ∧ e = Exc KeyError "'values'"
    | OutOfFuel => False
    end.
Proof.
  rewrite run_build_batch.
  destruct (forallb has_values items); eexists; (split; [reflexivity|]);
    done.
Qed.

(** One batch of the size of the list, an index at hand and an upsert
    that returns: one call, and a report of success. *)
Lemma upsert_data_whole self vectors namespace ix w :
  vectors ≠ [] →
  index (heap w !!! self) = Some ix →
  let announced :=
    emit (EPrint msg_attempting
            [VInt (len vectors); VOptStr (index_name (heap w !!! self));
             VStr namespace; VInt (len vectors)]) w in
  sdk_index_upsert sdk (events announced) ix vectors namespace = Returns tt →
  upsert_data sdk self vectors namespace (len vectors) w
  = (Ok tt,
     emit (EPrint msg_upserted
             [VInt (len vectors); VOptStr (index_name (heap w !!! self))])
       (emit (ECall (CUpsert ix vectors namespace)) announced)).
Proof.
  intros Hne Hix announced Hup.
  assert (0 < len vectors) as Hk
    by (unfold len; destruct vectors; simpl; [done|lia]).
  unfold upsert_data. destruct vectors as [|v vectors]; [done|].
  cbn [list_truthy negb]. set (vs := v :: vectors) in *.
  rewrite run_attrs, run_print. fold announced.
  erewrite run_try_ok; [reflexivity|].
  rewrite (run_bind_ok _ _ _ _ _
             (get_or_create_index_cached sdk self announced ix Hix)).
  unfold math_ceil_div. destruct (Z.eqb_spec (len vs) 0); [lia|].
  rewrite run_ret, ceil_true_div_same by done.
  change (py_range 1) with [0]. cbn [for_each].
  rewrite batch_of_whole by done.
  rewrite run_bind_assoc. unfold index_upsert.
  rewrite (run_bind_ok _ _ _ _ _ (run_remote _ _ _ _ Hup)).
  reflexivity.
Qed.

(** X21. A page is copied as it is: when the fetch of a non-empty
    page returns entries that all have values, the destination manager
    holds its index and the upsert returns, [copy_page] makes one fetch
    and one upsert, the upsert carries the records of all the entries in
    the order of the response, and [total_migrated] grows by their
    number. *)
Theorem copy_page_copies source_index dest_mgr ns id_page w items ix :
  let batch := map record_of items in
  let name := index_name (heap w !!! dest_mgr) in
  let fetched := emit (ECall (CFetch source_index id_page ns)) w in
  let announced :=
    emit (EPrint msg_attempting
            [VInt (len items); VOptStr name; VStr ns; VInt (len items)])
         fetched in
  id_page ≠ [] →
  items ≠ [] →
  sdk_index_fetch sdk (events w) source_index id_page ns
  = Returns {| fr_vectors := Some items |} →
  forallb has_values items = true →
  index (heap w !!! dest_mgr) = Some ix →
  sdk_index_upsert sdk (events announced) ix batch ns = Returns tt →
  copy_page sdk (Some source_index) dest_mgr ns id_page w
  = (Ok tt,
     with_total (total_migrated w + len items)
       (emit (EPrint msg_upserted [VInt (len items); VOptStr name])
          (emit (ECall (CUpsert ix batch ns)) announced))).
Proof.
  intros batch name fetched announced Hpage Hitems Hfetch Hvalues Hix Hup.
  assert (len batch = len items) as Hlen
    by (unfold len, batch; by rewrite length_map).
  assert (batch ≠ []) as Hbatch by (subst batch; by destruct items).
  unfold copy_page. destruct id_page as [|i id_page]; [done|].
  cbn [list_truthy negb]. unfold index_fetch.
  rewrite (run_bind_ok _ _ _ _ _ (run_remote _ _ _ _ Hfetch)).
  cbv zeta. cbn [fr_vectors from_option]. unfold id. fold fetched.
  unfold mbind at 1, M_bind. rewrite run_build_batch, Hvalues.
  fold batch. assert (list_truthy batch = true) as ->
    by (by destruct batch).
  pose proof (upsert_data_whole dest_mgr batch ns ix fetched Hbatch Hix) as E.
  cbv zeta in E. subst fetched. cbn [heap emit] in E. fold name in E.
  rewrite Hlen in E. specialize (E Hup).
  rewrite Hlen. rewrite (run_bind_ok _ _ _ _ _ E).
  reflexivity.
Qed.

End Pages.

Lemma str_truthy_true s : s ≠ "" → str_truthy s = true.
Proof. by destruct s. Qed.

(** ** [main] in interactive mode *)

Section Main.

Context (sdk : SDK).

(** X25. Without a command-line argument, and with both keys set,
    [main] reads two lines: the first, stripped, is the name of the source
    index; the second, stripped, is the name of the destination index,
    and when it is blank the destination takes the name of the source.
    [migrate] then runs with these names and the cleaned keys. *)
Theorem main_interactive_defaults fuel argv w source_line dest_line rest :
  let source_key := key_of w "PINECONE_SOURCE_API_KEY" in
  let dest_key := key_of w "PINECONE_DEST_API_KEY" in
  let source_idx := py_strip source_line in
  let dest_idx :=
    if decide (py_strip dest_line = "") then source_idx
    else py_strip dest_line in
  (length argv < 2)%nat →
  source_key ≠ "" →
  dest_key ≠ "" →
  stdin w = source_line :: dest_line :: rest →
  source_idx ≠ "" →
  main sdk fuel argv w
  = migrate sdk fuel source_key source_idx dest_key dest_idx
      (with_stdin rest
         (emit (EInput prompt_destination [VStr source_idx])
            (with_stdin (dest_line :: rest)
               (emit (EInput prompt_source [])
                  (emit (EPrint msg_interactive []) w))))).
Proof.
  intros source_key dest_key source_idx dest_idx Hargv Hsk Hdk Hin Hsrc.
  unfold main, os_environ_get.
  unfold mbind at 1 2, M_bind. cbn [fst snd].
  fold (key_of w "PINECONE_SOURCE_API_KEY") (key_of w "PINECONE_DEST_API_KEY").
  fold source_key dest_key.
  rewrite (str_truthy_true _ Hsk), (str_truthy_true _ Hdk). cbn [negb orb].
  rewrite run_ret.
  assert ((len argv <? 2) = true) as -> by (unfold len; lia).
  rewrite run_bind_assoc, run_print.
  rewrite run_bind_assoc.
  rewrite (run_input _ _ _ _ source_line (dest_line :: rest)) by done.
  fold source_idx. rewrite (str_truthy_true _ Hsrc). cbn [negb].
  rewrite run_bind_assoc, run_ret. rewrite run_bind_assoc.
  rewrite (run_input _ _ _ _ dest_line rest) by done.
  rewrite run_ret. subst dest_idx.
  destruct (decide (py_strip dest_line = "")) as [->|Hne]; [done|].
  by rewrite (str_truthy_true _ Hne).
Qed.

End Main.

Lemma extends_by_impl (P Q : event → Prop) t t' :
  (∀ e, P e → Q e) → extends_by P t t' → extends_by Q t t'.
Proof.
  intros H (new & -> & Hnew). exists new. split; [done|].
  by eapply Forall_impl.
Qed.

(** The events of [m ≫= f] satisfy a condition that those of [m] and of
    [f] satisfy. *)
Lemma extends_by_bind {A B} (P : event → Prop) (m : M A) (f : A → M B) w :
  extends_by P (events w) (events (m w).2) →
  (∀ a w1, m w = (Ok a, w1) →
           extends_by P (events w1) (events (f a w1).2)) →
  extends_by P (events w) (events ((m ≫= f) w).2).
Proof.
  intros Hm Hf. unfold mbind, M_bind.
  destruct (m w) as [[a|e|] w1] eqn:E; cbn [snd] in *; [|done..].
  eapply extends_by_trans; [exact Hm | by apply Hf].
Qed.

(** ** The environment after [migrate] *)

Section Environment.

Context (sdk : SDK).

Lemma connect_source_environment source_key source_index_name w a w' :
  connect_source sdk source_key source_index_name w = (Ok a, w') →
  environ w' =
  <["PINECONE_INDEX_NAME" := source_index_name]>
    (<["PINECONE_API_KEY" := source_key]> (environ w)).
Proof.
  intros E. unfold connect_source in E.
  apply run_bind_inv in E as ([] & w0 & [= <-] & E).
  apply run_bind_inv in E as ([] & w0 & [= <-] & E).
  apply run_bind_inv in E as ([] & w0 & [= <-] & E).
  apply run_bind_inv in E as (r & wB & EB & E).
  eapply (spec_run envL) in EB as HB; [|spec_go ltac:(done)].
  eapply (spec_run envL) in E as HE; [|spec_go ltac:(done)].
  cbn in HB, HE. by rewrite HE, HB.
Qed.

Lemma connect_destination_sets fuel source_dim source_metric dest_key
  dest_index_name w dest_mgr w' :
  connect_destination sdk fuel source_dim source_metric dest_key
    dest_index_name w = (Ok dest_mgr, w') →
  environ w' =
  <["PINECONE_INDEX_NAME" := dest_index_name]>
    (<["PINECONE_API_KEY" := dest_key]> (environ w)).
Proof.
  intros E. unfold connect_destination in E.
  apply run_bind_inv in E as ([] & w0 & [= <-] & E).
  apply run_bind_inv in E as ([] & w0 & [= <-] & E).
  apply run_bind_inv in E as ([] & w0 & [= <-] & E).
  eapply (spec_run envL) in E as Henv; [|spec_go ltac:(done)].
  cbn in Henv. by rewrite Henv.
Qed.

(** X24. When [migrate] returns, the environment is the one it was
    given but for the two variables [PINECONE_API_KEY] and
    [PINECONE_INDEX_NAME], which hold the key and the index name of the
    destination. *)
Theorem migrate_leaves_destination_environment fuel source_key
  source_index_name dest_key dest_index_name w w' :
  migrate sdk fuel source_key source_index_name dest_key dest_index_name w
  = (Ok tt, w') →
  environ w' =
  <["PINECONE_INDEX_NAME" := dest_index_name]>
    (<["PINECONE_API_KEY" := dest_key]> (environ w)).
Proof.
  intros E. unfold migrate in E.
  apply run_bind_inv in E
    as ([[[source_mgr source_dim] source_metric] source_index_obj] & w1
        & E1 & E).
  apply run_bind_inv in E as (dest_mgr & w2 & E2 & E).
  apply run_bind_inv in E as (namespaces & w3 & E3 & E).
  eapply (spec_run envL) in E3 as H3; [|spec_go ltac:(done)].
  eapply (spec_run envL) in E as H4; [|spec_go ltac:(done)].
  cbn in H3, H4. rewrite H4, H3.
  rewrite (connect_destination_sets _ _ _ _ _ _ _ _ E2).
  rewrite (connect_source_environment _ _ _ _ _ E1).
  rewrite (insert_insert_ne _ "PINECONE_API_KEY" "PINECONE_INDEX_NAME")
    by done.
  by rewrite !insert_insert_eq.
Qed.

End Environment.

(** ** The destination of the upserts *)

Section Writes.

Context (sdk : SDK).

Lemma targets_writes_to key name e :
  targets key name e →
  writes_to {| ix_client := {| pc_api_key := key |}; ix_name := name |} e.
Proof. by destruct e as [| | | |[]]. Qed.

Lemma no_copy_writes_to target e : copy_event e = false → writes_to target e.
Proof. by destruct e as [| | | |[]]. Qed.

Lemma spec_target_write r key name {A} (m : M A) :
  spec (targetL r key name) m → spec (writeL r key name) m.
Proof.
  intros H w. destruct (H w) as [Hrw Hres]. split.
  - intros Hb. destruct (Hrw Hb) as [Hb' He]. split; [done|].
    eapply extends_by_impl; [apply targets_writes_to | exact He].
  - by destruct (m w).1 as [|[]|].
Qed.

Lemma target_upsert_data r key name vectors namespace batch_size :
  spec (targetL r key name)
       (upsert_data sdk r vectors namespace batch_size).
Proof.
  unfold upsert_data. destruct vectors as [|v vectors]; cbn [list_truthy negb].
  - by apply spec_print.
  - apply target_attrs. intros me Hn Hp.
    apply spec_bind; [by apply spec_print|]. intros _.
    apply spec_try_except.
    + apply target_get_or_create_index_bind.
      spec_go ltac:(by (cbn; repeat split; try congruence)).
    + intros. by apply spec_print.
Qed.

Lemma write_copy_data r key name source_index_obj namespaces :
  spec (writeL r key name) (copy_data sdk source_index_obj r namespaces).
Proof.
  repeat first
    [ progress cbv beta iota
    | apply spec_target_write, target_upsert_data
    | apply spec_build_batch
    | spec_step ltac:(by (cbn; try congruence)) ].
Qed.

(** Step 2 leaves the destination manager bound to the destination
    account and index. *)
Lemma connect_destination_binds fuel source_dim source_metric dest_key
  dest_index_name w dest_mgr w' :
  connect_destination sdk fuel source_dim source_metric dest_key
    dest_index_name w = (Ok dest_mgr, w') →
  bound_to dest_mgr (Some dest_key) (Some dest_index_name) w'.
Proof.
  intros E. unfold connect_destination in E.
  apply run_bind_inv in E as ([] & w0 & [= <-] & E).
  apply run_bind_inv in E as ([] & w0 & [= <-] & E).
  apply run_bind_inv in E as ([] & w0 & [= <-] & E).
  apply run_bind_inv in E as (r & wB & EB & E).
  destruct (init_captures_environment sdk _ _ _ EB)
    as (-> & _ & m & Hheap & Hk & Hn & Hp & Hi).
  cbn [environ with_environ emit heap] in *.
  rewrite lookup_insert_ne, lookup_insert_eq in Hk, Hp by done.
  rewrite lookup_insert_eq in Hn.
  set (r := length (heap w)) in *.
  assert (bound_to r (Some dest_key) (Some dest_index_name) wB) as Hb.
  { exists m. rewrite Hheap. split; [by apply list_lookup_middle|].
    repeat split; auto. }
  apply run_bind_inv in E as (dest_indexes & wL & EL & E).
  apply (spec_run _ _ _ _ _ (bound_list_indexes sdk r _ _) EL) in Hb.
  apply run_bind_inv in E as ([] & wC & EC & [= <- <-]).
  eapply (spec_run (boundL r (Some dest_key) (Some dest_index_name)))
    in EC as HbC; [by apply HbC | spec_go ltac:(done)].
Qed.


End Writes.

(** ** The keys of [main] *)

Section Strings.

Lemma lstrip_drops b l :
  ∃ pre, l = (pre ++ lstrip b l)%list.
Proof.
  functional induction (lstrip b l);
    try (by exists []); destruct IHl0 as [pre IH].
  - exists (c1 :: pre). cbn. by rewrite <- IH.
  - exists (c1 :: c2 :: pre). cbn. by rewrite <- IH.
  - exists (c1 :: c2 :: c3 :: pre). cbn. by rewrite <- IH.
Qed.

Lemma lstrip_starts b l : starts_with_space b (lstrip b l) = false.
Proof.
  functional induction (lstrip b l); try done; cbn [starts_with_space];
    repeat match goal with E : _ = false |- _ => rewrite E; clear E end;
    done.
Qed.

Lemma lstrip_clean b l : starts_with_space b l = false → lstrip b l = l.
Proof.
  destruct l as [|c1 [|c2 [|c3 s3]]]; cbn [starts_with_space lstrip];
    try done; intros H;
    repeat (apply orb_false_iff in H as [? H]);
    repeat match goal with E : _ = false |- _ => rewrite E; clear E end;
    done.
Qed.

(** Cutting the end of a list does not bring a white space character to
    its front. *)
Lemma starts_with_space_prefix b (l post : list ascii) :
  starts_with_space b (l ++ post) = false → starts_with_space b l = false.
Proof.
  destruct l as [|c1 [|c2 [|c3 s3]]]; cbn [app starts_with_space];
    try done; intros H.
  - destruct post as [|c2 [|c3 s3]];
      repeat (apply orb_false_iff in H as [? H]);
      repeat match goal with E : _ = false |- _ => rewrite E; clear E end;
      done.
  - destruct post as [|c3 s3];
      repeat (apply orb_false_iff in H as [? H]);
      repeat match goal with E : _ = false |- _ => rewrite E; clear E end;
      done.
Qed.

Lemma strip_chars_part l :
  ∃ pre post, l = (pre ++ strip_chars l ++ post)%list.
Proof.
  unfold strip_chars. destruct (lstrip_drops false l) as [pre Hpre].
  destruct (lstrip_drops true (rev (lstrip false l))) as [post Hpost].
  exists pre, (rev post). rewrite <- rev_app_distr, <- Hpost.
  by rewrite rev_involutive.
Qed.

Lemma strip_chars_start l : starts_with_space false (strip_chars l) = false.
Proof.
  unfold strip_chars.
  destruct (lstrip_drops true (rev (lstrip false l))) as [post Hpost].
  apply (f_equal (@rev ascii)) in Hpost.
  rewrite rev_involutive, rev_app_distr in Hpost.
  apply (starts_with_space_prefix false _ (rev post)).
  rewrite <- Hpost. apply lstrip_starts.
Qed.

Lemma strip_chars_end l : ends_with_space (strip_chars l) = false.
Proof.
  unfold ends_with_space, strip_chars. rewrite rev_involutive.
  apply lstrip_starts.
Qed.

Lemma strip_chars_clean l :
  starts_with_space false l = false → ends_with_space l = false →
  strip_chars l = l.
Proof.
  intros Hh Hl. unfold strip_chars. rewrite (lstrip_clean false l Hh).
  rewrite lstrip_clean by done. apply rev_involutive.
Qed.

Lemma filter_all {A} (P : A → Prop) `{∀ x, Decision (P x)} (l : list A) :
  Forall P l → filter P l = l.
Proof.
  induction 1 as [|x l Hx _ IH]; [done|].
  by rewrite filter_cons_True, IH.
Qed.

Lemma py_remove_chars c s :
  list_ascii_of_string (py_remove c s)
  = filter (λ x, x ≠ c) (list_ascii_of_string s).
Proof. unfold py_remove. apply list_ascii_of_string_of_list_ascii. Qed.

Lemma py_strip_chars s :
  list_ascii_of_string (py_strip s) = strip_chars (list_ascii_of_string s).
Proof. unfold py_strip. apply list_ascii_of_string_of_list_ascii. Qed.

(** X26. The key [main] makes of a variable has no quote, single or
    double, and neither starts nor ends with a white space character, of
    any of the characters [str.strip] removes; cleaning it again changes
    nothing. *)
Theorem clean_key_is_clean s :
  let k := list_ascii_of_string (clean_key s) in
  (double_quote ∉ k) ∧
  (single_quote ∉ k) ∧
  starts_with_space false k = false ∧
  ends_with_space k = false ∧
  clean_key (clean_key s) = clean_key s.
Proof.
  intros k.
  assert (∀ c, c ∈ k → c ≠ single_quote ∧ c ≠ double_quote) as Hin.
  { intros c Hc. subst k. unfold clean_key in Hc.
    rewrite py_strip_chars in Hc.
    destruct (strip_chars_part
                (list_ascii_of_string
                   (py_remove single_quote (py_remove double_quote s))))
      as (pre & post & Hparts).
    assert (c ∈ list_ascii_of_string
                  (py_remove single_quote (py_remove double_quote s))) as Hc'
      by (rewrite Hparts; set_solver).
    rewrite py_remove_chars in Hc'.
    apply list_elem_of_filter in Hc' as [Hs Hc'].
    rewrite py_remove_chars in Hc'.
    by apply list_elem_of_filter in Hc' as [Hd _]. }
  assert (starts_with_space false k = false) as Hhead.
  { subst k. unfold clean_key. rewrite py_strip_chars.
    apply strip_chars_start. }
  assert (ends_with_space k = false) as Hlast.
  { subst k. unfold clean_key. rewrite py_strip_chars.
    apply strip_chars_end. }
  split; [intros H; by destruct (Hin _ H)|].
  split; [intros H; by destruct (Hin _ H)|].
  split; [done|]. split; [done|].
  rewrite <- (string_of_list_ascii_of_string (clean_key s)) at 2.
  fold k. unfold clean_key at 1, py_strip. f_equal.
  rewrite !py_remove_chars. fold k.
  rewrite (filter_all (λ x, x ≠ double_quote) k)
    by (apply Forall_forall; intros c Hc; by destruct (Hin c Hc)).
  rewrite (filter_all (λ x, x ≠ single_quote) k)
    by (apply Forall_forall; intros c Hc; by destruct (Hin c Hc)).
  by apply strip_chars_clean.
Qed.

End Strings.

(** ** Steps of a run in a session *)

Lemma run_lift {A B} (m : M A) (f : A → F B) s a w' :
  m (world s) = (Ok a, w') →
  (lift m ≫= f) s = f a (with_world w' s).
Proof. intros H. unfold mbind, F_bind, lift. by rewrite H. Qed.

Lemma run_F_ok {A B} (m : F A) (f : A → F B) s a s' :
  m s = (Ok a, s') → (m ≫= f) s = f a s'.
Proof. intros H. unfold mbind, F_bind. by rewrite H. Qed.

Lemma run_F_raise {A B} (m : F A) (f : A → F B) s e s' :
  m s = (Raise e, s') → (m ≫= f) s = (Raise e, s').
Proof. intros H. unfold mbind, F_bind. by rewrite H. Qed.

Lemma run_F_try_exc {A} (m : F A) h s cls msg s' :
  m s = (Raise (Exc cls msg), s') → try_except_F m h s = h cls msg s'.
Proof. intros H. unfold try_except_F. by rewrite H. Qed.

Lemma run_F_bind_assoc {A B C} (m : F A) (f : A → F B) (g : B → F C) s :
  ((m ≫= f) ≫= g) s = (m ≫= λ a, f a ≫= g) s.
Proof.
  unfold mbind, F_bind. by destruct (m s) as [[a|e|] s1].
Qed.

Lemma with_world_same s : with_world (world s) s = s.
Proof. by destruct s. Qed.

(** ** [create_embeddings] *)

Section Embeddings.

Context (services : Services).

(** Without texts or without a client, [create_embeddings] reports and
    returns the empty list; no service is called. *)
Lemma run_create_embeddings_none self texts model s :
  texts = [] ∨ openai_client (heap (world s) !!! self) = None →
  ∃ template args,
    create_embeddings services self texts model s
    = (Ok [], with_world (emit (EPrint template args) (world s)) s) ∧
    template ∈ [msg_no_texts; msg_embeddings_error].
Proof.
  intros H. unfold create_embeddings.
  destruct texts as [|t texts]; cbn [list_truthy negb].
  - eexists _, _. split; [reflexivity | by left].
  - destruct H as [Ht|H]; [done|].
    erewrite run_F_try_exc; cycle 1.
    { erewrite run_lift; [|reflexivity]. rewrite with_world_same, H.
      reflexivity. }
    eexists _, _. split; [reflexivity | by right; left].
Qed.

(** With texts and a client, [create_embeddings] makes one call and
    returns what it answers, or the empty list when it raises. *)
Lemma run_create_embeddings self texts model s client :
  let c := CEmbeddingsCreate client texts model in
  texts ≠ [] →
  openai_client (heap (world s) !!! self) = Some client →
  create_embeddings services self texts model s
  = match sdk_embeddings_create services (events (world s)) (journal s)
            client texts model with
    | Returns response =>
        (Ok (map embedding (data response)), record_call c s)
    | Throws cls msg =>
        (Ok [],
         with_world (emit (EPrint msg_embeddings_error [VExc cls msg])
                          (world s))
                    (record_call c s))
    end.
Proof.
  intros c Hne Hc. unfold create_embeddings.
  destruct texts as [|t texts]; [done|]. cbn [list_truthy negb].
  unfold try_except_F. erewrite run_lift; [|reflexivity].
  rewrite with_world_same, Hc. unfold embeddings_create, service.
  unfold mbind, F_bind.
  by destruct (sdk_embeddings_create services _ _ _ _ _).
Qed.

(** [create_embeddings] returns, leaves the heap alone and calls no
    operation of Pinecone. *)
Lemma create_embeddings_returns self texts model s :
  ∃ l s',
    create_embeddings services self texts model s = (Ok l, s') ∧
    heap (world s') = heap (world s) ∧
    extends_by no_call (events (world s)) (events (world s')).
Proof.
  destruct (decide (texts = [])) as [->|Hne].
  { eexists _, _. split; [reflexivity|]. split; [done|].
    by apply extends_by_emit. }
  destruct (openai_client (heap (world s) !!! self)) as [client|] eqn:Hc.
  - rewrite (run_create_embeddings self texts model s client Hne Hc).
    destruct (sdk_embeddings_create services _ _ _ _ _);
      eexists _, _; (split; [reflexivity|]); (split; [done|]).
    + apply extends_by_refl.
    + by apply extends_by_emit.
  - destruct (run_create_embeddings_none self texts model s (or_intror Hc))
      as (template & args & -> & _).
    eexists _, _. split; [reflexivity|]. split; [done|].
    by apply extends_by_emit.
Qed.

(** X6. [create_embeddings] never raises.  It returns a list, leaves
    the heap alone and calls no operation of Pinecone.  Without texts or
    without an OpenAI client it returns the empty list and calls no
    service at all.  A non-empty result is the list of the embeddings of
    the response, in its order, of the one call it made with the texts
    and the model it was given. *)
Theorem create_embeddings_never_raises self texts model s :
  ∃ l s',
    create_embeddings services self texts model s = (Ok l, s') ∧
    heap (world s') = heap (world s) ∧
    extends_by no_call (events (world s)) (events (world s')) ∧
    (texts = [] ∨ openai_client (heap (world s) !!! self) = None →
     l = [] ∧ journal s' = journal s) ∧
    (l ≠ [] →
     ∃ client response,
       openai_client (heap (world s) !!! self) = Some client ∧
       sdk_embeddings_create services (events (world s)) (journal s)
         client texts model = Returns response ∧
       l = map embedding (data response) ∧
       s' = record_call (CEmbeddingsCreate client texts model) s).
Proof.
  destruct (decide (texts = [])) as [->|Hne].
  { eexists _, _. split; [reflexivity|]. split; [done|].
    split; [by apply extends_by_emit|]. done. }
  destruct (openai_client (heap (world s) !!! self)) as [client|] eqn:Hc.
  - rewrite (run_create_embeddings self texts model s client Hne Hc).
    destruct (sdk_embeddings_create services _ _ _ _ _) as [response|cls msg]
      eqn:E; eexists _, _; (split; [reflexivity|]); (split; [done|]).
    + split; [apply extends_by_refl|]. split; [by intros [|]|].
      intros _. by exists client, response.
    + split; [by apply extends_by_emit|]. split; [by intros [|]|]. done.
  - destruct (run_create_embeddings_none self texts model s (or_intror Hc))
      as (template & args & -> & _).
    eexists _, _. split; [reflexivity|]. split; [done|].
    split; [by apply extends_by_emit|]. done.
Qed.

End Embeddings.

(** ** [upsert_supplier] *)

Section Suppliers.

Context (sdk : SDK) (services : Services).

Lemma supplier_text_insert supplier key value :
  key ∉ supplier_keys →
  supplier_text (<[key := value]> supplier) = supplier_text supplier.
Proof.
  intros H. unfold supplier_keys in H.
  unfold supplier_text, optional_line, get_or_empty.
  by rewrite !lookup_insert_ne by set_solver.
Qed.

Lemma supplier_metadata_insert supplier key value text :
  key ∉ supplier_keys →
  supplier_metadata (<[key := value]> supplier) text
  = supplier_metadata supplier text.
Proof.
  intros H. unfold supplier_keys in H.
  unfold supplier_metadata, get_or_empty.
  by rewrite !lookup_insert_ne by set_solver.
Qed.

(** X15. [upsert_supplier] reads seven keys of the supplier (name,
    country, address, phone, email, listing_url, description): setting any
    other key, such as the [website] of the docstring, changes neither the
    text nor anything the method does. *)
Theorem upsert_supplier_ignores_other_keys self supplier namespace key value
  s :
  key ∉ supplier_keys →
  supplier_text (<[key := value]> supplier) = supplier_text supplier ∧
  upsert_supplier sdk services self (<[key := value]> supplier) namespace s
  = upsert_supplier sdk services self supplier namespace s.
Proof.
  intros H. split; [by apply supplier_text_insert|].
  unfold upsert_supplier.
  rewrite supplier_text_insert, supplier_metadata_insert by done.
  rewrite lookup_insert_ne; [done|]. unfold supplier_keys in H. set_solver.
Qed.

Lemma get_or_empty_delete supplier key k :
  supplier !! key = Some "" →
  get_or_empty (delete key supplier) k = get_or_empty supplier k.
Proof.
  intros H. unfold get_or_empty. destruct (decide (key = k)) as [<-|Hne].
  - by rewrite lookup_delete_eq, H.
  - by rewrite lookup_delete_ne.
Qed.

Lemma optional_line_delete supplier key label k :
  supplier !! key = Some "" →
  optional_line (delete key supplier) label k
  = optional_line supplier label k.
Proof.
  intros H. unfold optional_line. destruct (decide (key = k)) as [<-|Hne].
  - by rewrite lookup_delete_eq, H.
  - by rewrite lookup_delete_ne.
Qed.

(** X16. A key that holds the empty string counts as a missing key:
    removing it changes neither the text nor the metadata of the
    supplier. *)
Theorem blank_field_is_missing supplier key :
  supplier !! key = Some "" →
  supplier_text (delete key supplier) = supplier_text supplier ∧
  ∀ text,
    supplier_metadata (delete key supplier) text
    = supplier_metadata supplier text.
Proof.
  intros H. split.
  - unfold supplier_text.
    by rewrite !optional_line_delete, get_or_empty_delete.
  - intros text. unfold supplier_metadata.
    by rewrite !get_or_empty_delete.
Qed.

(** One record, the default batch size, an index at hand: one upsert,
    and a report that depends on its answer. *)
Lemma upsert_data_single self vector namespace ix w :
  index (heap w !!! self) = Some ix →
  let name := index_name (heap w !!! self) in
  let announced :=
    emit (EPrint msg_attempting
            [VInt 1; VOptStr name; VStr namespace; VInt 100]) w in
  upsert_data sdk self [vector] namespace 100 w
  = (Ok tt,
     emit (match sdk_index_upsert sdk (events announced) ix [vector]
                   namespace with
           | Returns _ => EPrint msg_upserted [VInt 1; VOptStr name]
           | Throws cls msg => EPrint msg_upsert_error [VExc cls msg]
           end)
       (emit (ECall (CUpsert ix [vector] namespace)) announced)).
Proof.
  intros Hix name announced. unfold upsert_data. cbn [list_truthy negb].
  rewrite run_attrs, run_print. change (len [vector]) with 1.
  fold name announced. unfold try_except.
  rewrite (run_bind_ok _ _ _ _ _
             (get_or_create_index_cached sdk self announced ix Hix)).
  change (math_ceil_div 1 100) with (mret (M:=M) 1).
  rewrite run_ret. change (py_range 1) with [0]. cbn [for_each].
  change (batch_of [vector] 100 0) with [vector].
  rewrite run_bind_assoc. unfold index_upsert, remote.
  unfold mbind, M_bind.
  by destruct (sdk_index_upsert sdk _ _ _ _) as [[]|cls msg].
Qed.

(** X14. When the embedding of the text is obtained,
    [upsert_supplier] hands to [upsert_data] one record (the identifier of
    [uuid4], the first embedding of the response, the metadata of the
    supplier with the embedded text under ["text"]), which makes one
    upsert; and whether this upsert returns or raises, [upsert_supplier]
    prints its message of success and returns the identifier. *)
Theorem upsert_supplier_reports_success self supplier namespace s client
  values rest ix :
  let vector_id := sdk_uuid4_hex services (events (world s)) (journal s) in
  let text := supplier_text supplier in
  let vector :=
    {| vr_id := vector_id; vr_values := values;
       vr_metadata := supplier_metadata supplier text |} in
  let name := index_name (heap (world s) !!! self) in
  let s1 :=
    with_world (emit (EPrint "{vector_id}" [VStr vector_id]) (world s))
               (record_call CUuid4 s) in
  let announced :=
    emit (EPrint msg_attempting
            [VInt 1; VOptStr name; VStr namespace; VInt 100]) (world s1) in
  openai_client (heap (world s) !!! self) = Some client →
  sdk_embeddings_create services (events (world s1)) (journal s1) client
    [text] embedding_model
  = Returns {| data := {| embedding := values |} :: rest |} →
  index (heap (world s) !!! self) = Some ix →
  upsert_supplier sdk services self supplier namespace s
  = (Ok vector_id,
     with_world
       (emit (EPrint msg_supplier_upserted
                [VOptStr (supplier !! "name"); VStr namespace;
                 VStr vector_id])
          (emit (match sdk_index_upsert sdk (events announced) ix [vector]
                         namespace with
                 | Returns _ => EPrint msg_upserted [VInt 1; VOptStr name]
                 | Throws cls msg => EPrint msg_upsert_error [VExc cls msg]
                 end)
             (emit (ECall (CUpsert ix [vector] namespace)) announced)))
       (record_call (CEmbeddingsCreate client [text] embedding_model) s1)).
Proof.
  intros vector_id text vector name s1 announced Hc Hemb Hix.
  unfold upsert_supplier. fold text.
  erewrite run_F_ok; [|reflexivity]. fold vector_id.
  erewrite run_lift; [|reflexivity].
  change (with_world _ (record_call CUuid4 s)) with s1.
  erewrite run_F_ok; cycle 1.
  { rewrite (run_create_embeddings services self [text] _ s1 client);
      [|done|exact Hc].
    fold embedding_model. rewrite Hemb. reflexivity. }
  cbn [map data embedding]. fold vector.
  erewrite run_lift; cycle 1.
  { apply (upsert_data_single self vector namespace ix). exact Hix. }
  erewrite run_lift; [|reflexivity].
  reflexivity.
Qed.

(** X13. [upsert_supplier] never raises and has two outcomes: the
    empty string, after the message of the failed embedding and without
    any call to Pinecone; or the identifier [uuid4] gave, after the
    message of success. *)
Theorem upsert_supplier_outcome self supplier namespace s :
  let vector_id := sdk_uuid4_hex services (events (world s)) (journal s) in
  ∃ r s',
    upsert_supplier sdk services self supplier namespace s = (Ok r, s') ∧
    ((r = "" ∧
      last (events (world s')) = Some (EPrint msg_embedding_failed []) ∧
      extends_by no_call (events (world s)) (events (world s')))
     ∨ (r = vector_id ∧
        last (events (world s')) =
        Some (EPrint msg_supplier_upserted
                [VOptStr (supplier !! "name"); VStr namespace;
                 VStr vector_id]))).
Proof.
  intros vector_id. unfold upsert_supplier.
  erewrite run_F_ok; [|reflexivity]. fold vector_id.
  erewrite run_lift; [|reflexivity].
  set (s1 := with_world _ _).
  destruct (create_embeddings_returns services self
              [supplier_text supplier] "text-embedding-ada-002" s1)
    as (l & s2 & E & Hheap & Hext).
  rewrite (run_F_ok _ _ _ _ _ E).
  destruct l as [|values l].
  - erewrite run_lift; [|reflexivity].
    eexists _, _. split; [reflexivity|]. left. split; [done|].
    split; [apply last_emit|].
    eapply extends_by_trans; [|eapply extends_by_trans; [exact Hext|]].
    + subst s1. by apply extends_by_emit.
    + by apply extends_by_emit.
  - destruct (upsert_data_returns sdk self
                [{| vr_id := vector_id; vr_values := values;
                    vr_metadata :=
                      supplier_metadata supplier (supplier_text supplier) |}]
                namespace 100 (world s2)) as [w3 E3].
    erewrite run_lift; [|exact E3].
    erewrite run_lift; [|reflexivity].
    eexists _, _. split; [reflexivity|]. right. split; [done|].
    apply last_emit.
Qed.

End Suppliers.

Lemma run_lift_raise {A B} (m : M A) (f : A → F B) s e w' :
  m (world s) = (Raise e, w') →
  (lift m ≫= f) s = (Raise e, with_world w' s).
Proof. intros H. unfold mbind, F_bind, lift. by rewrite H. Qed.

(** ** [query_index] *)

Section Queries.

Context (sdk : SDK) (services : Services).

Lemma safe_get_or_create_index self :
  spec safeL (get_or_create_index sdk self).
Proof. spec_go ltac:(done). Qed.

(** The query returns or raises an instance of [Exception]. *)
Lemma index_query_cases ix vector top_k include_values include_metadata
  namespace filter s :
  (∃ r s', index_query services ix vector top_k include_values
             include_metadata namespace filter s = (Ok r, s')) ∨
  (∃ cls msg s', index_query services ix vector top_k include_values
                   include_metadata namespace filter s
                 = (Raise (Exc cls msg), s')).
Proof.
  unfold index_query. destruct ix as [i|].
  - unfold service.
    destruct (sdk_index_query services _ _ _ _ _ _ _ _ _); eauto 6.
  - right. eexists _, _, _. reflexivity.
Qed.

(** With an index at hand, [query_index] makes the query and nothing
    else. *)
Lemma run_query_index self query_embedding namespace top_k include_values
  include_metadata filter s ix :
  let c := CQuery ix query_embedding top_k include_values include_metadata
                  namespace filter in
  index (heap (world s) !!! self) = Some ix →
  query_index sdk services self query_embedding namespace top_k
    include_values include_metadata filter s
  = match sdk_index_query services (events (world s)) (journal s) ix
            query_embedding top_k include_values include_metadata
            namespace filter with
    | Returns response => (Ok (Some response), record_call c s)
    | Throws cls msg =>
        (Ok None,
         with_world (emit (EPrint msg_query_error [VExc cls msg]) (world s))
                    (record_call c s))
    end.
Proof.
  intros c Hix. unfold query_index, try_except_F.
  erewrite run_lift; [|reflexivity]. rewrite with_world_same, Hix.
  erewrite (run_F_ok (mret tt)); [|reflexivity].
  erewrite run_lift; [|reflexivity]. rewrite with_world_same, Hix.
  unfold index_query, service. unfold mbind, F_bind.
  by destruct (sdk_index_query services _ _ _ _ _ _ _ _ _).
Qed.


End Queries.

(* ================================================================== *)
(** * The theorems on the simulated service                             *)
(* ================================================================== *)

Module Runs.

Import Demo.

(** The end-to-end scenario of the specification: three records in the
    default namespace, a destination that does not exist; the index is
    created with the dimension and the metric of the source, the three
    records are upserted in one call, and the total is 3. *)
Example end_to_end :
  let run := migrate (sdk_of fresh_destination) 5 "src-key" "products"
               "dst-key" "copy" world0 in
  run.1 = Ok tt ∧
  total_migrated run.2 = 3 ∧
  upsert_calls (events run.2) = [[record "a"; record "b"; record "c"]] ∧
  ECall (CCreateIndex {| pc_api_key := Some "dst-key" |} (Some "copy") 8
           "cosine" "aws" "us-east-1") ∈ events run.2.
Proof.
  vm_compute. repeat split. apply list_elem_of_In. vm_compute. tauto.
Qed.

(** The same copy started from [main]: the keys come from the
    environment and the index names from the command line; the
    environment is left on the destination's settings. *)
Example main_end_to_end :
  let run := main (sdk_of fresh_destination) 5
               ["pinecone_migration.py"; "products"; "copy"] with_keys in
  run.1 = Ok tt ∧
  total_migrated run.2 = 3 ∧
  environ run.2 !! "PINECONE_INDEX_NAME" = Some "copy" ∧
  environ run.2 !! "PINECONE_API_KEY" = Some "dst-key".
Proof. vm_compute. repeat split. Qed.

(** The fetch of the namespace ["A"] raises [AttributeError] although
    the index can list its ids: the copy reports that the source index
    does not support listing ids and stops, and ["B"] is never started. *)
Lemma namespace_failure_handling_witness :
  sdk_index_list (sdk_of (failing_fetch AttributeError)) ≠ None ∧
  for_each_break ["A"; "B"]
    (copy_namespace (sdk_of (failing_fetch AttributeError)) source_handle 1)
    (ready (failing_fetch AttributeError))
  = (Ok tt,
     emit (EPrint msg_no_list_support [])
       (stopped_in_A (failing_fetch AttributeError))) ∧
  attempted_namespaces
    (events_since (ready (failing_fetch AttributeError))
       (emit (EPrint msg_no_list_support [])
          (stopped_in_A (failing_fetch AttributeError))))
  = ["A"].
Proof.
  split; [discriminate|]. split; [|vm_compute; reflexivity].
  refine (proj2 (namespace_failure_handling
                   (sdk_of (failing_fetch AttributeError)) source_handle
                   1%nat "A" ["B"] (ready (failing_fetch AttributeError))
                   AttributeError "fetch failed"
                   (stopped_in_A (failing_fetch AttributeError)) _)
                eq_refl).
  vm_compute. reflexivity.
Defined.

Lemma missing_list_aborts_transfer_witness :
  ∃ w', migrate (sdk_of no_list) 1 "src-key" "products" "dst-key" "copy"
          world0 = (Ok tt, w') ∧
        events w' =
        (events (ready no_list)
         ++ [EPrint msg_start_copy [];
             EPrint msg_processing_namespace [VStr "A"];
             EPrint msg_no_list_support [];
             EPrint msg_complete [];
             EPrint msg_total_migrated [VInt 0]])%list.
Proof.
  apply (missing_list_aborts_transfer (sdk_of no_list) 1 "src-key"
           "products" "dst-key" "copy" world0 0%nat 8 "cosine" source_handle
           (connected_source no_list) 1%nat (connected no_list 8)
           "A" ["B"] (ready no_list));
    vm_compute; reflexivity.
Defined.

Lemma namespaces_of_stats_witness :
  ∃ namespaces w',
    prepare_migration (sdk_of two_namespaces) 0 (connected two_namespaces 8)
    = (Ok namespaces, w') ∧
    (0 < 3 → [("A", 1); ("B", 2)] = [] → namespaces = [""]) ∧
    (¬ (0 < 3 ∧ [("A", 1); ("B", 2)] = []) → namespaces = ["A"; "B"]) ∧
    (3 = 0 → [("A", 1); ("B", 2)] = [] → namespaces = []).
Proof.
  apply (namespaces_of_stats (sdk_of two_namespaces) 0%nat
           (connected two_namespaces 8)
           {| st_namespaces := Some [("A", 1); ("B", 2)];
              st_total_vector_count := 3 |}
           (emit (ECall (CDescribeIndexStats
                           {| ix_client := {| pc_api_key := Some "src-key" |};
                              ix_name := Some "products" |}))
              (emit (EPrint msg_preparing []) (connected two_namespaces 8)))).
  vm_compute. reflexivity.
Defined.



Lemma dimension_mismatch_aborts_witness :
  ∃ w', migrate (sdk_of mismatched) 1 "src-key" "products" "dst-key" "copy"
          world0 = (Raise (SystemExit 1), w') ∧
        last (events w') = Some (EPrint msg_mismatch_dest [VInt 768]) ∧
        extends_without_copy (events world0) (events w') ∧
        upsert_calls (events_since world0 w') = [].
Proof.
  apply (dimension_mismatch_aborts (sdk_of mismatched) 1 "src-key" "products"
           "dst-key" "copy" world0 0%nat 1536 "cosine" source_handle
           (connected_source mismatched) 1%nat (destination_built mismatched)
           [model "copy" 768] (model "copy" 768)).
  - vm_compute. reflexivity.
  - vm_compute. reflexivity.
  - vm_compute. reflexivity.
  - apply list_elem_of_In. simpl. tauto.
  - vm_compute. reflexivity.
  - simpl. lia.
Defined.

Lemma delete_index_never_deletes_witness :
  delete_index (sdk_of two_namespaces) 0 one_manager
  = (Ok tt,
     emit (EPrint msg_index_absent [VStr "copy"])
       (emit (ECall (CListIndexes {| pc_api_key := Some "dst-key" |}))
          one_manager)) ∧
  "copy" ∈ map im_name [model "copy" 8].
Proof.
  split.
  - apply (delete_index_never_deletes (sdk_of two_namespaces) 0%nat
             one_manager [model "copy" 8]).
    reflexivity.
  - apply list_elem_of_In. simpl. tauto.
Defined.



Lemma null_stats_crash_witness :
  stats_namespaces None = [] ∧
  migrate (sdk_of failing_stats) 1 "src-key" "products" "dst-key" "copy"
    world0
  = (Raise (Exc AttributeError (none_has_no "total_vector_count")),
     (describe_index_stats (sdk_of failing_stats) 0
        (emit (EPrint msg_preparing []) (connected failing_stats 8))).2) ∧
  (∃ cls msg,
     last (events
             (describe_index_stats (sdk_of failing_stats) 0
                (emit (EPrint msg_preparing [])
                   (connected failing_stats 8))).2)
     = Some (EPrint msg_stats_error [VExc cls msg])) ∧
  extends_without_copy (events world0)
    (events
       (describe_index_stats (sdk_of failing_stats) 0
          (emit (EPrint msg_preparing []) (connected failing_stats 8))).2).
Proof.
  apply (null_stats_crash (sdk_of failing_stats) 1 "src-key" "products"
           "dst-key" "copy" world0 0%nat 8 "cosine" source_handle
           (connected_source failing_stats) 1%nat
           (connected failing_stats 8));
    vm_compute; reflexivity.
Defined.

Lemma source_binding_survives_witness :
  bound_to 0 (Some "src-key") (Some "products") (connected two_namespaces 8) ∧
  environ (connected two_namespaces 8) !! "PINECONE_API_KEY"
  = Some "dst-key" ∧
  environ (connected two_namespaces 8) !! "PINECONE_INDEX_NAME"
  = Some "copy".
Proof.
  destruct (source_binding_survives (sdk_of two_namespaces) 1 "src-key"
              "products" "dst-key" "copy" world0 0%nat 8 "cosine"
              source_handle (connected_source two_namespaces) 1%nat
              (connected two_namespaces 8))
    as (_ & _ & _ & Hk & Hn & Hb & _).
  - vm_compute. reflexivity.
  - vm_compute. reflexivity.
  - exact (conj Hb (conj Hk Hn)).
Defined.

Lemma reported_total_counts_attempts_witness :
  copy_page (sdk_of failing_upsert) source_handle 1 "A" ["a1"]
    (ready failing_upsert)
  = (Ok tt,
     with_total (total_migrated (ready failing_upsert) + 1)
       (emit (EPrint msg_upsert_error [VExc library_error "upsert failed"])
          (emit (ECall (CUpsert destination_handle [record "a1"] "A"))
             (obtained_in_A failing_upsert)))).
Proof.
  refine (proj1 (reported_total_counts_attempts (sdk_of failing_upsert)
                   source_handle 1%nat "A" ["a1"] (ready failing_upsert)
                   {| fr_vectors := Some [("a1", vec [1; 2])] |}
                   (fetched_in_A failing_upsert)
                   [record "a1"] destination_handle
                   (obtained_in_A failing_upsert)
                   library_error "upsert failed" _ _ _ _ _ _)).
  - discriminate.
  - vm_compute. reflexivity.
  - vm_compute. reflexivity.
  - discriminate.
  - vm_compute. reflexivity.
  - reflexivity.
Defined.

End Runs.

(* ================================================================== *)
(** * The further properties on the simulated service                   *)
(* ================================================================== *)

Module Checks.

Import Demo Cases.

Lemma init_needs_only_pinecone_witness :
  ∃ w' m,
    PineconeManager_init (without_openai two_namespaces) configured
    = (Ok 0%nat, w') ∧
    heap w' = [m] ∧
    index m = None ∧
    (openai_client m = None ∨
     ∃ k, environ configured !! "OPENAI_API_KEY" = Some k ∧ k ≠ "" ∧
          openai_client m = Some {| oa_api_key := k |}).
Proof.
  apply (init_needs_only_pinecone (without_openai two_namespaces) configured).
  reflexivity.
Defined.

Lemma create_index_skips_existing_witness :
  ∃ r w',
    create_index (sdk_of two_namespaces) 0 8 "cosine" false detached
    = (r, w') ∧
    events w' =
      [ECall (CListIndexes {| pc_api_key := Some "dst-key" |});
       EPrint msg_already_exists_skip [VStr "copy"];
       ECall (CIndex {| pc_api_key := Some "dst-key" |} (Some "copy"))] ∧
    (r = Ok tt → index (heap w' !!! 0%nat) = Some destination_handle).
Proof.
  apply (create_index_skips_existing (sdk_of two_namespaces) 0%nat 8 "cosine"
           detached [model "copy" 8] "copy").
  - cbn. lia.
  - reflexivity.
  - reflexivity.
  - apply list_elem_of_In. simpl. tauto.
Defined.

Lemma create_index_replace_keeps_index_witness :
  ∃ r w' rest,
    create_index (sdk_of two_namespaces) 0 8 "cosine" true detached
    = (r, w') ∧
    events w' =
      ([ECall (CListIndexes {| pc_api_key := Some "dst-key" |});
        EPrint msg_already_exists_replace [VStr "copy"];
        ECall (CListIndexes {| pc_api_key := Some "dst-key" |});
        EPrint msg_index_absent [VStr "copy"];
        EPrint msg_creating [VStr "copy"; VInt 8; VStr "cosine"];
        ECall (CCreateIndex {| pc_api_key := Some "dst-key" |} (Some "copy")
                 8 "cosine" "aws" "us-east-1")]
       ++ rest)%list ∧
    Forall no_delete rest.
Proof.
  apply (create_index_replace_keeps_index (sdk_of two_namespaces) 0%nat 8
           "cosine" detached [model "copy" 8] [model "copy" 8] "copy").
  - reflexivity.
  - reflexivity.
  - apply list_elem_of_In. simpl. tauto.
  - reflexivity.
Defined.

Lemma get_or_create_index_caches_witness :
  ∃ ix,
    Some destination_handle = Some ix ∧
    index (heap (get_or_create_index (sdk_of two_namespaces) 0 detached).2
             !!! 0%nat) = Some ix ∧
    get_or_create_index (sdk_of two_namespaces) 0
      (get_or_create_index (sdk_of two_namespaces) 0 detached).2
    = (Ok (Some ix),
       (get_or_create_index (sdk_of two_namespaces) 0 detached).2).
Proof.
  apply (get_or_create_index_caches (sdk_of two_namespaces) 0%nat detached).
  - cbn. lia.
  - vm_compute. reflexivity.
Defined.

Lemma upsert_data_zero_batch_size_witness :
  upsert_data (sdk_of two_namespaces) 0 five "A" 0 one_manager
  = (Ok tt,
     emit (EPrint msg_upsert_error
             [VExc ZeroDivisionError "division by zero"])
       (emit (EPrint msg_attempting
                [VInt 5; VStr "copy"; VStr "A"; VInt 0]) one_manager)).
Proof.
  apply (upsert_data_zero_batch_size (sdk_of two_namespaces) 0%nat five "A"
           one_manager (Some destination_handle)).
  - discriminate.
  - reflexivity.
Defined.

Lemma upsert_data_negative_batch_size_witness :
  upsert_data (sdk_of two_namespaces) 0 five "A" (-2) one_manager
  = (Ok tt,
     emit (EPrint msg_upserted [VInt 5; VStr "copy"])
       (emit (EPrint msg_attempting
                [VInt 5; VStr "copy"; VStr "A"; VInt (-2)]) one_manager)).
Proof.
  apply (upsert_data_negative_batch_size (sdk_of two_namespaces) 0%nat five
           "A" (-2) one_manager (Some destination_handle)).
  - discriminate.
  - lia.
  - reflexivity.
Defined.

Lemma upsert_calls_prefix_witness :
  ∃ w', upsert_data (sdk_of refusing_c) 0 five "ns" 2 one_manager
        = (Ok tt, w') ∧
        events w' =
          [EPrint msg_attempting [VInt 5; VStr "copy"; VStr "ns"; VInt 2];
           ECall (CUpsert destination_handle [record "a"; record "b"] "ns");
           ECall (CUpsert destination_handle [record "c"; record "d"] "ns");
           EPrint msg_upsert_error [VExc library_error "upsert failed"]] ∧
        upsert_calls (events_since one_manager w')
        = [[record "a"; record "b"]; [record "c"; record "d"]].
Proof.
  apply (upsert_calls_prefix (sdk_of refusing_c) 0%nat five "ns" 2
           one_manager destination_handle
           (emit (EPrint msg_attempting
                    [VInt 5; VStr "copy"; VStr "ns"; VInt 2]) one_manager)
           1%nat [record "c"; record "d"] library_error "upsert failed").
  - discriminate.
  - discriminate.
  - vm_compute. reflexivity.
  - vm_compute. reflexivity.
  - intros [|i] batch Hi; [|lia]. intros [= <-]. vm_compute. reflexivity.
  - vm_compute. reflexivity.
Defined.

Lemma unverifiable_destination_is_accepted_witness :
  ∃ w', connect_destination (undescribed two_namespaces) 1 8 "cosine"
          "dst-key" "copy" (connected_source two_namespaces)
        = (Ok 1%nat, w') ∧
        last (events w') =
        Some (EPrint msg_unverified [VExc library_error "describe failed"]).
Proof.
  eexists. split.
  - apply (unverifiable_destination_is_accepted (undescribed two_namespaces)
             1 8 "cosine" "dst-key" "copy" (connected_source two_namespaces)
             1%nat
             (PineconeManager_init (undescribed two_namespaces)
                (destination_environment "dst-key" "copy"
                   (connected_source two_namespaces))).2
             [model "copy" 8] library_error "describe failed").
    + vm_compute. reflexivity.
    + vm_compute. reflexivity.
    + apply list_elem_of_In. simpl. tauto.
    + vm_compute. reflexivity.
  - apply last_emit.
Defined.

Lemma wait_until_ready_polls_witness :
  wait_until_ready (provisioning 2 two_namespaces) 5 0 "copy" one_manager
  = (Ok tt,
     emit_all
       (polling {| pc_api_key := Some "dst-key" |} "copy" 2
        ++ [ECall (CDescribeIndex {| pc_api_key := Some "dst-key" |} "copy")])
       one_manager).
Proof.
  apply (wait_until_ready_polls (provisioning 2 two_namespaces) 5 0%nat
           "copy" one_manager 2
           {| im_name := "copy"; im_dimension := 8; im_metric := "cosine";
              im_ready := true |}).
  - lia.
  - intros [|[|i]] Hi; [eexists; split; reflexivity..|lia].
  - reflexivity.
  - reflexivity.
Defined.

Lemma copy_page_copies_witness :
  copy_page (sdk_of two_namespaces) source_handle 0 "B" ["b1"; "b2"]
    one_manager
  = (Ok tt,
     with_total 2
       (emit (EPrint msg_upserted [VInt 2; VStr "copy"])
          (emit (ECall (CUpsert destination_handle
                          [record "b1"; record "b2"] "B"))
             (emit (EPrint msg_attempting
                      [VInt 2; VStr "copy"; VStr "B"; VInt 2])
                (emit (ECall (CFetch {| ix_client :=
                                          {| pc_api_key := Some "src-key" |};
                                        ix_name := Some "products" |}
                                ["b1"; "b2"] "B"))
                   one_manager))))).
Proof.
  apply (copy_page_copies (sdk_of two_namespaces)
           {| ix_client := {| pc_api_key := Some "src-key" |};
              ix_name := Some "products" |}
           0%nat "B" ["b1"; "b2"] one_manager
           [("b1", vec [1; 2]); ("b2", vec [1; 2])] destination_handle).
  - discriminate.
  - discriminate.
  - reflexivity.
  - reflexivity.
  - reflexivity.
  - reflexivity.
Defined.

Lemma migrate_leaves_destination_environment_witness :
  environ (migrate (sdk_of fresh_destination) 5 "src-key" "products"
             "dst-key" "copy" world0).2
  = <["PINECONE_INDEX_NAME" := "copy"]>
      (<["PINECONE_API_KEY" := "dst-key"]> ∅).
Proof.
  apply (migrate_leaves_destination_environment (sdk_of fresh_destination) 5
           "src-key" "products" "dst-key" "copy" world0).
  vm_compute. reflexivity.
Defined.

Lemma main_interactive_defaults_witness :
  main (sdk_of two_namespaces) 1 ["pinecone_migration.py"] typed
  = migrate (sdk_of two_namespaces) 1 "src-key" "products" "dst-key"
      "products"
      (with_stdin []
         (emit (EInput prompt_destination [VStr "products"])
            (with_stdin [""]
               (emit (EInput prompt_source [])
                  (emit (EPrint msg_interactive []) typed))))).
Proof.
  apply (main_interactive_defaults (sdk_of two_namespaces) 1
           ["pinecone_migration.py"] typed "  products " "" []).
  - cbn. lia.
  - vm_compute. discriminate.
  - vm_compute. discriminate.
  - reflexivity.
  - vm_compute. discriminate.
Defined.

(** [strip] removes the ideographic space and keeps the accented
    letter; a source index name made of an ideographic space is a
    missing name. *)
Example strip_beyond_ascii :
  py_strip (ideographic_space +:+ "voil" +:+ a_grave +:+ " ")
  = "voil" +:+ a_grave ∧
  main (sdk_of two_namespaces) 1 ["pinecone_migration.py"]
    (with_stdin [ideographic_space] with_keys)
  = (Raise (SystemExit 1),
     emit (EPrint msg_source_required [])
       (with_stdin []
          (emit (EInput prompt_source [])
             (emit (EPrint msg_interactive []) with_keys)))).
Proof. split; vm_compute; reflexivity. Qed.

Lemma upsert_supplier_reports_success_witness :
  ∃ s',
    upsert_supplier (sdk_of failing_upsert) embedder 0 acme "dmc" shop
    = (Ok identifier, s') ∧
    last (events (world s')) =
    Some (EPrint msg_supplier_upserted
            [VStr "Acme"; VStr "dmc"; VStr identifier]) ∧
    EPrint msg_upsert_error [VExc library_error "upsert failed"]
    ∈ events (world s').
Proof.
  eexists. split; [|split].
  - apply (upsert_supplier_reports_success (sdk_of failing_upsert) embedder
             0%nat acme "dmc" shop {| oa_api_key := "sk-test" |} [1; 2] []
             destination_handle).
    + reflexivity.
    + vm_compute. reflexivity.
    + reflexivity.
  - apply last_emit.
  - apply list_elem_of_In. vm_compute. tauto.
Defined.

Lemma upsert_supplier_ignores_other_keys_witness :
  supplier_text (<["website" := "acme.example"]> (delete "website" acme))
  = supplier_text (delete "website" acme) ∧
  upsert_supplier (sdk_of two_namespaces) embedder 0
    (<["website" := "acme.example"]> (delete "website" acme)) "dmc" shop
  = upsert_supplier (sdk_of two_namespaces) embedder 0
      (delete "website" acme) "dmc" shop.
Proof.
  apply (upsert_supplier_ignores_other_keys (sdk_of two_namespaces) embedder
           0%nat (delete "website" acme) "dmc" "website" "acme.example" shop).
  intros H. apply list_elem_of_In in H. vm_compute in H.
  repeat destruct H as [H|H]; try discriminate H. exact H.
Defined.

Lemma blank_field_is_missing_witness :
  supplier_text (delete "phone" acme) = supplier_text acme ∧
  ∀ text,
    supplier_metadata (delete "phone" acme) text
    = supplier_metadata acme text.
Proof.
  apply (blank_field_is_missing acme "phone"). vm_compute. reflexivity.
Defined.

End Checks.
